(** * Selection popup: visibility controller and streaming response controller

    A shallow embedding of the content script [frontend/src/content.js] and of
    the request logic of [frontend/src/components/ContentPopup.jsx], followed
    by the properties proved about them.

    Conventions of the embedding
    - A JavaScript string is the list of its UTF-16 code units ([JS.jsstring]).
    - DOMRect coordinates are rationals, as every finite double is one; the
      code compares them, and where it adds or subtracts them the result is
      rounded to the nearest double ([JS.toDouble]).
      [window.innerWidth]/[innerHeight] and [Date.now()] are integers.
    - Module-level [let] variables and React state become record fields that
      are threaded explicitly; every event handler is a function on that
      record, and what a handler reads from the page is an argument. *)

From Stdlib Require Import ZArith NArith QArith Qminmax Qround Qabs Qpower.
From Stdlib Require Import List Bool String Ascii.
From Stdlib Require Import Lia Lqa DecimalString DecimalPos.
From Equations Require Import Equations.
Import ListNotations.

Local Open Scope Z_scope.

(* ------------------------------------------------------------------ *)
(** ** JavaScript strings *)

Module JS.

Definition jsstring := list N.

(** An ASCII literal of the source as code units. *)
Fixpoint js (s : string) : jsstring :=
  match s with
  | EmptyString => []
  | String a s' => N_of_ascii a :: js s'
  end.

Fixpoint eqb (a b : jsstring) : bool :=
  match a, b with
  | [], [] => true
  | x :: a', y :: b' => N.eqb x y && eqb a' b'
  | _, _ => false
  end.

(** ECMAScript WhiteSpace and LineTerminator code points: what [\s] matches
    in a regular expression and what [String.prototype.trim] strips. *)
Definition isWhiteSpace (c : N) : bool :=
  ((9 <=? c) && (c <=? 13) || (c =? 32) || (c =? 160) || (c =? 5760)
   || (8192 <=? c) && (c <=? 8202) || (c =? 8232) || (c =? 8233)
   || (c =? 8239) || (c =? 8287) || (c =? 12288) || (c =? 65279))%N.

Fixpoint trimStart (s : jsstring) : jsstring :=
  match s with
  | [] => []
  | c :: s' => if isWhiteSpace c then trimStart s' else s
  end.

Definition trimEnd (s : jsstring) : jsstring := rev (trimStart (rev s)).

Definition trim (s : jsstring) : jsstring := trimEnd (trimStart s).

(** [`${n}`] for an integer [n]. *)
Definition numberToString (z : Z) : jsstring :=
  js (NilZero.string_of_int (Z.to_int z)).

(** Truthiness of a string: non-empty. *)
Definition truthy (s : jsstring) : bool :=
  match s with [] => false | _ :: _ => true end.

(** The number that a string of decimal digits denotes; used to say which
    number a message shows. *)
Definition digitValue (c : N) : option Z :=
  if ((48 <=? c) && (c <=? 57))%N then Some (Z.of_N c - 48) else None.

Fixpoint decimalFrom (acc : Z) (s : jsstring) : option Z :=
  match s with
  | [] => Some acc
  | c :: s' =>
      match digitValue c with
      | Some d => decimalFrom (10 * acc + d) s'
      | None => None
      end
  end.

Definition decimalValue (s : jsstring) : option Z :=
  match s with
  | [] => None
  | _ :: _ => decimalFrom 0 s
  end.

(** *** Numbers

    A Number is an IEEE 754 binary64 value, and the finite ones are
    rationals: an integer of fewer than 54 bits times a power of two.  The
    arithmetic operators round their exact result to the nearest such
    value, a tie going to the even significand; [toDouble] is that
    rounding.  Below 2^-1022 the spacing stays 2^-1074; results are taken to
    stay below 2^1024 in magnitude, where the code would get Infinity. *)

Definition isDouble (q : Q) : Prop :=
  exists m k, Z.abs m < 2 ^ 53 /\ -1074 <= k <= 971
              /\ (q == inject_Z m * 2 ^ k)%Q.

Definition roundTiesToEven (q : Q) : Z :=
  let f := Qfloor q in
  match (q - inject_Z f ?= 1 # 2)%Q with
  | Lt => f
  | Gt => f + 1
  | Eq => if Z.even f then f else f + 1
  end.

(** The exponent [e] with [2^e <= q < 2^(e+1)], for positive [q]. *)
Definition floorLog2 (q : Q) : Z :=
  let e := Z.log2 (Qnum q) - Z.log2 (Z.pos (Qden q)) in
  if Qle_bool (2 ^ e) q then e else e - 1.

Definition toDouble (q : Q) : Q :=
  if Qeq_bool q 0 then 0%Q
  else
    let e := Z.max (floorLog2 (Qabs q)) (-1022) in
    let ulp := (2 ^ (e - 52))%Q in
    (inject_Z (roundTiesToEven (q / ulp)) * ulp)%Q.

End JS.

(* ------------------------------------------------------------------ *)
(** ** content.js: rect resolution and the reconciliation tick *)

Module Content.
Import JS.

Definition MARGIN : Z := 8.

Record Rect := mkRect {
  left : Q; top : Q; right : Q; bottom : Q; width : Q; height : Q }.

(** A DOM Range as far as the script looks at it. *)
Record Range := mkRange {
  getClientRects : list Rect;
  getBoundingClientRect : Rect }.

(** The object returned by [window.getSelection()]. *)
Record Selection := mkSelection {
  selToString : jsstring;
  isCollapsed : bool;
  selRanges : list Range }.

Definition rangeCount (sel : Selection) : nat := List.length (selRanges sel).

(** What one tick reads from the page.  [getSelection = None] is a null
    selection object; [overlayBlocks = None] is a missing overlay element,
    otherwise the bounding rects of its [.hl] children in document order.
    [boxWidth]/[boxHeight] are the measured size of the popup box. *)
Record Dom := mkDom {
  getSelection : option Selection;
  overlayBlocks : option (list Rect);
  innerWidth : Z;
  innerHeight : Z;
  boxWidth : Q;
  boxHeight : Q }.

Definition Qgtb (a b : Q) : bool := negb (Qle_bool a b).
Definition Qltb (a b : Q) : bool := Qgtb b a.

Definition hasSelection (d : Dom) : bool :=
  match getSelection d with
  | None => false
  | Some sel =>
      if (0 <? List.length (trim (selToString sel)))%nat then true
      else if negb (isCollapsed sel) && (0 <? rangeCount sel)%nat then true
      else match overlayBlocks d with
           | Some (_ :: _) => true
           | _ => false
           end
  end.

(** [for (const r of rects) if (r.bottom > bottomMost.bottom) bottomMost = r] *)
Definition bottomMostFrom (init : Rect) (rects : list Rect) : Rect :=
  fold_left (fun bm r => if Qgtb (bottom r) (bottom bm) then r else bm)
            rects init.

(** The guard [sel && sel.rangeCount > 0 && !sel.isCollapsed] together with
    [sel.getRangeAt(0)]. *)
Definition liveRange (d : Dom) : option Range :=
  match getSelection d with
  | Some sel =>
      match selRanges sel with
      | r0 :: _ => if negb (isCollapsed sel) then Some r0 else None
      | [] => None
      end
  | None => None
  end.

Definition overlayRect (d : Dom) : option Rect :=
  match overlayBlocks d with
  | Some (b0 :: bs) =>
      let bm := bottomMostFrom b0 (b0 :: bs) in
      if Qgtb (width bm) 0 || Qgtb (height bm) 0 then Some bm else None
  | _ => None
  end.

Definition getSelectionRect (d : Dom) : option Rect :=
  match liveRange d with
  | Some range =>
      let rect :=
        match getClientRects range with
        | [] => getBoundingClientRect range
        | r0 :: rs => bottomMostFrom r0 (r0 :: rs)
        end in
      if Qeq_bool (width rect) 0 && Qeq_bool (height rect) 0
      then None else Some rect
  | None => overlayRect d
  end.

Definition rectIntersectsViewport (d : Dom) (rect : Rect) : bool :=
  Qgtb (bottom rect) 0 && Qgtb (right rect) 0
  && Qltb (left rect) (inject_Z (innerWidth d))
  && Qltb (top rect) (inject_Z (innerHeight d)).

Definition clamp (value min max : Q) : Q := Qmax min (Qmin max value).

Inductive Signal := PopupOpen | PopupClose.

Record State := mkState {
  insidePopup : bool;
  lastVisible : bool;
  isMouseDown : bool;
  pinned : bool;
  forceClosed : bool;
  lastSelectionText : jsstring;
  display : bool;              (* box.style.display is 'block' *)
  boxPos : option (Q * Q);     (* box.style.left / box.style.top *)
  dispatched : list Signal }.  (* popup:open / popup:close sent so far *)

Definition set_insidePopup (b : bool) (s : State) : State :=
  mkState b (lastVisible s) (isMouseDown s) (pinned s) (forceClosed s)
          (lastSelectionText s) (display s) (boxPos s) (dispatched s).
Definition set_lastVisible (b : bool) (s : State) : State :=
  mkState (insidePopup s) b (isMouseDown s) (pinned s) (forceClosed s)
          (lastSelectionText s) (display s) (boxPos s) (dispatched s).
Definition set_isMouseDown (b : bool) (s : State) : State :=
  mkState (insidePopup s) (lastVisible s) b (pinned s) (forceClosed s)
          (lastSelectionText s) (display s) (boxPos s) (dispatched s).
Definition set_pinned (b : bool) (s : State) : State :=
  mkState (insidePopup s) (lastVisible s) (isMouseDown s) b (forceClosed s)
          (lastSelectionText s) (display s) (boxPos s) (dispatched s).
Definition set_forceClosed (b : bool) (s : State) : State :=
  mkState (insidePopup s) (lastVisible s) (isMouseDown s) (pinned s) b
          (lastSelectionText s) (display s) (boxPos s) (dispatched s).
Definition set_lastSelectionText (t : jsstring) (s : State) : State :=
  mkState (insidePopup s) (lastVisible s) (isMouseDown s) (pinned s)
          (forceClosed s) t (display s) (boxPos s) (dispatched s).
Definition set_display (b : bool) (s : State) : State :=
  mkState (insidePopup s) (lastVisible s) (isMouseDown s) (pinned s)
          (forceClosed s) (lastSelectionText s) b (boxPos s) (dispatched s).
Definition set_boxPos (p : option (Q * Q)) (s : State) : State :=
  mkState (insidePopup s) (lastVisible s) (isMouseDown s) (pinned s)
          (forceClosed s) (lastSelectionText s) (display s) p (dispatched s).
Definition dispatch (sig : Signal) (v : bool) (s : State) : State :=
  mkState (insidePopup s) v (isMouseDown s) (pinned s)
          (forceClosed s) (lastSelectionText s) (display s) (boxPos s)
          (dispatched s ++ [sig]).

(** State after the script is loaded, before the first [update()]: the box
    is created with [display:none] and no position. *)
Definition initial : State :=
  mkState false false false false false [] false None [].

Definition positionBox (d : Dom) (rect : option Rect) (s : State) : State :=
  match rect with
  | None => s
  | Some r =>
      let desiredTop := toDouble (bottom r + inject_Z MARGIN) in
      let desiredLeft := left r in
      let s1 := set_display true s in
      let maxLeft :=
        toDouble (toDouble (inject_Z (innerWidth d) - boxWidth d)
                  - inject_Z MARGIN) in
      let maxTop :=
        toDouble (toDouble (inject_Z (innerHeight d) - boxHeight d)
                  - inject_Z MARGIN) in
      let clampedLeft :=
        clamp desiredLeft (inject_Z MARGIN) (Qmax (inject_Z MARGIN) maxLeft) in
      let clampedTop :=
        clamp desiredTop (inject_Z MARGIN) (Qmax (inject_Z MARGIN) maxTop) in
      set_boxPos (Some (clampedLeft, clampedTop)) s1
  end.

(** The synthetic rect of the corner fallback. *)
Definition cornerRect (d : Dom) : Rect :=
  {| left := inject_Z MARGIN;
     top := inject_Z (innerHeight d - (MARGIN + 1));
     right := inject_Z (MARGIN + 1);
     bottom := inject_Z (innerHeight d - MARGIN);
     width := 1;
     height := 1 |}.

(** [selVisible] as first computed: the resolved rect exists and is on
    screen. *)
Definition rectVisible (d : Dom) : bool :=
  match getSelectionRect d with
  | Some r => rectIntersectsViewport d r
  | None => false
  end.

Definition anySelectionOrPinned (d : Dom) (s : State) : bool :=
  hasSelection d || pinned s.

(** Lines 266-275 of [update]: the pair [(rect, selVisible)] after the
    corner fallback. *)
Definition resolveAnchor (d : Dom) (s : State) : option Rect * bool :=
  if negb (rectVisible d) && anySelectionOrPinned d s
  then (Some (cornerRect d), true)
  else (getSelectionRect d, rectVisible d).

(** Lines 278-281: the text is read only when [selVisible]; a null
    selection makes the read throw and leaves the empty string. *)
Definition currentSelText (d : Dom) (s : State) : jsstring :=
  if snd (resolveAnchor d s) then
    match getSelection d with
    | Some sel => trim (selToString sel)
    | None => []
    end
  else [].

Definition shouldShowOf (s : State) (selVisible : bool) : bool :=
  negb (forceClosed s)
  && (pinned s || (negb (isMouseDown s) && selVisible) || insidePopup s).

Definition update (d : Dom) (s : State) : State :=
  let '(rect, selVisible) := resolveAnchor d s in
  let cur := currentSelText d s in
  let selectionChanged := negb (eqb cur (lastSelectionText s)) in
  let s1 := set_lastSelectionText cur s in
  let s2 := if selectionChanged then set_forceClosed false s1 else s1 in
  let shouldShow := shouldShowOf s2 selVisible in
  let s3 := if selVisible then positionBox d rect s2 else s2 in
  let s4 :=
    if Bool.eqb shouldShow (lastVisible s3) then s3
    else dispatch (if shouldShow then PopupOpen else PopupClose) shouldShow s3 in
  set_display shouldShow s4.

(** Everything that touches the controller's variables.  A [Tick] is one
    run of [update] from the animation-frame callback, with the page as it
    is at that moment. *)
Inductive Event :=
| Tick (d : Dom)
| PopupPin (detailPinned : bool)
| PopupForceClose
| MouseDown
| MouseUp
| PointerEnter
| PointerLeave.

Definition onForceClose (s : State) : State :=
  let s1 := set_pinned false s in
  let s2 := set_forceClosed true s1 in
  let s3 := set_insidePopup false s2 in
  let s4 := set_lastVisible false s3 in
  set_display false s4.

Definition step (e : Event) (s : State) : State :=
  match e with
  | Tick d => update d s
  | PopupPin p => set_pinned p s
  | PopupForceClose => onForceClose s
  | MouseDown => set_isMouseDown true s
  | MouseUp => set_isMouseDown false s
  | PointerEnter => set_insidePopup true s
  | PointerLeave => set_insidePopup false s
  end.

Definition run (es : list Event) (s : State) : State :=
  fold_left (fun acc e => step e acc) es s.

(** *** Vocabulary of the statements below *)

(** Every tick of the run computes the text that was last observed. *)
Fixpoint textUnchanged (es : list Event) (s : State) : Prop :=
  match es with
  | [] => True
  | e :: es' =>
      match e with
      | Tick d => currentSelText d s = lastSelectionText s
      | _ => True
      end
      /\ textUnchanged es' (step e s)
  end.

(** [bm] is the first rect of [rects] whose [bottom] is maximal. *)
Definition FirstBottomMost (rects : list Rect) (bm : Rect) : Prop :=
  exists pre post,
    rects = pre ++ bm :: post
    /\ (forall r, In r pre -> (bottom r < bottom bm)%Q)
    /\ (forall r, In r post -> (bottom r <= bottom bm)%Q).

Definition isEmptyRect (r : Rect) : bool :=
  Qeq_bool (width r) 0 && Qeq_bool (height r) 0.

(** The resolver as the specification words it (section 4.1): the live rect
    is the bottom-most client rect of the first range of a non-collapsed
    selection unless it is empty; without a usable live rect the bottom-most
    highlight block is taken; otherwise there is no rect. *)
Definition specLiveRect (d : Dom) : option Rect :=
  match liveRange d with
  | Some range =>
      match getClientRects range with
      | r0 :: rs =>
          let bm := bottomMostFrom r0 (r0 :: rs) in
          if isEmptyRect bm then None else Some bm
      | [] => None
      end
  | None => None
  end.

Definition specAnchorRect (d : Dom) : option Rect :=
  match specLiveRect d with
  | Some r => Some r
  | None =>
      match overlayBlocks d with
      | Some (b0 :: bs) => Some (bottomMostFrom b0 (b0 :: bs))
      | _ => None
      end
  end.

(** The corner rect as the specification words it: 1x1, in the bottom-left
    corner of the viewport, one pixel away from both edges. *)
Definition specCornerRect (d : Dom) : Rect :=
  {| left := 1;
     top := inject_Z (innerHeight d - 2);
     right := 2;
     bottom := inject_Z (innerHeight d - 1);
     width := 1;
     height := 1 |}.

End Content.

(* ------------------------------------------------------------------ *)
(** ** ContentPopup.jsx: rate limits, streaming and conversation history *)

Module Popup.
Import JS.

Definition RATE_LIMIT : nat := 5.
Definition RATE_WINDOW_MS : Z := 60000.

Definition nl : jsstring := [10%N].

(** *** prompt/prompt.jsx *)

Definition Prompt (selectedText url heading paragraph : jsstring) : jsstring :=
  List.concat
    [ js "You are an assistant that explains text simply and clearly."; nl;
      nl;
      js "   The user has selected the following text on a web page: "; selectedText; nl;
      js "   "; nl;
      js "   Here is the paragraph containing that text: "; paragraph; nl;
      js "   "; nl;
      js "   The page title (h1) is: "; heading; nl;
      js "   "; nl;
      js "   The page URL is: "; url; nl;
      js "   "; nl;
      js "  Task:"; nl;
      js "   1. Explain what the selected text is and how it works or is used."; nl;
      js "   2. Do not mention the surrounding context, title, or source directly."; nl;
      js "   3. Adapt the explanation depending on the type of selection:"; nl;
      js "      - Person"; [8217%N]; js "s name "; [8594%N]; js " explain their main contribution or role (not a full biography)."; nl;
      js "      - Equation or formula "; [8594%N]; js " explain what the symbols mean and what the equation does."; nl;
      js "      - Term, definition, or jargon "; [8594%N]; js " explain the concept and how it works, with a simple example or analogy if helpful."; nl;
      js "      - General phrase or sentence "; [8594%N]; js " rephrase in simpler terms and clarify its meaning."; nl;
      js "   4. Keep the explanation clear and informative, focusing on function or meaning rather than history."; nl;
      js "   5. Limit the explanation to about 2 sentences."; nl;
      js "   " ].

Definition SearchPrompt (selectedText question url heading paragraph : jsstring) : jsstring :=
  List.concat
    [ nl;
      js "   "; nl;
      js "   You are an assistant that answers questions simply and clearly."; nl;
      nl;
      js "   The user has selected the following text on a web page:"; nl;
      js "   "; selectedText; nl;
      js "   "; nl;
      js "   Here is the paragraph containing that text:"; nl;
      js "   "; paragraph; nl;
      js "   "; nl;
      js "   The page title (h1) is:"; nl;
      js "   "; heading; nl;
      js "   "; nl;
      js "   The page URL is:"; nl;
      js "   "; url; nl;
      js "   "; nl;
      js "   The user asks this question about the selected text:"; nl;
      js "   "; question; nl;
      nl;
      js "   Task:"; nl;
      js "   1. Answer the user"; [8217%N]; js "s question directly and clearly."; nl;
      js "   2. Use the provided context to guide your answer, but never mention the context or source explicitly."; nl;
      js "   3. Keep the answer informative and accurate:"; nl;
      js "      - If the question is about a person "; [8594%N]; js " focus on their role or contribution."; nl;
      js "      - If about an equation or formula "; [8594%N]; js " explain the parts and what it does."; nl;
      js "      - If about a term or concept "; [8594%N]; js " define it and explain how it works, with a simple example if helpful."; nl;
      js "      - If about a phrase or sentence "; [8594%N]; js " clarify its meaning or usage."; nl;
      js "   4. Avoid unnecessary history or unrelated details unless essential to the answer."; nl;
      js "   5. Keep the explanation concise but complete (2"; [8211%N]; js "4 sentences)."; nl;
      js "   " ].

Definition buildPrompt (selection heading url context : jsstring) : jsstring :=
  Prompt selection url heading context.

Inductive Role := User | Assistant.

Record Entry := mkEntry { role : Role; content : jsstring }.

Record Context := mkContext {
  ctxSelection : jsstring;
  ctxParagraph : jsstring;
  ctxHeading : jsstring;
  ctxUrl : jsstring }.

(** The prompt handed to [callGemini].  [DeeperPrompt] serialises its
    history and context arguments with [JSON.stringify]; the serialised
    text is not needed below, so a deeper prompt is kept as the three
    arguments [DeeperPrompt] was applied to. *)
Inductive PromptText :=
| Text (prompt : jsstring)
| DeeperPrompt (history : list Entry) (question : jsstring)
               (context : list Context).

(** *** The formatting rule [next.replace(/\.\s{2,}/g, '.\n\n')]

    A global replace scans left to right; at a period followed by at least
    two white-space characters the match takes the period and the whole
    white-space run (the quantifier is greedy) and the scan resumes behind
    it.  [inMatch] is true while the scan is still inside the white-space
    run of a match whose replacement has been emitted. *)
Definition startsWithTwoWhiteSpace (s : jsstring) : bool :=
  match s with
  | a :: b :: _ => isWhiteSpace a && isWhiteSpace b
  | _ => false
  end.

Fixpoint replaceFrom (inMatch : bool) (s : jsstring) : jsstring :=
  match s with
  | [] => []
  | c :: s' =>
      if inMatch && isWhiteSpace c then replaceFrom true s'
      else if (c =? 46)%N && startsWithTwoWhiteSpace s'
           then 46%N :: 10%N :: 10%N :: replaceFrom true s'
           else c :: replaceFrom false s'
  end.

Definition normalize (s : jsstring) : jsstring := replaceFrom false s.

(** *** The test [/\b429\b|Too\s*Many\s*Requests/i] *)

Definition isWordChar (c : N) : bool :=
  ((48 <=? c) && (c <=? 57) || (65 <=? c) && (c <=? 90)
   || (97 <=? c) && (c <=? 122) || (c =? 95))%N.

(** Canonicalisation of the [i] flag without the [u] flag: ASCII letters
    are upper-cased, and no code unit above 127 is mapped into ASCII. *)
Definition canonicalize (c : N) : N :=
  if ((97 <=? c) && (c <=? 122))%N then (c - 32)%N else c.

Fixpoint matchLiteral (pat s : jsstring) : option jsstring :=
  match pat with
  | [] => Some s
  | p :: pat' =>
      match s with
      | c :: s' =>
          if (canonicalize c =? canonicalize p)%N then matchLiteral pat' s'
          else None
      | [] => None
      end
  end.

(** [\b429\b] at the current position; [prev] is the code unit before it. *)
Definition match429 (prev : option N) (s : jsstring) : bool :=
  match matchLiteral (js "429") s with
  | Some rest =>
      negb (match prev with Some p => isWordChar p | None => false end)
      && negb (match rest with c :: _ => isWordChar c | [] => false end)
  | None => false
  end.

(** [Too\s*Many\s*Requests] at the current position.  The literal after
    each [\s*] starts with a letter, so taking the whole white-space run
    loses no match. *)
Definition matchTooManyRequests (s : jsstring) : bool :=
  match matchLiteral (js "Too") s with
  | Some r1 =>
      match matchLiteral (js "Many") (trimStart r1) with
      | Some r2 =>
          match matchLiteral (js "Requests") (trimStart r2) with
          | Some _ => true
          | None => false
          end
      | None => false
      end
  | None => false
  end.

Fixpoint testFrom (prev : option N) (s : jsstring) : bool :=
  match429 prev s || matchTooManyRequests s
  || match s with
     | [] => false
     | c :: s' => testFrom (Some c) s'
     end.

Definition is429 (message : jsstring) : bool := testFrom None message.

(** *** Component state

    The React state and the refs that the request logic reads or writes.
    A state field holds the value its setter calls have produced so far;
    [renderedResponse] is [response] as of the last committed render, which
    is what the effect of lines 199-201 compares against, and [responseRef]
    is the ref that effect fills.  Left out are [debug], the two
    placeholders, and [limitShown] with the two guards of the limit message
    ([limitActionLockRef], [hasShownLimitRef]): these three only decide
    whether [showLimitReachedOnce] is called. *)

Record State := mkState {
  selectedText : jsstring;
  loading : bool;
  error : jsstring;
  response : jsstring;
  history : list Entry;               (* historyRef.current once rendered *)
  contexts : list Context;            (* contextsRef.current once rendered *)
  questionInput : jsstring;
  deeperInput : jsstring;
  originalSelection : jsstring;
  limitReached : Z;
  requestTimes : list Z;              (* requestTimesRef.current *)
  appendedOnce : bool;                (* appendedOnceRef.current *)
  requests : list PromptText;         (* prompts given to callGeminiStream *)
  responseRef : jsstring;             (* responseRef.current *)
  renderedResponse : jsstring }.      (* response at the last render *)

Definition set_selectedText (v : jsstring) (s : State) : State :=
  mkState v (loading s) (error s) (response s) (history s) (contexts s)
          (questionInput s) (deeperInput s) (originalSelection s)
          (limitReached s) (requestTimes s) (appendedOnce s) (requests s)
          (responseRef s) (renderedResponse s).
Definition set_loading (v : bool) (s : State) : State :=
  mkState (selectedText s) v (error s) (response s) (history s) (contexts s)
          (questionInput s) (deeperInput s) (originalSelection s)
          (limitReached s) (requestTimes s) (appendedOnce s) (requests s)
          (responseRef s) (renderedResponse s).
Definition set_error (v : jsstring) (s : State) : State :=
  mkState (selectedText s) (loading s) v (response s) (history s)
          (contexts s) (questionInput s) (deeperInput s)
          (originalSelection s) (limitReached s) (requestTimes s)
          (appendedOnce s) (requests s) (responseRef s) (renderedResponse s).
Definition set_response (v : jsstring) (s : State) : State :=
  mkState (selectedText s) (loading s) (error s) v (history s) (contexts s)
          (questionInput s) (deeperInput s) (originalSelection s)
          (limitReached s) (requestTimes s) (appendedOnce s) (requests s)
          (responseRef s) (renderedResponse s).
Definition set_history (v : list Entry) (s : State) : State :=
  mkState (selectedText s) (loading s) (error s) (response s) v (contexts s)
          (questionInput s) (deeperInput s) (originalSelection s)
          (limitReached s) (requestTimes s) (appendedOnce s) (requests s)
          (responseRef s) (renderedResponse s).
Definition set_contexts (v : list Context) (s : State) : State :=
  mkState (selectedText s) (loading s) (error s) (response s) (history s) v
          (questionInput s) (deeperInput s) (originalSelection s)
          (limitReached s) (requestTimes s) (appendedOnce s) (requests s)
          (responseRef s) (renderedResponse s).
Definition set_questionInput (v : jsstring) (s : State) : State :=
  mkState (selectedText s) (loading s) (error s) (response s) (history s)
          (contexts s) v (deeperInput s) (originalSelection s)
          (limitReached s) (requestTimes s) (appendedOnce s) (requests s)
          (responseRef s) (renderedResponse s).
Definition set_deeperInput (v : jsstring) (s : State) : State :=
  mkState (selectedText s) (loading s) (error s) (response s) (history s)
          (contexts s) (questionInput s) v (originalSelection s)
          (limitReached s) (requestTimes s) (appendedOnce s) (requests s)
          (responseRef s) (renderedResponse s).
Definition set_originalSelection (v : jsstring) (s : State) : State :=
  mkState (selectedText s) (loading s) (error s) (response s) (history s)
          (contexts s) (questionInput s) (deeperInput s) v (limitReached s)
          (requestTimes s) (appendedOnce s) (requests s) (responseRef s)
          (renderedResponse s).
Definition set_limitReached (v : Z) (s : State) : State :=
  mkState (selectedText s) (loading s) (error s) (response s) (history s)
          (contexts s) (questionInput s) (deeperInput s)
          (originalSelection s) v (requestTimes s) (appendedOnce s)
          (requests s) (responseRef s) (renderedResponse s).
Definition set_requestTimes (v : list Z) (s : State) : State :=
  mkState (selectedText s) (loading s) (error s) (response s) (history s)
          (contexts s) (questionInput s) (deeperInput s)
          (originalSelection s) (limitReached s) v (appendedOnce s)
          (requests s) (responseRef s) (renderedResponse s).
Definition set_appendedOnce (v : bool) (s : State) : State :=
  mkState (selectedText s) (loading s) (error s) (response s) (history s)
          (contexts s) (questionInput s) (deeperInput s)
          (originalSelection s) (limitReached s) (requestTimes s) v
          (requests s) (responseRef s) (renderedResponse s).
Definition set_requests (v : list PromptText) (s : State) : State :=
  mkState (selectedText s) (loading s) (error s) (response s) (history s)
          (contexts s) (questionInput s) (deeperInput s)
          (originalSelection s) (limitReached s) (requestTimes s)
          (appendedOnce s) v (responseRef s) (renderedResponse s).
Definition set_responseRef (v : jsstring) (s : State) : State :=
  mkState (selectedText s) (loading s) (error s) (response s) (history s)
          (contexts s) (questionInput s) (deeperInput s)
          (originalSelection s) (limitReached s) (requestTimes s)
          (appendedOnce s) (requests s) v (renderedResponse s).
Definition set_renderedResponse (v : jsstring) (s : State) : State :=
  mkState (selectedText s) (loading s) (error s) (response s) (history s)
          (contexts s) (questionInput s) (deeperInput s)
          (originalSelection s) (limitReached s) (requestTimes s)
          (appendedOnce s) (requests s) (responseRef s) v.

Definition initial : State :=
  mkState [] false [] [] [] [] [] [] [] 0 [] false [] [] [].

(** [resetState] empties [responseRef.current] itself (line 192); what the
    last render showed is not its business. *)
Definition resetState (s : State) : State :=
  mkState [] false [] [] [] [] [] [] [] 0 (requestTimes s) false (requests s)
          [] (renderedResponse s).

(** One committed render with its effects.  Of the effects only
    [useEffect(() => { responseRef.current = response }, [response])]
    touches the state modelled here; it runs when [response] is not the
    value of the previous render. *)
Definition render (s : State) : State :=
  if eqb (response s) (renderedResponse s) then s
  else set_renderedResponse (response s) (set_responseRef (response s) s).

(** *** The client-side gate *)

Definition recentOf (now : Z) (times : list Z) : list Z :=
  filter (fun t => now - RATE_WINDOW_MS <? t) times.

(** [Math.min(...recent)]; the gate calls it only on a list of at least
    [RATE_LIMIT] entries. *)
Definition Math_min (l : list Z) : Z :=
  match l with
  | [] => 0
  | t :: ts => fold_left Z.min ts t
  end.

(** [Math.ceil(x / 1000)] for an integer [x]. *)
Definition ceilDiv1000 (x : Z) : Z := - ((- x) / 1000).

Definition remainingSecOf (now : Z) (recent : list Z) : Z :=
  Z.max 1 (ceilDiv1000 (Math_min recent + RATE_WINDOW_MS - now)).

Definition rateLimitMessage (remainingSec : Z) : jsstring :=
  js "Rate limit reached. Try again in " ++ numberToString remainingSec
  ++ js "s".

Inductive Gate :=
| Rejected (remainingSec : Z)
| Passed (recent : list Z).

Definition rateGate (now : Z) (times : list Z) : Gate :=
  let recent := recentOf now times in
  if (RATE_LIMIT <=? List.length recent)%nat
  then Rejected (remainingSecOf now recent)
  else Passed (recent ++ [now]).

(** The rejection branch shared by the three submit handlers. *)
Definition rejectSubmission (remainingSec : Z) (s : State) : State :=
  set_response (rateLimitMessage remainingSec) (set_error [] s).

(** *** callGemini and its callbacks *)

(** The synchronous head of [callGemini]: the state is cleared and the
    prompt goes to [callGeminiStream]. *)
Definition callGemini (prompt : PromptText) (s : State) : State :=
  let s1 := set_loading true s in
  let s2 := set_error [] s1 in
  let s3 := set_response [] s2 in
  let s4 := set_appendedOnce false s3 in
  set_requests (requests s4 ++ [prompt]) s4.

(** What the page gives a submit handler: the selection text
    ([None]: no selection object), and the url, heading and context slice
    the handler derives for its prompt. *)
Record Page := mkPage {
  pageSelection : option jsstring;
  pageUrl : jsstring;
  pageHeading : jsstring;
  pageContext : jsstring }.

(** [sel ? sel.toString().trim() : ''] *)
Definition explainText (pg : Page) : jsstring :=
  match pageSelection pg with
  | Some t => trim t
  | None => []
  end.

Definition handleExplainClick (now : Z) (pg : Page) (s : State) : State :=
  let text := explainText pg in
  if negb (truthy text) then
    set_response []
      (set_error (js "Please select some text to explain.")
         (set_selectedText [] s))
  else
    match rateGate now (requestTimes s) with
    | Rejected remainingSec => rejectSubmission remainingSec s
    | Passed recent =>
        let s1 := set_requestTimes recent s in
        let s2 := set_selectedText text s1 in
        let prompt :=
          buildPrompt text (pageHeading pg) (pageUrl pg) (pageContext pg) in
        let s3 := set_history (history s2 ++ [mkEntry User prompt]) s2 in
        let s4 :=
          set_contexts
            [mkContext text (pageContext pg) (pageHeading pg) (pageUrl pg)]
            s3 in
        callGemini (Text prompt) s4
    end.

Definition handleTopSearchSubmit (now : Z) (value : jsstring) (pg : Page)
    (s : State) : State :=
  let val := trim value in
  if negb (truthy val) then s
  else
    match rateGate now (requestTimes s) with
    | Rejected remainingSec => rejectSubmission remainingSec s
    | Passed recent =>
        let s1 := set_requestTimes recent s in
        let s2 := set_questionInput val s1 in
        let prompt :=
          SearchPrompt (originalSelection s) val (pageUrl pg)
                       (pageHeading pg) (pageContext pg) in
        let s3 := set_history (history s2 ++ [mkEntry User prompt]) s2 in
        let s4 :=
          set_contexts
            [mkContext (originalSelection s) (pageContext pg)
                       (pageHeading pg) (pageUrl pg)]
            s3 in
        callGemini (Text prompt) s4
    end.

Definition handleDeeperSubmit (now : Z) (query : jsstring) (s : State)
    : State :=
  let val := trim query in
  if negb (truthy val) then s
  else
    match rateGate now (requestTimes s) with
    | Rejected remainingSec => rejectSubmission remainingSec s
    | Passed recent =>
        let s1 := set_requestTimes recent s in
        let s2 := set_deeperInput val s1 in
        let s3 := set_history (history s2 ++ [mkEntry User val]) s2 in
        (* historyRef/contextsRef still hold the values of the last
           render, from before this handler ran *)
        let prompt := DeeperPrompt (history s) val (contexts s) in
        callGemini prompt s3
    end.

(** [onToken]: the functional update of [response]. *)
Definition onToken (t : jsstring) (s : State) : State :=
  let prev := response s in
  let next := if truthy prev then prev ++ t else t in
  set_response (normalize next) s.

(** The answer of [getGeminiLimitStatus]; on any failure the client
    returns [limit = false] and [secondsRemaining = 0].  The two numbers
    are whole seconds and milliseconds. *)
Record LimitStatus := mkLimitStatus {
  limit : bool;
  secondsRemaining : Z;
  windowMs : Z }.

(** [setLimitReached(status.limit ? (Number(status.secondsRemaining || 0) || 1) : 0)] *)
Definition refreshLimit (status : LimitStatus) (s : State) : State :=
  set_limitReached
    (if limit status
     then (if secondsRemaining status =? 0 then 1 else secondsRemaining status)
     else 0)
    s.

(** [if (finalText && !appendedOnceRef.current) { ... }] *)
Definition appendAssistantOnce (finalText : jsstring) (s : State) : State :=
  if truthy finalText && negb (appendedOnce s) then
    let s1 := set_appendedOnce true s in
    set_history (history s1 ++ [mkEntry Assistant finalText]) s1
  else s.

(** [onDone]: the final text is read from [responseRef.current], that is
    from the response of the last render, not from the pending updates of
    [onToken].  [status] is the answer of the limit service that the
    callback then waits for; it only sets [limitReached]. *)
Definition onDone (status : LimitStatus) (s : State) : State :=
  let s1 := set_loading false s in
  let finalText := trim (responseRef s1) in
  let s2 := appendAssistantOnce finalText s1 in
  refreshLimit status s2.

Definition tooManyRequestsMessage (n : Z) : jsstring :=
  js "Too many requests, please try again in " ++ numberToString n
  ++ js " seconds.".

(** [seconds || 60] *)
Definition secondsOr60 (status : LimitStatus) : Z :=
  if secondsRemaining status =? 0 then 60 else secondsRemaining status.

(** The branch taken at each of the three places that test a failure
    message for the 429 pattern. *)
Definition showRateLimited (status : LimitStatus) (s : State) : State :=
  let s1 := set_response (tooManyRequestsMessage (secondsOr60 status)) s in
  let s2 := if negb (appendedOnce s1) then set_appendedOnce true s1 else s1 in
  set_limitReached (secondsOr60 status) s2.

(** Outcome of the non-streaming retry [callGeminiAPI]. *)
Inductive Fallback :=
| FallbackText (out : jsstring)
| FallbackError (message : jsstring).

Definition firstTruthy (a b c : jsstring) : jsstring :=
  if truthy a then a else if truthy b then b else c.

(** [onError(err)]; [fb] is what the retry gives if it is made and
    [status] what the limit service answers when it is asked. *)
Definition onError (message : jsstring) (fb : Fallback)
    (status : LimitStatus) (s : State) : State :=
  if is429 message then set_loading false (showRateLimited status s)
  else
    match fb with
    | FallbackText out =>
        let normalized :=
          normalize (if truthy out then out else js "(No response)") in
        let s1 := set_response normalized s in
        let s2 := appendAssistantOnce (trim normalized) s1 in
        set_loading false (refreshLimit status s2)
    | FallbackError message2 =>
        set_loading false
          (if is429 message2 then showRateLimited status s
           else set_error
                  (firstTruthy message message2
                     (js "Failed to call Gemini service")) s)
    end.

(** The [catch] around [callGeminiStream] in [callGemini]. *)
Definition onCatch (message : jsstring) (status : LimitStatus) (s : State)
    : State :=
  set_loading false
    (if is429 message then showRateLimited status s
     else set_error
            (if truthy message then message
             else js "Failed to call Gemini service") s).

(** One firing of the one-second interval, which exists only while
    [limitReached > 0]. *)
Definition limitTick (s : State) : State :=
  if 0 <? limitReached s then
    let next := limitReached s - 1 in
    set_limitReached (if 0 <? next then next else 0) s
  else s.

(** [showLimitReachedOnce] behind its lock, with the answer of the limit
    service: [secs] is [secondsRemaining], or the window length in seconds
    when that is 0 (a window of 0 counts as 60000 ms), and the message and
    the counter take [secs || 60].  The [catch] branch of the function is
    not reachable, since [getGeminiLimitStatus] never throws. *)
Definition secs (status : LimitStatus) : Z :=
  if secondsRemaining status =? 0
  then ceilDiv1000 (if windowMs status =? 0 then 60000 else windowMs status)
  else secondsRemaining status.

Definition showLimitReachedOnce (status : LimitStatus) (s : State) : State :=
  let n := if secs status =? 0 then 60 else secs status in
  set_limitReached n (set_response (tooManyRequestsMessage n) s).

(** [captureSelectionRange]: only a selection with non-empty trimmed text
    replaces the stored one. *)
Definition captureSelectionRange (selectionText : jsstring) (s : State)
    : State :=
  if truthy (trim selectionText)
  then set_originalSelection (trim selectionText) s else s.

(** ResponseSection.jsx *)
Definition visibleHistory (h : list Entry) : list Entry :=
  match h with
  | [] => []
  | _ :: rest => rest
  end.

(** The transient rate-limit bubble of ResponseSection.jsx (lines 203-208):
    the response section is mounted while [response || error || loading],
    and the bubble under the transcript is there while nothing is loading
    and the counter is at least 1; its text is rebuilt from the counter. *)
Definition limitBubble (s : State) : option jsstring :=
  if (truthy (response s) || truthy (error s) || loading s)
     && negb (loading s) && (1 <=? limitReached s)
  then Some (tooManyRequestsMessage (Z.max 0 (limitReached s)))
  else None.

(** Enter in the deeper search bar of ResponseSection.jsx.  While the
    counter is at least 1 the key press is swallowed and the bar shakes;
    the first such press also calls [onLimitAction], which is
    [showLimitReachedOnce].  [limitShown] is the prop of that name and
    [hasShownLimit] is [hasShownLimitRef.current]. *)
Inductive DeeperAction :=
| LimitBlocked (callsLimitAction : bool)
| CallDeeperSubmit (q : jsstring)
| NoAction.

Definition deeperEnter (value : jsstring) (limitShown hasShownLimit : bool)
    (s : State) : DeeperAction :=
  if 1 <=? limitReached s
  then LimitBlocked (negb limitShown && negb hasShownLimit)
  else if truthy (trim value) then CallDeeperSubmit (trim value)
       else NoAction.

(** Everything that changes the component state modelled here.  [Reset]
    is [resetState], run by the popup:open and popup:close listeners and by
    the close button; [OpenStatus] is the limit status that the popup:open
    listener asked for (lines 244-249); [LimitAction] is
    [showLimitReachedOnce] getting its answer; [TtsError] is the error sink
    handed to [useTTS] (line 219); [Render] is a committed render. *)
Inductive Op :=
| ExplainClick (now : Z) (pg : Page)
| TopSearchSubmit (now : Z) (value : jsstring) (pg : Page)
| DeeperSubmit (now : Z) (query : jsstring)
| Token (t : jsstring)
| Done (status : LimitStatus)
| StreamError (message : jsstring) (fb : Fallback) (status : LimitStatus)
| Caught (message : jsstring) (status : LimitStatus)
| LimitTick
| CaptureSelection (selectionText : jsstring)
| Reset
| OpenStatus (status : LimitStatus)
| LimitAction (status : LimitStatus)
| TtsError (msg : jsstring)
| Render.

Definition step (op : Op) (s : State) : State :=
  match op with
  | ExplainClick now pg => handleExplainClick now pg s
  | TopSearchSubmit now value pg => handleTopSearchSubmit now value pg s
  | DeeperSubmit now query => handleDeeperSubmit now query s
  | Token t => onToken t s
  | Done status => onDone status s
  | StreamError message fb status => onError message fb status s
  | Caught message status => onCatch message status s
  | LimitTick => limitTick s
  | CaptureSelection t => captureSelectionRange t s
  | Reset => resetState s
  | OpenStatus status => refreshLimit status s
  | LimitAction status => showLimitReachedOnce status s
  | TtsError msg => set_error msg s
  | Render => render s
  end.

Definition run (ops : list Op) (s : State) : State :=
  fold_left (fun acc op => step op acc) ops s.

(** *** Vocabulary of the statements below *)

(** A submission is a submit handler called with non-empty input: it is
    what reaches the rate-limit gate. *)
Definition isSubmission (op : Op) : bool :=
  match op with
  | ExplainClick _ pg => truthy (explainText pg)
  | TopSearchSubmit _ value _ => truthy (trim value)
  | DeeperSubmit _ query => truthy (trim query)
  | _ => false
  end.

Definition submissionTime (op : Op) : Z :=
  match op with
  | ExplainClick now _ | TopSearchSubmit now _ _ | DeeperSubmit now _ => now
  | _ => 0
  end.

(** The callbacks of one request in flight, and the events that start no
    request and reset nothing. *)
Definition isRequestEvent (op : Op) : bool :=
  match op with
  | Token _ | Done _ | StreamError _ _ _ | Caught _ _
  | LimitTick | CaptureSelection _
  | OpenStatus _ | LimitAction _ | TtsError _ | Render => true
  | _ => false
  end.

Definition isConstructedPrompt (c : jsstring) : Prop :=
  (exists selection url heading context,
      c = Prompt selection url heading context)
  \/ (exists selection question url heading context,
         c = SearchPrompt selection question url heading context).

(** The shape the specification gives the history (section 3): its first
    entry is a user entry holding a constructed prompt. *)
Definition firstEntryIsPrompt (h : list Entry) : Prop :=
  match h with
  | [] => True
  | e :: _ => role e = User /\ isConstructedPrompt (content e)
  end.

(** What one request has done to the history [h0] it started from: nothing,
    or one assistant entry, and then the flag is set. *)
Definition atMostOneAnswer (h0 : list Entry) (s : State) : Prop :=
  history s = h0
  \/ (appendedOnce s = true
      /\ exists text, history s = h0 ++ [mkEntry Assistant text]).

End Popup.

(* ------------------------------------------------------------------ *)
(** ** Concrete pages and states used in the examples *)

Module Scenario.
Import JS Content.

Definition liveSelectionExample : Selection :=
  mkSelection (js "two lines") false
    [mkRange [mkRect 10 10 200 30 190 20; mkRect 10 30 120 50 110 20]
             (mkRect 10 10 200 50 190 40)].

Definition liveDomExample : Dom :=
  mkDom (Some liveSelectionExample) None 800 600 200 40.

(** A non-collapsed live selection whose only client rect is empty, over an
    overlay with one highlight block. *)
Definition hiddenLiveDom : Dom :=
  mkDom (Some (mkSelection (js "abc") false
                 [mkRange [mkRect 10 10 10 10 0 0] (mkRect 10 10 10 10 0 0)]))
        (Some [mkRect 10 20 110 40 100 20])
        800 600 200 40.

(** A non-collapsed selection inside an element that is not rendered: no
    client rects and an all-zero bounding rect. *)
Definition unrenderedDom : Dom :=
  mkDom (Some (mkSelection (js "abc") false [mkRange [] (mkRect 0 0 0 0 0 0)]))
        None 800 600 200 40.

(** A collapsed live selection over an overlay of two highlight blocks. *)
Definition overlayDom : Dom :=
  mkDom (Some (mkSelection [] true []))
        (Some [mkRect 10 20 110 40 100 20; mkRect 10 40 60 60 50 20])
        800 600 200 40.

(** Nothing selected, nothing on the overlay, an 800x600 viewport. *)
Definition emptyDom : Dom := mkDom None None 800 600 200 40.

Definition pinnedState : State := set_pinned true initial.

(** One line of text selected and on screen. *)
Definition selectedDom (text : string) : Dom :=
  mkDom (Some (mkSelection (js text) false
                 [mkRange [mkRect 10 10 200 30 190 20]
                          (mkRect 10 10 200 30 190 20)]))
        None 800 600 200 40.

(** "abc" has been selected and observed by a tick, then the popup was
    force-closed. *)
Definition observedAbc : State := update (selectedDom "abc") initial.

Definition closedOnAbc : State := step PopupForceClose observedAbc.

(** The page of the Explain scenario and a page whose selection is blank. *)
Definition relativityPage : Popup.Page :=
  Popup.mkPage (Some (js "E=mc2")) (js "https://example.com")
               (js "Relativity") (js "Einstein wrote E=mc2 in 1905.").

Definition blankSelectionPage : Popup.Page :=
  Popup.mkPage (Some (js "  ")) (js "https://example.com")
               (js "Relativity") [].

(** Five submissions already recorded, one per second from time 0. *)
Definition fiveRecorded : Popup.State :=
  Popup.set_requestTimes [0; 1000; 2000; 3000; 4000] Popup.initial.

Definition limited42 : Popup.LimitStatus := Popup.mkLimitStatus true 42 60000.

End Scenario.

(* ------------------------------------------------------------------ *)
(** ** content.js: lifecycle signals and the animation-frame scheduler *)

Module Lifecycle.
Import JS Content.

(** The signals sent so far alternate, starting with [popup:open]; the
    boolean tells whether the last one was [popup:open]. *)
Inductive Alternating : list Signal -> bool -> Prop :=
| alt_nil : Alternating [] false
| alt_open (l : list Signal) :
    Alternating l false -> Alternating (l ++ [PopupOpen]) true
| alt_close (l : list Signal) :
    Alternating l true -> Alternating (l ++ [PopupClose]) false.

Definition isForceClose (e : Event) : bool :=
  match e with
  | PopupForceClose => true
  | _ => false
  end.

End Lifecycle.

Module Scheduler.
Import JS Content.

(** The controller together with [rafId] and the callbacks that wait for the
    next animation frame. *)
Record Sched := mkSched {
  ctl : State;
  rafId : Z;
  frameQueue : nat }.

(** [scheduleUpdate]; [id] is the handle [requestAnimationFrame] returns,
    a non-zero integer. *)
Definition scheduleUpdate (id : positive) (s : Sched) : Sched :=
  if negb (rafId s =? 0) then s
  else mkSched (ctl s) (Zpos id) (S (frameQueue s)).

(** The queued callback: [rafId = 0; try { update() } catch {}]. *)
Definition frameCallback (d : Dom) (s : Sched) : Sched :=
  mkSched (update d (ctl s)) 0 (frameQueue s).

(** What reaches the script: the listeners of lines 88-111 and 326-340, the
    pointer listeners of the box, and the animation frame itself.  [Notify]
    stands for the listeners that only call [scheduleUpdate]
    (selectionchange, keyup, scroll, wheel, touchmove, resize, the 20 ms
    timer of mouseup and the ResizeObserver of the box). *)
Inductive Input :=
| Notify (id : positive)
| InMouseDown (id : positive)
| InMouseUp (id : positive)
| InPin (detailPinned : bool) (id : positive)
| InForceClose (id : positive)
| InPointerEnter
| InPointerLeave
| Frame (d : Dom).

Definition handle (e : Event) (id : positive) (s : Sched) : Sched :=
  scheduleUpdate id (mkSched (step e (ctl s)) (rafId s) (frameQueue s)).

Definition input (i : Input) (s : Sched) : Sched :=
  match i with
  | Notify id => scheduleUpdate id s
  | InMouseDown id => handle MouseDown id s
  | InMouseUp id => handle MouseUp id s
  | InPin p id => handle (PopupPin p) id s
  | InForceClose id => handle PopupForceClose id s
  | InPointerEnter => mkSched (step PointerEnter (ctl s)) (rafId s) (frameQueue s)
  | InPointerLeave => mkSched (step PointerLeave (ctl s)) (rafId s) (frameQueue s)
  | Frame d =>
      let s' := Nat.iter (frameQueue s) (frameCallback d) s in
      mkSched (ctl s') (rafId s') 0
  end.

Definition inputs (l : list Input) (s : Sched) : Sched :=
  fold_left (fun acc i => input i acc) l s.

Definition isFrame (i : Input) : bool :=
  match i with Frame _ => true | _ => false end.

Definition schedules (i : Input) : bool :=
  match i with
  | Notify _ | InMouseDown _ | InMouseUp _ | InPin _ _ | InForceClose _ => true
  | _ => false
  end.

(** The controller event an input stands for, if any. *)
Definition eventOf (i : Input) : list Event :=
  match i with
  | Notify _ => []
  | InMouseDown _ => [MouseDown]
  | InMouseUp _ => [MouseUp]
  | InPin p _ => [PopupPin p]
  | InForceClose _ => [PopupForceClose]
  | InPointerEnter => [PointerEnter]
  | InPointerLeave => [PointerLeave]
  | Frame d => [Tick d]
  end.

(** Nothing is scheduled and no callback waits. *)
Definition idle (s : Sched) : Prop := rafId s = 0 /\ frameQueue s = 0%nat.

(** At most one callback waits, and it waits exactly while [rafId] is set. *)
Definition queueMatchesRafId (s : Sched) : Prop :=
  frameQueue s = if rafId s =? 0 then 0%nat else 1%nat.

End Scheduler.

(* ------------------------------------------------------------------ *)
(** ** ContentPopup.jsx: further vocabulary *)

Module PopupFacts.
Import JS Popup.

Definition isSubmitHandler (op : Op) : bool :=
  match op with
  | ExplainClick _ _ | TopSearchSubmit _ _ _ | DeeperSubmit _ _ => true
  | _ => false
  end.

(** The stored request times: at most [RATE_LIMIT] of them, each younger
    than [RATE_WINDOW_MS] at the time of the last one. *)
Definition windowKept (times : list Z) : Prop :=
  (List.length times <= RATE_LIMIT)%nat
  /\ forall t, In t times -> last times 0 - RATE_WINDOW_MS < t.

(** What a stream does to the response before it completes: tokens, with
    renders in between; and the tokens among such operations. *)
Definition isTokenOrRender (op : Op) : bool :=
  match op with
  | Token _ | Render => true
  | _ => false
  end.

Fixpoint tokensOf (ops : list Op) : list jsstring :=
  match ops with
  | [] => []
  | Token t :: rest => t :: tokensOf rest
  | _ :: rest => tokensOf rest
  end.

(** The limit status carried by an operation, if it carries one. *)
Definition statusOf (op : Op) : option LimitStatus :=
  match op with
  | Done status | StreamError _ _ status | Caught _ status
  | OpenStatus status | LimitAction status => Some status
  | _ => None
  end.

(** The limit service reports no negative time, neither as seconds
    remaining nor as window length. *)
Definition statusNonNegative (op : Op) : Prop :=
  match statusOf op with
  | Some status => 0 <= secondsRemaining status /\ 0 <= windowMs status
  | None => True
  end.

End PopupFacts.

(* ------------------------------------------------------------------ *)
(** ** String operations of the remaining modules *)

Module JSString.
Import JS.

Fixpoint startsWith (pattern s : jsstring) : bool :=
  match pattern, s with
  | [], _ => true
  | p :: pattern', c :: s' => (c =? p)%N && startsWith pattern' s'
  | _ :: _, [] => false
  end.

(** [s.indexOf(pattern)]; [None] stands for -1. *)
Fixpoint indexOf (pattern s : jsstring) : option nat :=
  if startsWith pattern s then Some 0%nat
  else match s with
       | [] => None
       | _ :: s' => option_map S (indexOf pattern s')
       end.

(** [s.slice(from, to)] for indices that are not negative. *)
Definition slice (s : jsstring) (from to : nat) : jsstring :=
  firstn (to - from) (skipn from s).

(** [s.split(/\n/)] *)
Fixpoint splitLines (s : jsstring) : list jsstring :=
  match s with
  | [] => [[]]
  | c :: s' =>
      if (c =? 10)%N then [] :: splitLines s'
      else match splitLines s' with
           | line :: lines => (c :: line) :: lines
           | [] => [[c]]
           end
  end.

Definition toLowerAscii (c : N) : N :=
  if ((65 <=? c) && (c <=? 90))%N then (c + 32)%N else c.

(** [s.toLowerCase().startsWith(pattern)] for a lower-case ASCII pattern:
    no code unit outside ASCII has a lower-case form that begins with one of
    the letters of "data:" or "event:", so the test looks at the first code
    units of [s] only. *)
Fixpoint startsWithLower (pattern s : jsstring) : bool :=
  match pattern, s with
  | [], _ => true
  | p :: pattern', c :: s' =>
      (toLowerAscii c =? p)%N && startsWithLower pattern' s'
  | _ :: _, [] => false
  end.

End JSString.

(* ------------------------------------------------------------------ *)
(** ** api/geminiClient.js: failure messages and the event-stream reader *)

Module GeminiClient.
Import JS JSString.

(** [`Gemini stream failed: ${res.status} ${res.statusText}`] *)
Definition streamFailedMessage (status : Z) (statusText : jsstring)
    : jsstring :=
  js "Gemini stream failed: " ++ numberToString status ++ js " " ++ statusText.

(** [`Gemini request failed: ${res.status} ${res.statusText}${detail ? ` - ${detail}` : ''}`] *)
Definition requestFailedMessage (status : Z) (statusText detail : jsstring)
    : jsstring :=
  js "Gemini request failed: " ++ numberToString status ++ js " "
  ++ statusText ++ (if truthy detail then js " - " ++ detail else []).

Inductive Callback :=
| OnToken (t : jsstring)
| OnDone.

Definition eventSeparator : jsstring := [10%N; 10%N].

Definition doneQuoted : jsstring := [34%N] ++ js "[DONE]" ++ [34%N].

Lemma startsWith_length (pattern : jsstring) :
  forall s, startsWith pattern s = true ->
            (List.length pattern <= List.length s)%nat.
Proof.
  induction pattern as [|p pattern IH]; intros s H; simpl; [lia|].
  destruct s as [|c s]; [discriminate|]. simpl in H.
  apply andb_true_iff in H as [_ H]. specialize (IH s H). simpl. lia.
Qed.

Lemma indexOf_bound (pattern s : jsstring) :
  forall idx, indexOf pattern s = Some idx ->
              (idx + List.length pattern <= List.length s)%nat.
Proof.
  induction s as [|c s IH]; intros idx H.
  - simpl in H. destruct (startsWith pattern []) eqn:E; [|discriminate].
    injection H as <-. apply startsWith_length in E. lia.
  - cbn [indexOf] in H. destruct (startsWith pattern (c :: s)) eqn:E.
    + injection H as <-. apply startsWith_length in E. lia.
    + destruct (indexOf pattern s) as [i|]; simpl in H; [|discriminate].
      injection H as <-. specialize (IH i eq_refl). simpl. lia.
Qed.

Section Reader.

(** [JSON.parse(payload)] as the reader uses it: [Some text] when the
    payload parses to a non-empty string, [None] when parsing throws or
    gives anything else. *)
Variable JSON_parse : jsstring -> option jsstring.

(** One line of an event: the callbacks it causes and whether the loop over
    the lines of the event stops behind it. *)
Definition processLine (line : jsstring) : list Callback * bool :=
  let trimmed := trim line in
  if negb (truthy trimmed) || startsWith (js ":") trimmed then ([], false)
  else if startsWithLower (js "event:") trimmed then ([], false)
  else if startsWithLower (js "data:") trimmed then
    let payload := trim (slice trimmed 5 (List.length trimmed)) in
    if JS.eqb payload doneQuoted || JS.eqb payload (js "[DONE]")
    then ([OnDone], true)
    else match JSON_parse payload with
         | Some text => ([OnToken text], false)
         | None => ([], false)
         end
  else ([], false).

Fixpoint processLines (lines : list jsstring) : list Callback :=
  match lines with
  | [] => []
  | line :: rest =>
      let '(callbacks, stop) := processLine line in
      if stop then callbacks else callbacks ++ processLines rest
  end.

Definition processEvent (rawEvent : jsstring) : list Callback :=
  processLines (splitLines rawEvent).

(** [while ((idx = buffer.indexOf('\n\n')) !== -1) { ... }]: the callbacks
    of the complete events and what is left in the buffer. *)
Equations? drain (buffer : jsstring) : list Callback * jsstring
  by wf (List.length buffer) lt :=
  drain buffer with Equations.Prop.Logic.inspect (indexOf eventSeparator buffer) := {
    | exist _ (Some idx) found =>
        let rawEvent := slice buffer 0 idx in
        let '(callbacks, rest) := drain (skipn (idx + 2) buffer) in
        (processEvent rawEvent ++ callbacks, rest);
    | exist _ None _ => ([], buffer) }.
Proof.
  pose proof (indexOf_bound _ _ _ found) as H. simpl in H.
  rewrite length_skipn. lia.
Qed.

(** One [reader.read()] that delivers a chunk of decoded text. *)
Definition readChunk (st : list Callback * jsstring) (chunk : jsstring)
    : list Callback * jsstring :=
  let '(callbacks, rest) := drain (snd st ++ chunk) in
  (fst st ++ callbacks, rest).

(** The flush of what is left when the body ends. *)
Definition flushLine (line : jsstring) : list Callback :=
  let trimmed := trim line in
  if startsWithLower (js "data:") trimmed then
    match JSON_parse (trim (slice trimmed 5 (List.length trimmed))) with
    | Some text => [OnToken text]
    | None => []
    end
  else [].

Definition flush (buffer : jsstring) : list Callback :=
  if truthy buffer then flat_map flushLine (splitLines buffer) else [].

(** [callGeminiStream] on a response that is ok and whose body is read to
    its end: the callbacks in the order they are made. *)
Definition callGeminiStream (chunks : list jsstring) : list Callback :=
  let '(callbacks, rest) := fold_left readChunk chunks ([], []) in
  callbacks ++ flush rest ++ [OnDone].

End Reader.

End GeminiClient.

(* ------------------------------------------------------------------ *)
(** ** ContentPopup.jsx: the context slice *)

Module ContextSlice.
Import JS JSString.

Definition ELLIPSIS : N := 8230.

Section Slice.

(** [String.prototype.toLowerCase]. *)
Variable toLowerCase : jsstring -> jsstring.

(** [p.length > radius * 2 ? p.slice(0, radius * 2) + '...' : p] *)
Definition clampParagraph (p : jsstring) (radius : nat) : jsstring :=
  if (radius * 2 <? List.length p)%nat
  then slice p 0 (radius * 2) ++ [ELLIPSIS] else p.

Definition sliceAroundSelection (paragraph selection : jsstring)
    (radius : nat) : jsstring :=
  let p := paragraph in
  let sel := trim selection in
  if negb (truthy p) then []
  else if negb (truthy sel) then clampParagraph p radius
  else
    match indexOf (toLowerCase sel) (toLowerCase p) with
    | None => clampParagraph p radius
    | Some idx =>
        let start := (idx - radius)%nat in
        let stop := Nat.min (List.length p) (idx + List.length sel + radius) in
        let slice1 := slice p start stop in
        let slice2 := if (0 <? start)%nat then ELLIPSIS :: slice1 else slice1 in
        if (stop <? List.length p)%nat then slice2 ++ [ELLIPSIS] else slice2
    end.

End Slice.

End ContextSlice.

(* ------------------------------------------------------------------ *)
(** ** overlay/selectionOverlay.js *)

Module Overlay.
Import JS Content.

(** [Math.round]: the nearest integer, halves upwards. *)
Definition Math_round (q : Q) : Z := Qfloor (q + (1 # 2)).

(** The inline style of one [.hl] block, in pixels. *)
Record Block := mkBlock {
  blockLeft : Z; blockTop : Z; blockWidth : Z; blockHeight : Z }.

(** The overlay container: its [locked] class and its blocks. *)
Record Container := mkContainer {
  locked : bool;
  blocks : list Block }.

Definition isNoise (r : Rect) : bool :=
  Qltb (width r) (1 # 2) || Qltb (height r) (1 # 2).

Definition blockOf (r : Rect) : Block :=
  mkBlock (Math_round (left r)) (Math_round (top r))
          (Math_round (width r)) (Math_round (height r)).

(** [renderFromRange(range)]: [range] holds the client rects of the range,
    [None] is a missing range; [responseOpen] is [responseOpenRef.current];
    the overlay element is [None] when it is not in the document. *)
Definition renderFromRange (range : option (list Rect)) (responseOpen : bool)
    (overlay : option Container) : option Container :=
  match range with
  | None => overlay
  | Some rects =>
      Some (mkContainer responseOpen
              (map blockOf (filter (fun r => negb (isNoise r)) rects)))
  end.

Definition clear (overlay : option Container) : option Container := None.

(** What [getBoundingClientRect] gives for a rendered block: the style
    sheet of [ensureStyles] makes the blocks fixed-position boxes without
    border, padding or transform, so the box is the inline left, top, width
    and height. *)
Definition blockRect (b : Block) : Rect :=
  mkRect (inject_Z (blockLeft b)) (inject_Z (blockTop b))
         (inject_Z (blockLeft b + blockWidth b))
         (inject_Z (blockTop b + blockHeight b))
         (inject_Z (blockWidth b)) (inject_Z (blockHeight b)).

End Overlay.

(* ------------------------------------------------------------------ *)
(** ** Further examples *)

Module MoreScenario.
Import JS JSString Content.

(** A stand-in for [JSON.parse] on the payloads of the examples: a quoted
    text without escapes gives the text between the quotes. *)
Definition parseQuoted (payload : jsstring) : option jsstring :=
  match payload with
  | 34%N :: rest =>
      match rev rest with
      | 34%N :: body => if JS.truthy body then Some (rev body) else None
      | _ => None
      end
  | _ => None
  end.

Definition dataEvent (text : string) : jsstring :=
  js "data: " ++ [34%N] ++ js text ++ [34%N] ++ [10%N; 10%N].

(** ASCII lower-casing, which is what [toLowerCase] does on ASCII text. *)
Definition lowerAscii (s : jsstring) : jsstring := map toLowerAscii s.

(** An 800x600 viewport and a popup box whose measured width is the double
    nearest to 200.3; and a rect near the right edge. *)
Definition fractionalBoxDom : Dom :=
  mkDom None None 800 600 (toDouble (2003 # 10)) 40.

Definition rightEdgeRect : Rect := mkRect 700 10 750 30 50 20.

End MoreScenario.

(* ------------------------------------------------------------------ *)
(** ** Properties of the visibility controller *)

Section VisibilityController.
Import JS Content Scenario.

Lemma jsstring_eqb_eq (a b : jsstring) : JS.eqb a b = true <-> a = b.
Proof.
  revert b; induction a as [|x a IH]; intros [|y b]; simpl; split;
    try congruence; try reflexivity.
  - intros H. apply andb_true_iff in H as [Hx Hab].
    apply N.eqb_eq in Hx. apply IH in Hab. congruence.
  - intros H. injection H as -> ->.
    apply andb_true_iff. split; [apply N.eqb_refl | now apply IH].
Qed.

Lemma jsstring_eqb_neq (a b : jsstring) : JS.eqb a b = false <-> a <> b.
Proof.
  split.
  - intros H E. apply jsstring_eqb_eq in E. congruence.
  - intros H. destruct (JS.eqb a b) eqn:E; [|reflexivity].
    apply jsstring_eqb_eq in E. contradiction.
Qed.

(** Case analysis on every remaining conditional of the goal. *)
Ltac break_ifs :=
  repeat match goal with
         | |- context [if ?c then _ else _] => destruct c; simpl
         end.

(** A tick leaves [pinned], [isMouseDown] and [insidePopup] alone. *)
Lemma update_keeps_inputs (d : Dom) (s : State) :
  pinned (update d s) = pinned s
  /\ isMouseDown (update d s) = isMouseDown s
  /\ insidePopup (update d s) = insidePopup s.
Proof.
  unfold update. destruct (resolveAnchor d s) as [rect selVisible].
  destruct (negb (JS.eqb (currentSelText d s) (lastSelectionText s)));
    destruct selVisible; destruct rect; simpl;
    break_ifs; auto.
Qed.

Lemma update_lastSelectionText (d : Dom) (s : State) :
  lastSelectionText (update d s) = currentSelText d s.
Proof.
  unfold update. destruct (resolveAnchor d s) as [rect selVisible].
  destruct (negb (JS.eqb (currentSelText d s) (lastSelectionText s)));
    destruct selVisible; destruct rect; simpl;
    break_ifs; auto.
Qed.

Lemma update_forceClosed (d : Dom) (s : State) :
  forceClosed (update d s)
  = if JS.eqb (currentSelText d s) (lastSelectionText s)
    then forceClosed s else false.
Proof.
  unfold update. destruct (resolveAnchor d s) as [rect selVisible].
  destruct (JS.eqb (currentSelText d s) (lastSelectionText s));
    destruct selVisible; destruct rect; simpl;
    break_ifs; auto.
Qed.

Lemma update_display (d : Dom) (s : State) :
  display (update d s)
  = shouldShowOf (update d s) (snd (resolveAnchor d s)).
Proof.
  unfold update. destruct (resolveAnchor d s) as [rect selVisible].
  unfold shouldShowOf.
  destruct (negb (JS.eqb (currentSelText d s) (lastSelectionText s)));
    destruct selVisible; destruct rect; simpl;
    break_ifs; auto.
Qed.

Lemma resolveAnchor_visible (d : Dom) (s : State) :
  rectVisible d = true ->
  resolveAnchor d s = (getSelectionRect d, true).
Proof. intros H. unfold resolveAnchor. rewrite H. reflexivity. Qed.

Lemma resolveAnchor_nothing (d : Dom) (s : State) :
  rectVisible d = false -> hasSelection d = false -> pinned s = false ->
  resolveAnchor d s = (getSelectionRect d, false).
Proof.
  intros Hv Hs Hp. unfold resolveAnchor, anySelectionOrPinned.
  rewrite Hv, Hs, Hp. reflexivity.
Qed.

Lemma step_forceClosed_other (e : Event) (s : State) :
  (forall d, e <> Tick d) -> e <> PopupForceClose ->
  forceClosed (step e s) = forceClosed s.
Proof.
  intros Ht Hf. destruct e; simpl; try reflexivity.
  - now elim (Ht d).
  - now elim Hf.
Qed.

Lemma run_app (es1 es2 : list Event) (s : State) :
  run (es1 ++ es2) s = run es2 (run es1 s).
Proof. unfold run. apply fold_left_app. Qed.

Lemma forceClosed_kept (es : list Event) :
  forall s, forceClosed s = true -> textUnchanged es s ->
            forceClosed (run es s) = true.
Proof.
  induction es as [|e es IH]; intros s Hf Hq; [exact Hf|].
  destruct Hq as [He Hq]. change (run (e :: es) s) with (run es (step e s)).
  apply IH; [|exact Hq].
  destruct e; simpl; try exact Hf; try reflexivity.
  rewrite update_forceClosed.
  apply jsstring_eqb_eq in He. now rewrite He.
Qed.

(** C1: after every run of [update] the popup box is displayed exactly
    when [!forceClosed && (pinned || (!isMouseDown && selVisible) ||
    insidePopup)] holds of the state the tick leaves behind, [selVisible]
    being the tick's own value (after the corner fallback); the box is
    hidden otherwise. *)
Theorem update_display_iff_invariant (d : Dom) (s : State) :
  let s' := update d s in
  let selectionVisible := snd (resolveAnchor d s) in
  display s'
  = negb (forceClosed s')
    && (pinned s' || (negb (isMouseDown s') && selectionVisible)
        || insidePopup s')
  /\ (display s' = true <->
      forceClosed s' = false
      /\ (pinned s' = true
          \/ (isMouseDown s' = false /\ selectionVisible = true)
          \/ insidePopup s' = true))
  /\ pinned s' = pinned s
  /\ isMouseDown s' = isMouseDown s
  /\ insidePopup s' = insidePopup s.
Proof.
  intros s' v.
  assert (E : display s'
              = negb (forceClosed s')
                && (pinned s' || (negb (isMouseDown s') && v)
                    || insidePopup s'))
    by (subst s' v; apply update_display).
  split; [exact E|]. split; [|subst s'; apply update_keeps_inputs].
  rewrite E.
  destruct (forceClosed s'), (pinned s'), (isMouseDown s'), v,
    (insidePopup s'); simpl; intuition congruence.
Qed.

(** C2: a force-close sets [forceClosed]; from then on the only event that
    clears it is a tick whose computed selection text differs from the
    last observed text, so it stays set along any run whose ticks all
    compute the last observed text and is cleared by the first tick that
    computes another one. *)
Theorem forceClosed_cleared_only_by_text_change :
  (forall s, forceClosed (step PopupForceClose s) = true)
  /\ (forall e s,
        forceClosed s = true ->
        (forceClosed (step e s) = false <->
         exists d, e = Tick d /\ currentSelText d s <> lastSelectionText s))
  /\ (forall es s,
        forceClosed s = true -> textUnchanged es s ->
        forceClosed (run es s) = true)
  /\ (forall es d s,
        forceClosed s = true -> textUnchanged es s ->
        currentSelText d (run es s) <> lastSelectionText (run es s) ->
        forceClosed (run (es ++ [Tick d]) s) = false).
Proof.
  split; [reflexivity|]. split; [|split].
  - intros e s Hf. split.
    + intros H. destruct e; simpl in H; try congruence.
      exists d. split; [reflexivity|].
      rewrite update_forceClosed in H.
      destruct (JS.eqb (currentSelText d s) (lastSelectionText s)) eqn:E;
        [congruence|]. now apply jsstring_eqb_neq.
    + intros [d [-> Hn]]. simpl. rewrite update_forceClosed.
      apply jsstring_eqb_neq in Hn. now rewrite Hn.
  - intros es s. apply forceClosed_kept.
  - intros es d s Hf Hq Hn. rewrite run_app. simpl.
    rewrite update_forceClosed.
    apply jsstring_eqb_neq in Hn. now rewrite Hn.
Qed.


Lemma forceClosed_cleared_only_by_text_change_witness :
  forceClosed closedOnAbc = true
  /\ forceClosed
       (run [Tick (selectedDom "abc"); MouseDown; Tick (selectedDom "abc")]
            closedOnAbc) = true
  /\ forceClosed
       (run ([Tick (selectedDom "abc")] ++ [Tick (selectedDom "xyz")])
            closedOnAbc) = false
  /\ forceClosed (step (Tick (selectedDom "xyz")) closedOnAbc) = false.
Proof.
  destruct forceClosed_cleared_only_by_text_change
    as [Hset [Honly [Hkeep Hclear]]].
  split; [exact (Hset observedAbc)|]. split; [|split].
  - apply Hkeep; [reflexivity|]. simpl. repeat split; reflexivity.
  - apply Hclear; [reflexivity| |].
    + simpl. repeat split; reflexivity.
    + vm_compute. discriminate.
  - apply (Honly (Tick (selectedDom "xyz")) closedOnAbc eq_refl).
    exists (selectedDom "xyz"). split; [reflexivity|].
    vm_compute. discriminate.
Defined.

End VisibilityController.

(* ------------------------------------------------------------------ *)
(** ** Properties of the rect resolver *)

Section RectResolver.
Import JS Content Scenario.

Lemma Qgtb_true (a b : Q) : Qgtb a b = true <-> (b < a)%Q.
Proof.
  unfold Qgtb. rewrite negb_true_iff. split.
  - intros H. apply Qnot_le_lt. intros Hle.
    apply Qle_bool_iff in Hle. congruence.
  - intros H. destruct (Qle_bool a b) eqn:E; [|reflexivity].
    apply Qle_bool_iff in E. apply Qlt_not_le in H. contradiction.
Qed.

Lemma Qgtb_false (a b : Q) : Qgtb a b = false <-> (a <= b)%Q.
Proof.
  unfold Qgtb. rewrite negb_false_iff. apply Qle_bool_iff.
Qed.

(** The loop invariant of the bottom-most scan: [bm] is the first maximum of
    what has been seen. *)
Lemma bottomMost_scan (rest : list Rect) :
  forall seen bm,
    FirstBottomMost seen bm ->
    FirstBottomMost (seen ++ rest) (bottomMostFrom bm rest).
Proof.
  induction rest as [|r rest IH]; intros seen bm Hbm.
  - rewrite app_nil_r. exact Hbm.
  - unfold bottomMostFrom. simpl.
    replace (seen ++ r :: rest) with ((seen ++ [r]) ++ rest)
      by (rewrite <- app_assoc; reflexivity).
    apply IH. destruct Hbm as [pre [post [Hs [Hpre Hpost]]]].
    destruct (Qgtb (bottom r) (bottom bm)) eqn:E.
    + apply Qgtb_true in E.
      exists seen, []. split; [reflexivity|]. split.
      * intros x Hx. rewrite Hs in Hx. apply in_app_or in Hx.
        destruct Hx as [Hx|[Hx|Hx]].
        -- eapply Qlt_trans; [apply Hpre, Hx|exact E].
        -- subst x. exact E.
        -- eapply Qle_lt_trans; [apply Hpost, Hx|exact E].
      * intros x [].
    + apply Qgtb_false in E.
      exists pre, (post ++ [r]). split.
      * rewrite Hs. rewrite <- app_assoc. reflexivity.
      * split; [exact Hpre|].
        intros x Hx. apply in_app_or in Hx. destruct Hx as [Hx|[Hx|[]]].
        -- apply Hpost, Hx.
        -- subst x. exact E.
Qed.

Lemma bottomMostFrom_first (r0 : Rect) (rs : list Rect) :
  FirstBottomMost (r0 :: rs) (bottomMostFrom r0 (r0 :: rs)).
Proof.
  assert (E : bottomMostFrom r0 (r0 :: rs) = bottomMostFrom r0 rs).
  { unfold bottomMostFrom. simpl.
    assert (H : Qgtb (bottom r0) (bottom r0) = false)
      by (apply Qgtb_false, Qle_refl).
    now rewrite H. }
  rewrite E. apply (bottomMost_scan rs [r0] r0).
  exists [], []. split; [reflexivity|]. split; intros x [].
Qed.

Lemma liveRange_some (d : Dom) (sel : Selection) (range : Range)
    (others : list Range) :
  getSelection d = Some sel -> isCollapsed sel = false ->
  selRanges sel = range :: others ->
  liveRange d = Some range.
Proof.
  intros Hs Hc Hr. unfold liveRange. now rewrite Hs, Hr, Hc.
Qed.

Lemma liveRange_none (d : Dom) :
  (getSelection d = None
   \/ exists sel, getSelection d = Some sel
                  /\ (isCollapsed sel = true \/ selRanges sel = [])) ->
  liveRange d = None.
Proof.
  unfold liveRange. intros [H|[sel [H [Hc|Hr]]]]; rewrite H; [reflexivity| |].
  - rewrite Hc. now destruct (selRanges sel).
  - now rewrite Hr.
Qed.

(** C7 (as the code has it): when the live selection is non-collapsed and
    has a range, the live branch alone decides: it takes the first client
    rect of the first range with maximal bottom (the bounding rect of the
    range when there are no client rects) and returns it, or null when its
    width and height are both zero; the overlay is not consulted.  Only when
    there is no such live selection are the overlay highlight blocks used:
    the first block rect with maximal bottom is returned if its width or
    height is positive, and null is returned otherwise or when there is no
    block. *)
Theorem getSelectionRect_cases (d : Dom) :
  (forall sel range others,
      getSelection d = Some sel -> isCollapsed sel = false ->
      selRanges sel = range :: others ->
      (forall r0 rs,
          getClientRects range = r0 :: rs ->
          exists bm,
            FirstBottomMost (r0 :: rs) bm
            /\ getSelectionRect d
               = if isEmptyRect bm then None else Some bm)
      /\ (getClientRects range = [] ->
          getSelectionRect d
          = if isEmptyRect (getBoundingClientRect range) then None
            else Some (getBoundingClientRect range)))
  /\ ((getSelection d = None
       \/ exists sel, getSelection d = Some sel
                      /\ (isCollapsed sel = true \/ selRanges sel = [])) ->
      (forall b0 bs,
          overlayBlocks d = Some (b0 :: bs) ->
          exists bm,
            FirstBottomMost (b0 :: bs) bm
            /\ getSelectionRect d
               = if Qgtb (width bm) 0 || Qgtb (height bm) 0
                 then Some bm else None)
      /\ (overlayBlocks d = None \/ overlayBlocks d = Some [] ->
          getSelectionRect d = None)).
Proof.
  split.
  - intros sel range others Hs Hc Hr.
    pose proof (liveRange_some d sel range others Hs Hc Hr) as Hl.
    unfold getSelectionRect. rewrite Hl. split.
    + intros r0 rs Hrects. rewrite Hrects.
      exists (bottomMostFrom r0 (r0 :: rs)).
      split; [apply bottomMostFrom_first | reflexivity].
    + intros Hrects. rewrite Hrects. reflexivity.
  - intros Hno. pose proof (liveRange_none d Hno) as Hl.
    unfold getSelectionRect, overlayRect. rewrite Hl. split.
    + intros b0 bs Hb. rewrite Hb.
      exists (bottomMostFrom b0 (b0 :: bs)).
      split; [apply bottomMostFrom_first | reflexivity].
    + intros [Hb|Hb]; now rewrite Hb.
Qed.

Lemma getSelectionRect_cases_witness :
  (exists bm,
      FirstBottomMost
        [mkRect 10 10 200 30 190 20; mkRect 10 30 120 50 110 20] bm
      /\ getSelectionRect liveDomExample
         = if isEmptyRect bm then None else Some bm)
  /\ getSelectionRect unrenderedDom = None
  /\ (exists bm,
        FirstBottomMost
          [mkRect 10 20 110 40 100 20; mkRect 10 40 60 60 50 20] bm
        /\ getSelectionRect overlayDom
           = if Qgtb (width bm) 0 || Qgtb (height bm) 0
             then Some bm else None)
  /\ getSelectionRect emptyDom = None.
Proof.
  split; [|split; [|split]].
  - exact (proj1 (proj1 (getSelectionRect_cases liveDomExample)
                    liveSelectionExample _ [] eq_refl eq_refl eq_refl)
             _ _ eq_refl).
  - exact (proj2 (proj1 (getSelectionRect_cases unrenderedDom)
                    _ _ [] eq_refl eq_refl eq_refl)
             eq_refl).
  - refine (proj1 (proj2 (getSelectionRect_cases overlayDom) _) _ _ eq_refl).
    right. eexists. split; [reflexivity|]. left. reflexivity.
  - refine (proj2 (proj2 (getSelectionRect_cases emptyDom) _) _).
    + left. reflexivity.
    + left. reflexivity.
Defined.

(** C7 as stated fails: without a usable live rect and with a highlight
    block present the resolver is said to return the block's rect, but the
    live branch has already returned null. *)
Lemma getSelectionRect_overlay_counterexample :
  specLiveRect hiddenLiveDom = None
  /\ overlayBlocks hiddenLiveDom = Some [mkRect 10 20 110 40 100 20]
  /\ specAnchorRect hiddenLiveDom = Some (mkRect 10 20 110 40 100 20)
  /\ getSelectionRect hiddenLiveDom = None
  /\ getSelectionRect hiddenLiveDom <> specAnchorRect hiddenLiveDom.
Proof.
  repeat split; try reflexivity. vm_compute. discriminate.
Qed.

End RectResolver.

(* ------------------------------------------------------------------ *)
(** ** The corner fallback and the observed selection text *)

Section CornerFallback.
Import JS Content Scenario.

Lemma currentSelText_hidden (d : Dom) (s : State) :
  snd (resolveAnchor d s) = false -> currentSelText d s = [].
Proof. intros H. unfold currentSelText. now rewrite H. Qed.

Lemma currentSelText_visible (d : Dom) (s : State) (sel : Selection) :
  snd (resolveAnchor d s) = true -> getSelection d = Some sel ->
  currentSelText d s = trim (selToString sel).
Proof. intros H Hs. unfold currentSelText. now rewrite H, Hs. Qed.

(** C8 (as the code has it): on a tick with no visible anchor rect and with
    a selection present or the popup pinned, [update] replaces the rect by
    the 1x1 rect [left = 8, right = 9, top = innerHeight - 9,
    bottom = innerHeight - 8] (the bottom-left corner, MARGIN = 8 px away
    from both edges) and sets [selVisible]; on every other tick the rect
    and its visibility are those of the resolver, untouched. *)
Theorem corner_fallback (d : Dom) (s : State) :
  (rectVisible d = false -> hasSelection d || pinned s = true ->
   resolveAnchor d s = (Some (cornerRect d), true))
  /\ cornerRect d
     = mkRect 8 (inject_Z (innerHeight d - 9)) 9
              (inject_Z (innerHeight d - 8)) 1 1
  /\ (~ (rectVisible d = false /\ hasSelection d || pinned s = true) ->
      resolveAnchor d s = (getSelectionRect d, rectVisible d)).
Proof.
  unfold resolveAnchor, anySelectionOrPinned. split; [|split].
  - intros Hv Ha. now rewrite Hv, Ha.
  - reflexivity.
  - intros Hn. destruct (rectVisible d); [reflexivity|].
    destruct (hasSelection d || pinned s); [|reflexivity].
    exfalso. apply Hn. split; reflexivity.
Qed.

Lemma corner_fallback_witness :
  resolveAnchor emptyDom pinnedState = (Some (cornerRect emptyDom), true)
  /\ resolveAnchor emptyDom initial
     = (getSelectionRect emptyDom, rectVisible emptyDom).
Proof.
  split.
  - apply (proj1 (corner_fallback emptyDom pinnedState)); reflexivity.
  - apply (proj2 (proj2 (corner_fallback emptyDom initial))).
    intros [_ H]. discriminate H.
Defined.

(** C8 as stated fails: the rect substituted on a pinned tick without any
    rect is not the one a one-pixel margin gives; it lies 8 px from the left
    edge and 8 px above the bottom edge. *)
Lemma corner_margin_counterexample :
  rectVisible emptyDom = false
  /\ hasSelection emptyDom || pinned pinnedState = true
  /\ fst (resolveAnchor emptyDom pinnedState)
     = Some (mkRect 8 591 9 592 1 1)
  /\ specCornerRect emptyDom = mkRect 1 598 2 599 1 1
  /\ fst (resolveAnchor emptyDom pinnedState)
     <> Some (specCornerRect emptyDom)
  /\ ~ (left (cornerRect emptyDom) == 1)%Q
  /\ ~ (bottom (cornerRect emptyDom) == inject_Z (innerHeight emptyDom - 1))%Q.
Proof.
  repeat split; try reflexivity; vm_compute; discriminate.
Qed.

(** C10: on a tick with no visible rect, no selection and no pin the
    observed text becomes the empty string (the selection is read only when
    the tick treats the rect as visible); if the text observed before was
    not empty that tick clears [forceClosed]; and a later tick that sees the
    very same text again, on screen and with the mouse released, shows the
    popup, although a force-close happened while that text was selected. *)
Theorem hidden_tick_forgets_selection_text :
  (forall d s,
      rectVisible d = false -> hasSelection d = false -> pinned s = false ->
      lastSelectionText (update d s) = []
      /\ (lastSelectionText s <> [] -> forceClosed (update d s) = false))
  /\ (forall d s, snd (resolveAnchor d s) = false -> currentSelText d s = [])
  /\ (forall d1 d2 sel s,
        rectVisible d1 = false -> hasSelection d1 = false ->
        rectVisible d2 = true -> getSelection d2 = Some sel ->
        trim (selToString sel) = lastSelectionText s ->
        lastSelectionText s <> [] ->
        isMouseDown s = false ->
        let closed := step PopupForceClose s in
        let hidden := step (Tick d1) closed in
        let again := step (Tick d2) hidden in
        forceClosed closed = true
        /\ display (step (Tick d2) closed) = false
        /\ forceClosed hidden = false
        /\ lastSelectionText hidden = []
        /\ forceClosed again = false
        /\ display again = true).
Proof.
  split; [|split].
  - intros d s Hv Hs Hp.
    assert (Ht : currentSelText d s = []).
    { apply currentSelText_hidden.
      now rewrite (resolveAnchor_nothing d s Hv Hs Hp). }
    split.
    + now rewrite update_lastSelectionText.
    + intros Hne. rewrite update_forceClosed, Ht.
      destruct (JS.eqb [] (lastSelectionText s)) eqn:E; [|reflexivity].
      apply jsstring_eqb_eq in E. congruence.
  - apply currentSelText_hidden.
  - intros d1 d2 sel s Hv1 Hs1 Hv2 Hsel Htext Hne Hmouse closed hidden again.
    assert (Hc1 : currentSelText d1 closed = []).
    { apply currentSelText_hidden.
      now rewrite (resolveAnchor_nothing d1 closed Hv1 Hs1 eq_refl). }
    assert (Hc2 : forall st, currentSelText d2 st = lastSelectionText s).
    { intros st. rewrite <- Htext. apply currentSelText_visible; [|exact Hsel].
      now rewrite (resolveAnchor_visible d2 st Hv2). }
    assert (Hfh : forceClosed hidden = false).
    { subst hidden. simpl. rewrite update_forceClosed, Hc1.
      change (lastSelectionText closed) with (lastSelectionText s).
      destruct (JS.eqb [] (lastSelectionText s)) eqn:E; [|reflexivity].
      apply jsstring_eqb_eq in E. congruence. }
    assert (Hlh : lastSelectionText hidden = []).
    { subst hidden. simpl. now rewrite update_lastSelectionText. }
    assert (Hfa : forceClosed again = false).
    { subst again. simpl. rewrite update_forceClosed, Hc2, Hlh.
      destruct (JS.eqb (lastSelectionText s) []) eqn:E; [|reflexivity].
      apply jsstring_eqb_eq in E. congruence. }
    repeat split; try assumption.
    + simpl. rewrite update_display. unfold shouldShowOf.
      rewrite update_forceClosed, Hc2.
      change (lastSelectionText closed) with (lastSelectionText s).
      assert (E : JS.eqb (lastSelectionText s) (lastSelectionText s) = true)
        by now apply jsstring_eqb_eq.
      rewrite E. reflexivity.
    + change (display (update d2 hidden) = true).
      rewrite update_display. unfold shouldShowOf.
      change (update d2 hidden) with again. rewrite Hfa.
      rewrite (resolveAnchor_visible d2 hidden Hv2).
      assert (Hm : isMouseDown again = false).
      { unfold again, hidden, closed. simpl.
        rewrite (proj1 (proj2 (update_keeps_inputs d2 _))).
        rewrite (proj1 (proj2 (update_keeps_inputs d1 _))).
        exact Hmouse. }
      rewrite Hm. simpl. now rewrite orb_true_r.
Qed.


Lemma hidden_tick_forgets_selection_text_witness :
  (lastSelectionText (update emptyDom closedOnAbc) = []
   /\ forceClosed (update emptyDom closedOnAbc) = false)
  /\ currentSelText emptyDom initial = []
  /\ (let closed := step PopupForceClose observedAbc in
      let hidden := step (Tick emptyDom) closed in
      let again := step (Tick (selectedDom "abc")) hidden in
      forceClosed closed = true
      /\ display (step (Tick (selectedDom "abc")) closed) = false
      /\ forceClosed hidden = false
      /\ lastSelectionText hidden = []
      /\ forceClosed again = false
      /\ display again = true).
Proof.
  destruct hidden_tick_forgets_selection_text as [Hforget [Hread Hreopen]].
  split; [|split].
  - destruct (Hforget emptyDom closedOnAbc eq_refl eq_refl eq_refl)
      as [Hlast Hclear].
    split; [exact Hlast|]. apply Hclear. vm_compute. discriminate.
  - apply Hread. reflexivity.
  - refine (Hreopen emptyDom (selectedDom "abc") _ observedAbc
              eq_refl eq_refl eq_refl eq_refl eq_refl _ eq_refl).
    vm_compute. discriminate.
Defined.

End CornerFallback.

(* ------------------------------------------------------------------ *)
(** ** Numbers in messages *)

Section Numerals.
Import JS.

Lemma decimalFrom_uint_acc (d : Decimal.uint) :
  forall acc : positive,
    decimalFrom (Z.pos acc) (js (NilEmpty.string_of_uint d))
    = Some (Z.pos (Pos.of_uint_acc d acc)).
Proof.
  induction d; intros acc; [reflexivity | ..];
    cbn [NilEmpty.string_of_uint js decimalFrom Pos.of_uint_acc];
    match goal with
    | |- context [digitValue ?c] =>
        change (digitValue c) with (Some (Z.of_N c - 48))
    end;
    cbv iota beta; rewrite <- IHd; f_equal;
    try match goal with
        | |- context [Z.of_N (N_of_ascii ?a)] =>
            let v := eval vm_compute in (Z.of_N (N_of_ascii a)) in
            change (Z.of_N (N_of_ascii a)) with v
        end; lia.
Qed.

Lemma decimalFrom_uint (d : Decimal.uint) :
  decimalFrom 0 (js (NilEmpty.string_of_uint d))
  = Some (Z.of_N (Pos.of_uint d)).
Proof.
  induction d; [reflexivity | exact IHd | ..];
    cbn [NilEmpty.string_of_uint js decimalFrom Pos.of_uint Z.of_N];
    match goal with
    | |- context [digitValue ?c] =>
        change (digitValue c) with (Some (Z.of_N c - 48))
    end;
    cbv iota beta; rewrite <- decimalFrom_uint_acc; f_equal.
Qed.

(** [`${n}`] for a natural number [n] is its decimal numeral. *)
Lemma decimalValue_numberToString (n : Z) :
  0 <= n -> decimalValue (numberToString n) = Some n.
Proof.
  intros Hn. destruct n as [|p|p]; [reflexivity | | lia].
  unfold numberToString. cbn [Z.to_int NilZero.string_of_int].
  pose proof (DecimalPos.Unsigned.of_to p) as E.
  pose proof (decimalFrom_uint (Pos.to_uint p)) as D. rewrite E in D.
  destruct (Pos.to_uint p) eqn:Eu; [discriminate E | ..]; exact D.
Qed.

End Numerals.

(* ------------------------------------------------------------------ *)
(** ** The client-side rate-limit gate *)

Section ClientGate.
Import JS Popup Scenario.

Lemma recentOf_In (now : Z) (times : list Z) (t : Z) :
  In t (recentOf now times) <-> In t times /\ now - RATE_WINDOW_MS < t.
Proof.
  unfold recentOf. rewrite filter_In. now rewrite Z.ltb_lt.
Qed.

Lemma recentOf_all (now : Z) (times : list Z) :
  (forall t, In t times -> now - RATE_WINDOW_MS < t) ->
  recentOf now times = times.
Proof.
  unfold recentOf. induction times as [|t ts IH]; intros H; [reflexivity|].
  simpl. assert (E : (now - RATE_WINDOW_MS <? t) = true)
    by (apply Z.ltb_lt, H; now left).
  rewrite E, IH; [reflexivity|]. intros x Hx. apply H. now right.
Qed.

Lemma fold_min_spec (ts : list Z) :
  forall t0,
    (fold_left Z.min ts t0 = t0 \/ In (fold_left Z.min ts t0) ts)
    /\ fold_left Z.min ts t0 <= t0
    /\ (forall t, In t ts -> fold_left Z.min ts t0 <= t).
Proof.
  induction ts as [|t ts IH]; intros t0; simpl.
  - repeat split; [now left | lia | intros t []].
  - destruct (IH (Z.min t0 t)) as [Hin [Hle Hall]]. repeat split.
    + destruct Hin as [Hin|Hin]; [|now right; right].
      rewrite Hin. destruct (Z.min_spec t0 t) as [[_ ->]|[_ ->]];
        [now left | now right; left].
    + lia.
    + intros x [<-|Hx]; [lia | now apply Hall].
Qed.

Lemma Math_min_spec (l : list Z) :
  l <> [] ->
  In (Math_min l) l /\ (forall t, In t l -> Math_min l <= t).
Proof.
  destruct l as [|t ts]; [congruence|]. intros _. simpl.
  destruct (fold_min_spec ts t) as [Hin [Hle Hall]]. split.
  - destruct Hin as [->|Hin]; [now left | now right].
  - intros x [<-|Hx]; [exact Hle | now apply Hall].
Qed.

Lemma ceilDiv1000_spec (x : Z) :
  1000 * (ceilDiv1000 x - 1) < x <= 1000 * ceilDiv1000 x.
Proof.
  unfold ceilDiv1000.
  pose proof (Z.div_mod (- x) 1000 ltac:(lia)).
  pose proof (Z.mod_pos_bound (- x) 1000 ltac:(lia)). lia.
Qed.

Lemma rateGate_rejects (now : Z) (times : list Z) :
  (RATE_LIMIT <= List.length (recentOf now times))%nat ->
  rateGate now times = Rejected (remainingSecOf now (recentOf now times)).
Proof.
  intros H. unfold rateGate. apply Nat.leb_le in H. now rewrite H.
Qed.

Lemma rateGate_passes (now : Z) (times : list Z) :
  (List.length (recentOf now times) < RATE_LIMIT)%nat ->
  rateGate now times = Passed (recentOf now times ++ [now]).
Proof.
  intros H. unfold rateGate. apply Nat.leb_gt in H. now rewrite H.
Qed.

(** The wait shown on rejection is the number of whole seconds, rounded up,
    until the oldest recent entry is 60 s old. *)
Lemma remainingSecOf_spec (now : Z) (times : list Z) :
  (RATE_LIMIT <= List.length (recentOf now times))%nat ->
  exists oldest,
    In oldest (recentOf now times)
    /\ (forall t, In t (recentOf now times) -> oldest <= t)
    /\ 0 < remainingSecOf now (recentOf now times)
    /\ 1000 * (remainingSecOf now (recentOf now times) - 1)
       < oldest + RATE_WINDOW_MS - now
       <= 1000 * remainingSecOf now (recentOf now times).
Proof.
  intros Hlen. set (recent := recentOf now times) in *.
  assert (Hne : recent <> []).
  { intros E. rewrite E in Hlen. unfold RATE_LIMIT in Hlen. simpl in Hlen. lia. }
  destruct (Math_min_spec recent Hne) as [Hin Hmin].
  exists (Math_min recent). split; [exact Hin|]. split; [exact Hmin|].
  unfold remainingSecOf.
  assert (Hpos : 0 < Math_min recent + RATE_WINDOW_MS - now).
  { apply recentOf_In in Hin. lia. }
  pose proof (ceilDiv1000_spec (Math_min recent + RATE_WINDOW_MS - now)).
  lia.
Qed.

Lemma step_submission_rejected (op : Op) (s : State) (n : Z) :
  isSubmission op = true ->
  rateGate (submissionTime op) (requestTimes s) = Rejected n ->
  step op s = rejectSubmission n s.
Proof.
  intros Hsub Hgate. destruct op; simpl in Hsub; try discriminate; simpl.
  - unfold handleExplainClick. simpl in Hgate. now rewrite Hsub, Hgate.
  - unfold handleTopSearchSubmit. simpl in Hgate. now rewrite Hsub, Hgate.
  - unfold handleDeeperSubmit. simpl in Hgate. now rewrite Hsub, Hgate.
Qed.

Lemma step_submission_passed (op : Op) (s : State) (recent : list Z) :
  isSubmission op = true ->
  rateGate (submissionTime op) (requestTimes s) = Passed recent ->
  requestTimes (step op s) = recent
  /\ (exists p, requests (step op s) = requests s ++ [p])
  /\ (exists c, history (step op s) = history s ++ [mkEntry User c])
  /\ loading (step op s) = true.
Proof.
  intros Hsub Hgate. destruct op; simpl in Hsub; try discriminate; simpl.
  - unfold handleExplainClick. simpl in Hgate. rewrite Hsub, Hgate. simpl.
    repeat split; eexists; reflexivity.
  - unfold handleTopSearchSubmit. simpl in Hgate. rewrite Hsub, Hgate. simpl.
    repeat split; eexists; reflexivity.
  - unfold handleDeeperSubmit. simpl in Hgate. rewrite Hsub, Hgate. simpl.
    repeat split; eexists; reflexivity.
Qed.

Lemma rejectSubmission_fields (n : Z) (s : State) :
  rejectSubmission n s
  = mkState (selectedText s) (loading s) [] (rateLimitMessage n) (history s)
            (contexts s) (questionInput s) (deeperInput s)
            (originalSelection s) (limitReached s) (requestTimes s)
            (appendedOnce s) (requests s) (responseRef s)
            (renderedResponse s).
Proof. reflexivity. Qed.

(** Five accepted submissions on an empty window, all within 60 s of the
    first, are all recorded. *)
Lemma five_submissions_recorded (op1 op2 op3 op4 op5 : Op) (s : State) :
  requestTimes s = [] ->
  Forall (fun op => isSubmission op = true) [op1; op2; op3; op4; op5] ->
  submissionTime op1 <= submissionTime op2 <= submissionTime op3 ->
  submissionTime op3 <= submissionTime op4 <= submissionTime op5 ->
  submissionTime op5 < submissionTime op1 + RATE_WINDOW_MS ->
  requestTimes (run [op1; op2; op3; op4; op5] s)
  = map submissionTime [op1; op2; op3; op4; op5].
Proof.
  intros H0 Hall H123 H345 Hwin.
  rewrite Forall_forall in Hall.
  pose proof (Hall op1 ltac:(simpl; tauto)) as S1.
  pose proof (Hall op2 ltac:(simpl; tauto)) as S2.
  pose proof (Hall op3 ltac:(simpl; tauto)) as S3.
  pose proof (Hall op4 ltac:(simpl; tauto)) as S4.
  pose proof (Hall op5 ltac:(simpl; tauto)) as S5.
  unfold run. simpl.
  assert (Hstep : forall op st times,
             isSubmission op = true -> requestTimes st = times ->
             (List.length times < RATE_LIMIT)%nat ->
             (forall t, In t times -> submissionTime op - RATE_WINDOW_MS < t) ->
             requestTimes (step op st) = times ++ [submissionTime op]).
  { intros op st times Hs Ht Hlen Hrec.
    apply (step_submission_passed op st); [exact Hs|].
    rewrite Ht. rewrite <- (recentOf_all (submissionTime op) times Hrec) at 2.
    apply rateGate_passes. now rewrite (recentOf_all _ _ Hrec). }
  unfold RATE_LIMIT in Hstep.
  pose proof (Hstep op1 s [] S1 H0 ltac:(simpl; lia)
                ltac:(simpl; intros t [])) as E1.
  pose proof (Hstep op2 _ _ S2 E1 ltac:(simpl; lia)
                ltac:(simpl; intros t Ht; intuition lia)) as E2.
  pose proof (Hstep op3 _ _ S3 E2 ltac:(simpl; lia)
                ltac:(simpl; intros t Ht; intuition lia)) as E3.
  pose proof (Hstep op4 _ _ S4 E3 ltac:(simpl; lia)
                ltac:(simpl; intros t Ht; intuition lia)) as E4.
  pose proof (Hstep op5 _ _ S5 E4 ltac:(simpl; lia)
                ltac:(simpl; intros t Ht; intuition lia)) as E5.
  exact E5.
Qed.

(** C3: every submission passes the gate first.  The gate keeps the stored
    times strictly younger than 60000 ms; with five or more of them the
    submission is rejected at once: the response becomes the text
    "Rate limit reached. Try again in Ns", where the numeral N denotes a
    strictly positive number of seconds, the seconds (rounded up) until the
    oldest kept time leaves the window, no request is sent and the history
    is unchanged; with fewer, the current time is recorded after the kept
    ones and a request is sent.  After five submissions within 60 s a sixth
    inside the window is rejected with the positive wait that is left of
    the first one's 60 s, and a sixth made once the first has left the
    window is accepted. *)
Theorem client_gate_behaviour :
  (forall op s,
      isSubmission op = true ->
      let now := submissionTime op in
      let recent := recentOf now (requestTimes s) in
      (forall t, In t recent
                 <-> In t (requestTimes s) /\ now - RATE_WINDOW_MS < t)
      /\ ((RATE_LIMIT <= List.length recent)%nat ->
          exists n oldest,
            In oldest recent
            /\ (forall t, In t recent -> oldest <= t)
            /\ 0 < n
            /\ 1000 * (n - 1) < oldest + RATE_WINDOW_MS - now <= 1000 * n
            /\ response (step op s)
               = js "Rate limit reached. Try again in " ++ numberToString n
                 ++ js "s"
            /\ decimalValue (numberToString n) = Some n
            /\ requests (step op s) = requests s
            /\ history (step op s) = history s)
      /\ ((List.length recent < RATE_LIMIT)%nat ->
          requestTimes (step op s) = recent ++ [now]
          /\ exists p, requests (step op s) = requests s ++ [p]))
  /\ (forall op1 op2 op3 op4 op5 op6 s,
        requestTimes s = [] ->
        Forall (fun op => isSubmission op = true)
               [op1; op2; op3; op4; op5; op6] ->
        submissionTime op1 <= submissionTime op2 <= submissionTime op3 ->
        submissionTime op3 <= submissionTime op4 <= submissionTime op5 ->
        submissionTime op5 <= submissionTime op6 ->
        submissionTime op5 < submissionTime op1 + RATE_WINDOW_MS ->
        let s5 := run [op1; op2; op3; op4; op5] s in
        (submissionTime op6 < submissionTime op1 + RATE_WINDOW_MS ->
         exists n,
           0 < n
           /\ 1000 * (n - 1)
              < submissionTime op1 + RATE_WINDOW_MS - submissionTime op6
              <= 1000 * n
           /\ response (step op6 s5)
              = js "Rate limit reached. Try again in " ++ numberToString n
                ++ js "s"
           /\ decimalValue (numberToString n) = Some n
           /\ requests (step op6 s5) = requests s5
           /\ history (step op6 s5) = history s5)
        /\ (submissionTime op1 + RATE_WINDOW_MS <= submissionTime op6 ->
            (exists p, requests (step op6 s5) = requests s5 ++ [p])
            /\ In (submissionTime op6) (requestTimes (step op6 s5)))).
Proof.
  split.
  - intros op s Hsub now recent. split; [|split].
    + intros t. apply recentOf_In.
    + intros Hlen.
      destruct (remainingSecOf_spec now (requestTimes s) Hlen)
        as [oldest [Hin [Hmin [Hpos Hceil]]]].
      exists (remainingSecOf now recent), oldest.
      rewrite (step_submission_rejected op s _ Hsub
                 (rateGate_rejects now (requestTimes s) Hlen)).
      split; [exact Hin|]. split; [exact Hmin|]. split; [exact Hpos|].
      split; [exact Hceil|]. split; [reflexivity|].
      split; [apply decimalValue_numberToString; fold recent in Hpos; lia|].
      split; reflexivity.
    + intros Hlen.
      destruct (step_submission_passed op s _ Hsub
                  (rateGate_passes now (requestTimes s) Hlen))
        as [Ht [Hreq _]].
      split; assumption.
  - intros op1 op2 op3 op4 op5 op6 s H0 Hall H123 H345 H56 Hwin s5.
    assert (Hall5 : Forall (fun op => isSubmission op = true)
                           [op1; op2; op3; op4; op5]).
    { rewrite Forall_forall in Hall |- *. intros op Hop. apply Hall.
      simpl in Hop |- *. tauto. }
    assert (Hsub6 : isSubmission op6 = true).
    { rewrite Forall_forall in Hall. apply Hall. simpl. tauto. }
    pose proof (five_submissions_recorded op1 op2 op3 op4 op5 s
                  H0 Hall5 H123 H345 Hwin) as Htimes.
    fold s5 in Htimes. simpl in Htimes. split.
    + intros Hin.
      assert (Hrec : recentOf (submissionTime op6) (requestTimes s5)
                     = requestTimes s5).
      { apply recentOf_all. rewrite Htimes. simpl.
        intros t Ht. intuition lia. }
      assert (Hlen : (RATE_LIMIT
                      <= List.length (recentOf (submissionTime op6)
                                        (requestTimes s5)))%nat).
      { rewrite Hrec, Htimes. unfold RATE_LIMIT. simpl. lia. }
      destruct (remainingSecOf_spec _ _ Hlen)
        as [oldest [Hold [Hmin [Hpos Hceil]]]].
      assert (Eold : oldest = submissionTime op1).
      { rewrite Hrec, Htimes in Hold, Hmin.
        pose proof (Hmin (submissionTime op1) ltac:(simpl; tauto)).
        simpl in Hold. intuition lia. }
      exists (remainingSecOf (submissionTime op6)
                (recentOf (submissionTime op6) (requestTimes s5))).
      rewrite (step_submission_rejected op6 s5 _ Hsub6
                 (rateGate_rejects _ _ Hlen)).
      split; [exact Hpos|]. split; [rewrite <- Eold; exact Hceil|].
      split; [reflexivity|].
      split; [apply decimalValue_numberToString; lia|].
      split; reflexivity.
    + intros Hout.
      assert (Hlen : (List.length (recentOf (submissionTime op6)
                                     (requestTimes s5)) < RATE_LIMIT)%nat).
      { rewrite Htimes. unfold recentOf, RATE_LIMIT. simpl.
        assert (E : (submissionTime op6 - RATE_WINDOW_MS
                     <? submissionTime op1) = false)
          by (apply Z.ltb_ge; lia).
        rewrite E.
        repeat match goal with
               | |- context [if ?c then _ else _] => destruct c
               end; simpl; lia. }
      destruct (step_submission_passed op6 s5 _ Hsub6
                  (rateGate_passes _ _ Hlen)) as [Ht [Hreq _]].
      split; [exact Hreq|]. rewrite Ht. apply in_or_app. right. now left.
Qed.

(** C9: a submission rejected by the gate changes nothing but the two
    display fields: the stored times are exactly the old list (neither the
    attempt nor the pruning is stored), history and sent requests are the
    old ones, the error becomes the empty string and the response becomes
    the rate-limit message. *)
Theorem rejected_submission_keeps_state (op : Op) (s : State) :
  isSubmission op = true ->
  (RATE_LIMIT
   <= List.length (recentOf (submissionTime op) (requestTimes s)))%nat ->
  let s' := step op s in
  requestTimes s' = requestTimes s
  /\ history s' = history s
  /\ error s' = []
  /\ requests s' = requests s
  /\ s' = mkState (selectedText s) (loading s) []
                  (rateLimitMessage
                     (remainingSecOf (submissionTime op)
                        (recentOf (submissionTime op) (requestTimes s))))
                  (history s) (contexts s) (questionInput s) (deeperInput s)
                  (originalSelection s) (limitReached s) (requestTimes s)
                  (appendedOnce s) (requests s) (responseRef s)
                  (renderedResponse s).
Proof.
  intros Hsub Hlen s'. subst s'.
  rewrite (step_submission_rejected op s _ Hsub (rateGate_rejects _ _ Hlen)).
  repeat split.
Qed.


Lemma client_gate_behaviour_witness :
  (exists n oldest,
      In oldest (recentOf 59000 (requestTimes fiveRecorded))
      /\ (forall t, In t (recentOf 59000 (requestTimes fiveRecorded)) ->
                    oldest <= t)
      /\ 0 < n
      /\ 1000 * (n - 1) < oldest + RATE_WINDOW_MS - 59000 <= 1000 * n
      /\ response (step (DeeperSubmit 59000 (js "e")) fiveRecorded)
         = js "Rate limit reached. Try again in " ++ numberToString n
           ++ js "s"
      /\ decimalValue (numberToString n) = Some n
      /\ requests (step (DeeperSubmit 59000 (js "e")) fiveRecorded)
         = requests fiveRecorded
      /\ history (step (DeeperSubmit 59000 (js "e")) fiveRecorded)
         = history fiveRecorded)
  /\ (requestTimes (step (DeeperSubmit 60000 (js "e")) fiveRecorded)
      = recentOf 60000 (requestTimes fiveRecorded) ++ [60000]
      /\ exists p, requests (step (DeeperSubmit 60000 (js "e")) fiveRecorded)
                   = requests fiveRecorded ++ [p])
  /\ (let five := [DeeperSubmit 0 (js "a"); DeeperSubmit 1000 (js "b");
                   ExplainClick 2000 relativityPage;
                   TopSearchSubmit 3000 (js "c") relativityPage;
                   DeeperSubmit 4000 (js "d")] in
      let s5 := run five initial in
      (exists n,
          0 < n
          /\ 1000 * (n - 1) < 0 + RATE_WINDOW_MS - 17500 <= 1000 * n
          /\ response (step (DeeperSubmit 17500 (js "e")) s5)
             = js "Rate limit reached. Try again in " ++ numberToString n
               ++ js "s"
          /\ decimalValue (numberToString n) = Some n
          /\ requests (step (DeeperSubmit 17500 (js "e")) s5) = requests s5
          /\ history (step (DeeperSubmit 17500 (js "e")) s5) = history s5)
      /\ ((exists p, requests (step (DeeperSubmit 60000 (js "e")) s5)
                     = requests s5 ++ [p])
          /\ In 60000 (requestTimes (step (DeeperSubmit 60000 (js "e")) s5)))).
Proof.
  destruct client_gate_behaviour as [Hgate Hsix].
  split; [|split].
  - apply (proj1 (proj2 (Hgate (DeeperSubmit 59000 (js "e")) fiveRecorded
                           eq_refl))).
    vm_compute. lia.
  - apply (proj2 (proj2 (Hgate (DeeperSubmit 60000 (js "e")) fiveRecorded
                           eq_refl))).
    vm_compute. lia.
  - intros five s5. split.
    + refine (proj1 (Hsix
                       (DeeperSubmit 0 (js "a")) (DeeperSubmit 1000 (js "b"))
                       (ExplainClick 2000 relativityPage)
                       (TopSearchSubmit 3000 (js "c") relativityPage)
                       (DeeperSubmit 4000 (js "d"))
                       (DeeperSubmit 17500 (js "e")) initial
                       eq_refl _ _ _ _ _) _);
        simpl; unfold RATE_WINDOW_MS; try lia.
      repeat constructor.
    + refine (proj2 (Hsix
                       (DeeperSubmit 0 (js "a")) (DeeperSubmit 1000 (js "b"))
                       (ExplainClick 2000 relativityPage)
                       (TopSearchSubmit 3000 (js "c") relativityPage)
                       (DeeperSubmit 4000 (js "d"))
                       (DeeperSubmit 60000 (js "e")) initial
                       eq_refl _ _ _ _ _) _);
        simpl; unfold RATE_WINDOW_MS; try lia.
      repeat constructor.
Defined.

Lemma rejected_submission_keeps_state_witness :
  let s' := step (TopSearchSubmit 59000 (js "why") relativityPage)
                 fiveRecorded in
  requestTimes s' = [0; 1000; 2000; 3000; 4000]
  /\ history s' = []
  /\ error s' = []
  /\ requests s' = []
  /\ response s' = js "Rate limit reached. Try again in 1s".
Proof.
  destruct (rejected_submission_keeps_state
              (TopSearchSubmit 59000 (js "why") relativityPage) fiveRecorded
              eq_refl ltac:(vm_compute; lia))
    as [Ht [Hh [He [Hr Hs]]]].
  repeat split; assumption.
Defined.

End ClientGate.

(* ------------------------------------------------------------------ *)
(** ** Streaming: the formatting rule *)

Section Normalization.
Import JS Popup Scenario.

Lemma replaceFrom_resume (s : jsstring) :
  match s with
  | c :: _ => isWhiteSpace c = false
  | [] => True
  end ->
  replaceFrom true s = replaceFrom false s.
Proof.
  destruct s as [|c s]; [reflexivity|]. intros H. simpl. now rewrite H.
Qed.

Lemma replaceFrom_skips (ws rest : jsstring) :
  Forall (fun c => isWhiteSpace c = true) ws ->
  replaceFrom true (ws ++ rest) = replaceFrom true rest.
Proof.
  induction 1 as [|c ws Hc _ IH]; [reflexivity|].
  simpl. now rewrite Hc.
Qed.

Lemma startsWithTwoWhiteSpace_run (ws rest : jsstring) :
  (2 <= List.length ws)%nat ->
  Forall (fun c => isWhiteSpace c = true) ws ->
  startsWithTwoWhiteSpace (ws ++ rest) = true.
Proof.
  intros Hlen Hws. destruct ws as [|a [|b ws]]; simpl in Hlen; try lia.
  inversion Hws as [|? ? Ha Hws']; subst.
  inversion Hws' as [|? ? Hb _]; subst.
  simpl. now rewrite Ha, Hb.
Qed.

(** C4: the rule replaces a period together with the whole run of two or
    more white-space characters behind it by a period and two newlines, goes
    on behind the run, and copies every other character; [onToken] applies
    it to the whole buffer extended by the token, the fallback applies it to
    the full text; and the tokens ["The "; "theory. "; "  More."] of one
    request leave the buffer "The theory.", two newlines, "More.". *)
Theorem normalization_rule :
  normalize [] = []
  /\ (forall ws rest,
        (2 <= List.length ws)%nat ->
        Forall (fun c => isWhiteSpace c = true) ws ->
        match rest with
        | c :: _ => isWhiteSpace c = false
        | [] => True
        end ->
        normalize (46%N :: ws ++ rest)
        = 46%N :: 10%N :: 10%N :: normalize rest)
  /\ (forall c s,
        (c =? 46)%N && startsWithTwoWhiteSpace s = false ->
        normalize (c :: s) = c :: normalize s)
  /\ (forall t s, response (onToken t s) = normalize (response s ++ t))
  /\ (forall message out status s,
        is429 message = false ->
        response (onError message (FallbackText out) status s)
        = normalize (if truthy out then out else js "(No response)"))
  /\ (forall prompt s,
        response (run [Token (js "The "); Token (js "theory. ");
                       Token (js "  More.")]
                      (callGemini prompt s))
        = js "The theory." ++ [10%N; 10%N] ++ js "More.")
  /\ fold_left (fun buffer t => normalize (buffer ++ t))
               [js "The "; js "theory. "; js "  More."] []
     = js "The theory." ++ [10%N; 10%N] ++ js "More.".
Proof.
  repeat split.
  - intros ws rest Hlen Hws Hrest. unfold normalize. simpl.
    rewrite (startsWithTwoWhiteSpace_run ws rest Hlen Hws).
    rewrite (replaceFrom_skips ws rest Hws).
    now rewrite (replaceFrom_resume rest Hrest).
  - intros c s H. unfold normalize. simpl. now rewrite H.
  - intros t s. unfold onToken. simpl.
    destruct (response s); reflexivity.
  - intros message out status s H. unfold onError. rewrite H. simpl.
    unfold appendAssistantOnce.
    destruct (truthy (trim _) && negb (appendedOnce _)); reflexivity.
Qed.

Lemma normalization_rule_witness :
  normalize (js "a.   b") = js "a." ++ [10%N; 10%N] ++ js "b"
  /\ normalize (js "a. b") = js "a. b"
  /\ response (onError (js "network error") (FallbackText (js "One.  Two."))
                       (mkLimitStatus false 0 60000) initial)
     = js "One." ++ [10%N; 10%N] ++ js "Two.".
Proof.
  destruct normalization_rule as [_ [Hmatch [Hcopy [_ [Hfallback _]]]]].
  split; [|split].
  - change (js "a.   b") with (97%N :: 46%N :: js "   " ++ js "b").
    rewrite (Hcopy 97%N) by reflexivity.
    rewrite (Hmatch (js "   ") (js "b")); simpl; try lia; try reflexivity.
    repeat constructor.
  - change (js "a. b") with (97%N :: 46%N :: js " b").
    rewrite (Hcopy 97%N) by reflexivity.
    rewrite (Hcopy 46%N) by reflexivity. reflexivity.
  - rewrite (Hfallback (js "network error") (js "One.  Two.") _ initial)
      by reflexivity.
    reflexivity.
Defined.

End Normalization.

(* ------------------------------------------------------------------ *)
(** ** Server rate limit: detection and countdown *)

Section ServerLimit.
Import JS Popup Scenario.

Lemma showRateLimited_fields (status : LimitStatus) (s : State) :
  let s' := showRateLimited status s in
  error s' = error s
  /\ history s' = history s
  /\ requests s' = requests s
  /\ response s' = tooManyRequestsMessage (secondsOr60 status)
  /\ limitReached s' = secondsOr60 status.
Proof.
  unfold showRateLimited. simpl.
  destruct (negb (appendedOnce s)); repeat split.
Qed.

Lemma limitTick_positive (s : State) :
  0 < limitReached s -> limitReached (limitTick s) = limitReached s - 1.
Proof.
  intros H. unfold limitTick.
  assert (E : (0 <? limitReached s) = true) by now apply Z.ltb_lt.
  rewrite E. simpl.
  destruct (0 <? limitReached s - 1) eqn:E1; [reflexivity|].
  apply Z.ltb_ge in E1. lia.
Qed.

Lemma countdown (k : nat) :
  forall s,
    Z.of_nat k <= limitReached s ->
    limitReached (run (repeat LimitTick k) s) = limitReached s - Z.of_nat k.
Proof.
  induction k as [|k IH]; intros s Hk.
  - simpl. lia.
  - change (run (repeat LimitTick (S k)) s)
      with (run (repeat LimitTick k) (limitTick s)).
    assert (Hpos : 0 < limitReached s) by lia.
    rewrite IH; rewrite (limitTick_positive s Hpos); lia.
Qed.

Lemma secs_spec (status : LimitStatus) :
  (secondsRemaining status <> 0 -> secs status = secondsRemaining status)
  /\ (secondsRemaining status = 0 -> windowMs status = 0 ->
      secs status = 60)
  /\ (secondsRemaining status = 0 -> windowMs status <> 0 ->
      1000 * (secs status - 1) < windowMs status <= 1000 * secs status).
Proof.
  unfold secs. split; [|split].
  - intros H. apply Z.eqb_neq in H. now rewrite H.
  - intros -> ->. reflexivity.
  - intros E H. rewrite E. change (0 =? 0) with true. cbv iota.
    apply Z.eqb_neq in H. rewrite H. apply ceilDiv1000_spec.
Qed.

Lemma countdown_zero (s : State) (k : nat) :
  0 < limitReached s ->
  (limitReached (run (repeat LimitTick k) s) = 0
   <-> limitReached s <= Z.of_nat k).
Proof.
  intros Hpos. destruct (Z_le_gt_dec (Z.of_nat k) (limitReached s))
    as [Hle|Hgt].
  - rewrite (countdown k s Hle). lia.
  - assert (Hn : Z.of_nat (Z.to_nat (limitReached s)) = limitReached s)
      by lia.
    assert (Hk : k = (Z.to_nat (limitReached s)
                      + (k - Z.to_nat (limitReached s)))%nat) by lia.
    split; [lia|]. intros _. rewrite Hk, repeat_app.
    unfold run. rewrite fold_left_app.
    fold (run (repeat LimitTick (Z.to_nat (limitReached s))) s).
    pose proof (countdown (Z.to_nat (limitReached s)) s ltac:(lia)) as E.
    rewrite Hn, Z.sub_diag in E.
    generalize dependent (run (repeat LimitTick
                                 (Z.to_nat (limitReached s))) s).
    intros s0 E0. clear -E0.
    induction (k - Z.to_nat (limitReached s))%nat as [|j IH] in s0, E0 |- *;
      [exact E0|].
    simpl. apply IH. unfold limitTick. rewrite E0. exact E0.
Qed.

Lemma ticks_keep (k : nat) :
  forall s,
    response (run (repeat LimitTick k) s) = response s
    /\ error (run (repeat LimitTick k) s) = error s
    /\ loading (run (repeat LimitTick k) s) = loading s.
Proof.
  induction k as [|k IH]; intros s; [repeat split|].
  change (run (repeat LimitTick (S k)) s)
    with (run (repeat LimitTick k) (limitTick s)).
  destruct (IH (limitTick s)) as [A [B C]]. rewrite A, B, C.
  unfold limitTick. destruct (0 <? limitReached s); repeat split.
Qed.

Lemma ticks_idle (k : nat) (s : State) :
  limitReached s <= 0 ->
  limitReached (run (repeat LimitTick k) s) = limitReached s.
Proof.
  intros H. induction k as [|k IH]; [reflexivity|].
  change (run (repeat LimitTick (S k)) s)
    with (run (repeat LimitTick k) (limitTick s)).
  assert (E : limitTick s = s).
  { unfold limitTick.
    assert (E0 : (0 <? limitReached s) = false) by (apply Z.ltb_ge; lia).
    now rewrite E0. }
  rewrite E. exact IH.
Qed.

(** C5: at each of the three places where a failure message is tested, a
    message matching the 429 pattern leads to the rate-limited branch: the
    error and the history stay as they are (the error is the empty string
    that [callGemini] set when the request started), the response becomes
    the text "Too many requests, please try again in N seconds." whose
    numeral N is the [secondsRemaining] of the limit service (60 when that
    is 0), so the text with 42 for 42, and [limitReached] becomes N.  Each
    tick of the countdown lowers a positive [limitReached] by one, so it is
    0 after exactly N ticks, still positive before; meanwhile the bubble of
    the response section shows the same text with the seconds that are
    left, and it is gone at 0, when the deeper search bar submits again.
    While the counter is at least 1 the bar swallows Enter; its first
    blocked Enter asks the limit service again, and the answer replaces the
    message and restarts the counter, again without touching the error or
    the history. *)
Theorem server_rate_limit_handling :
  (forall message fb status s,
      is429 message = true ->
      let n := if secondsRemaining status =? 0 then 60
               else secondsRemaining status in
      let s' := onError message fb status s in
      error s' = error s /\ history s' = history s
      /\ requests s' = requests s /\ loading s' = false
      /\ response s'
         = js "Too many requests, please try again in " ++ numberToString n
           ++ js " seconds."
      /\ limitReached s' = n)
  /\ (forall message message2 status s,
        is429 message = false -> is429 message2 = true ->
        let n := if secondsRemaining status =? 0 then 60
                 else secondsRemaining status in
        let s' := onError message (FallbackError message2) status s in
        error s' = error s /\ history s' = history s
        /\ requests s' = requests s /\ loading s' = false
        /\ response s'
           = js "Too many requests, please try again in " ++ numberToString n
             ++ js " seconds."
        /\ limitReached s' = n)
  /\ (forall message status s,
        is429 message = true ->
        let n := if secondsRemaining status =? 0 then 60
                 else secondsRemaining status in
        let s' := onCatch message status s in
        error s' = error s /\ history s' = history s
        /\ requests s' = requests s /\ loading s' = false
        /\ response s'
           = js "Too many requests, please try again in " ++ numberToString n
             ++ js " seconds."
        /\ limitReached s' = n)
  /\ (forall prompt message fb status s,
        is429 message = true ->
        let s' := run [StreamError message fb status; Caught message status]
                      (callGemini prompt s) in
        error s' = [] /\ history s' = history s)
  /\ (forall n, 0 <= n -> decimalValue (numberToString n) = Some n)
  /\ (forall message fb status s,
        is429 message = true -> secondsRemaining status = 42 ->
        let s' := onError message fb status s in
        response s' = js "Too many requests, please try again in 42 seconds."
        /\ limitReached s' = 42)
  /\ (forall status,
        secondsRemaining status = 42 ->
        secondsOr60 status = 42
        /\ tooManyRequestsMessage (secondsOr60 status)
           = js "Too many requests, please try again in 42 seconds.")
  /\ (forall status, secondsOr60 status
                     = if secondsRemaining status =? 0 then 60
                       else secondsRemaining status)
  /\ (forall s, 0 < limitReached s ->
                limitReached (limitTick s) = limitReached s - 1)
  /\ (forall s k,
        0 < limitReached s ->
        (limitReached (run (repeat LimitTick k) s) = 0
         <-> limitReached s <= Z.of_nat k))
  /\ (forall s, limitReached s = 42 ->
                limitReached (run (repeat LimitTick 42) s) = 0
                /\ forall k, (k < 42)%nat ->
                             0 < limitReached (run (repeat LimitTick k) s))
  /\ (forall message fb status s k,
        is429 message = true ->
        let n := if secondsRemaining status =? 0 then 60
                 else secondsRemaining status in
        let s' := run (repeat LimitTick k) (onError message fb status s) in
        (Z.of_nat k < n ->
         limitBubble s'
         = Some (js "Too many requests, please try again in "
                 ++ numberToString (n - Z.of_nat k) ++ js " seconds."))
        /\ (n <= Z.of_nat k -> limitBubble s' = None))
  /\ (forall s, loading s = true -> limitBubble s = None)
  /\ (forall s value limitShown hasShownLimit,
        (1 <= limitReached s ->
         deeperEnter value limitShown hasShownLimit s
         = LimitBlocked (negb limitShown && negb hasShownLimit))
        /\ (limitReached s = 0 -> truthy (trim value) = true ->
            deeperEnter value limitShown hasShownLimit s
            = CallDeeperSubmit (trim value)))
  /\ (forall status s,
        let n := if secs status =? 0 then 60 else secs status in
        let s' := step (LimitAction status) s in
        error s' = error s /\ history s' = history s
        /\ requests s' = requests s /\ loading s' = loading s
        /\ response s'
           = js "Too many requests, please try again in " ++ numberToString n
             ++ js " seconds."
        /\ limitReached s' = n
        /\ (secondsRemaining status <> 0 ->
            secs status = secondsRemaining status)
        /\ (secondsRemaining status = 0 -> windowMs status = 0 ->
            secs status = 60)
        /\ (secondsRemaining status = 0 -> windowMs status <> 0 ->
            1000 * (secs status - 1) < windowMs status
            <= 1000 * secs status)).
Proof.
  assert (H429 : forall status s,
             let s' := set_loading false (showRateLimited status s) in
             error s' = error s /\ history s' = history s
             /\ requests s' = requests s /\ loading s' = false
             /\ response s' = tooManyRequestsMessage (secondsOr60 status)
             /\ limitReached s' = secondsOr60 status).
  { intros status s.
    destruct (showRateLimited_fields status s) as [? [? [? [? ?]]]].
    simpl. repeat split; assumption. }
  split; [|split; [|split; [|split; [|split; [|split; [|split; [|split;
    [|split; [|split; [|split; [|split; [|split; [|split]]]]]]]]]]]]].
  - intros message fb status s Hm. unfold onError. rewrite Hm. apply H429.
  - intros message message2 status s Hm Hm2. unfold onError.
    rewrite Hm, Hm2. apply H429.
  - intros message status s Hm. unfold onCatch. rewrite Hm. apply H429.
  - intros prompt message fb status s Hm s'. subst s'.
    unfold run. cbn [fold_left step]. unfold onCatch, onError. rewrite Hm.
    set (s1 := callGemini prompt s).
    pose proof (H429 status s1) as A.
    pose proof (H429 status (set_loading false (showRateLimited status s1)))
      as B.
    cbv zeta in A, B.
    destruct A as [A1 [A2 _]]. destruct B as [B1 [B2 _]]. split.
    + rewrite B1, A1. reflexivity.
    + rewrite B2, A2. reflexivity.
  - exact decimalValue_numberToString.
  - intros message fb status s Hm H. unfold onError. rewrite Hm.
    destruct (H429 status s) as [_ [_ [_ [_ [Hr Hl]]]]].
    rewrite Hr, Hl. unfold secondsOr60. rewrite H. split; reflexivity.
  - intros status H. unfold secondsOr60. rewrite H. split; reflexivity.
  - reflexivity.
  - apply limitTick_positive.
  - intros s k Hpos. now apply countdown_zero.
  - intros s H. split.
    + rewrite (countdown 42 s); lia.
    + intros k Hk. rewrite (countdown k s); lia.
  - intros message fb status s k Hm n s'. subst s'.
    set (s0 := onError message fb status s).
    assert (H0 : loading s0 = false
                 /\ response s0 = tooManyRequestsMessage n
                 /\ limitReached s0 = n).
    { unfold s0, onError. rewrite Hm.
      destruct (H429 status s) as [_ [_ [_ [Hl [Hr Hn]]]]].
      repeat split; assumption. }
    destruct H0 as [Hl [Hr Hn]].
    destruct (ticks_keep k s0) as [Kr [_ Kl]].
    unfold limitBubble. rewrite Kr, Kl, Hr, Hl.
    change (truthy (tooManyRequestsMessage n)) with true.
    cbn [orb andb negb]. split.
    + intros Hk. rewrite (countdown k s0) by lia. rewrite Hn.
      assert (E : (1 <=? n - Z.of_nat k) = true) by (apply Z.leb_le; lia).
      rewrite E. rewrite Z.max_r by lia. reflexivity.
    + intros Hk.
      assert (E : limitReached (run (repeat LimitTick k) s0) <= 0).
      { destruct (Z_le_gt_dec n 0) as [Hle|Hgt].
        - rewrite ticks_idle by lia. lia.
        - rewrite (proj2 (countdown_zero s0 k ltac:(lia))); lia. }
      assert (E1 : (1 <=? limitReached (run (repeat LimitTick k) s0)) = false)
        by (apply Z.leb_gt; lia).
      now rewrite E1.
  - intros s Hl. unfold limitBubble. rewrite Hl.
    now rewrite andb_false_r.
  - intros s value limitShown hasShownLimit. unfold deeperEnter. split.
    + intros H. apply Z.leb_le in H. now rewrite H.
    + intros H Ht. rewrite H, Ht. reflexivity.
  - intros status s. cbv zeta.
    destruct (secs_spec status) as [S1 [S2 S3]].
    repeat split; assumption || apply S3; assumption.
Qed.


Lemma server_rate_limit_handling_witness :
  let started := callGemini (Text (js "prompt")) initial in
  let failure := js "Gemini stream failed: 429 Too Many Requests" in
  let s' := onError failure (FallbackText []) limited42 started in
  (error s' = [] /\ history s' = []
   /\ response s' = js "Too many requests, please try again in 42 seconds."
   /\ limitReached s' = 42)
  /\ (let s2 := onError (js "Failed to fetch")
                        (FallbackError (js "Gemini request failed: 429 "))
                        limited42 started in
      error s2 = [] /\ history s2 = [] /\ limitReached s2 = 42)
  /\ (let s3 := onCatch (js "too many requests") limited42 started in
      error s3 = [] /\ history s3 = [] /\ limitReached s3 = 42)
  /\ (let s4 := run [StreamError failure (FallbackText []) limited42;
                     Caught failure limited42] started in
      error s4 = [] /\ history s4 = [])
  /\ decimalValue (numberToString 42) = Some 42
  /\ limitBubble (run (repeat LimitTick 2) s')
     = Some (js "Too many requests, please try again in 40 seconds.")
  /\ limitBubble (run (repeat LimitTick 42) s') = None
  /\ limitBubble started = None
  /\ limitReached (limitTick s') = 41
  /\ limitReached (run (repeat LimitTick 42) s') = 0
  /\ 0 < limitReached (run (repeat LimitTick 41) s')
  /\ deeperEnter (js "why") false false s' = LimitBlocked true
  /\ deeperEnter (js "why") false false (run (repeat LimitTick 42) s')
     = CallDeeperSubmit (js "why")
  /\ secs (mkLimitStatus true 0 2500) = 3
  /\ secs (mkLimitStatus true 7 2500) = 7
  /\ secs (mkLimitStatus true 0 0) = 60
  /\ tooManyRequestsMessage (secondsOr60 limited42)
     = js "Too many requests, please try again in 42 seconds.".
Proof.
  intros started failure s'.
  destruct server_rate_limit_handling
    as [Herr [Hfb [Hcatch [Hboth [Hdec [H42 [Hold [_ [Htick [Hiff [Hcount
       [Hbubble [Hloading [Hdeeper Haction]]]]]]]]]]]]]].
  destruct (Herr failure (FallbackText []) limited42 started eq_refl)
    as [He [Hh _]].
  destruct (H42 failure (FallbackText []) limited42 started eq_refl eq_refl)
    as [Hr Hl].
  fold s' in He, Hh, Hr, Hl.
  destruct (Hcount s' Hl) as [Hzero Hbefore].
  split; [repeat split; assumption|].
  split; [|split; [|split; [|split; [|split; [|split; [|split]]]]]].
  - destruct (Hfb (js "Failed to fetch") (js "Gemini request failed: 429 ")
                limited42 started eq_refl eq_refl)
      as [He2 [Hh2 [_ [_ [_ Hl2]]]]].
    repeat split; assumption.
  - destruct (Hcatch (js "too many requests") limited42 started eq_refl)
      as [He3 [Hh3 [_ [_ [_ Hl3]]]]].
    repeat split; assumption.
  - exact (Hboth (Text (js "prompt")) failure (FallbackText []) limited42
             initial eq_refl).
  - apply Hdec. lia.
  - apply (proj1 (Hbubble failure (FallbackText []) limited42 started 2%nat
                    eq_refl)).
    simpl. lia.
  - apply (proj2 (Hbubble failure (FallbackText []) limited42 started 42%nat
                    eq_refl)).
    simpl. lia.
  - apply Hloading. reflexivity.
  - split; [|split; [|split; [|split; [|split; [|split; [|split;
      [|split]]]]]]].
    + rewrite (Htick s') by (rewrite Hl; lia). rewrite Hl. reflexivity.
    + apply (proj2 (Hiff s' 42%nat ltac:(rewrite Hl; lia))).
      rewrite Hl. simpl. lia.
    + apply (Hbefore 41%nat). lia.
    + apply (proj1 (Hdeeper s' (js "why") false false)). rewrite Hl. lia.
    + apply (proj2 (Hdeeper (run (repeat LimitTick 42) s') (js "why")
                      false false));
        [exact Hzero | reflexivity].
    + destruct (Haction (mkLimitStatus true 0 2500) initial)
        as [_ [_ [_ [_ [_ [_ [_ [_ H]]]]]]]].
      specialize (H eq_refl ltac:(simpl; lia)). cbn [windowMs] in H. lia.
    + destruct (Haction (mkLimitStatus true 7 2500) initial)
        as [_ [_ [_ [_ [_ [_ [H _]]]]]]].
      apply H. simpl. lia.
    + destruct (Haction (mkLimitStatus true 0 0) initial)
        as [_ [_ [_ [_ [_ [_ [_ [H _]]]]]]]].
      apply H; reflexivity.
    + apply (Hold limited42 eq_refl).
Defined.

End ServerLimit.

(* ------------------------------------------------------------------ *)
(** ** Conversation history *)

Section ConversationHistory.
Import JS Popup Scenario.

Lemma appendAssistantOnce_cases (text : jsstring) (s : State) :
  (appendAssistantOnce text s = s)
  \/ (appendedOnce s = false
      /\ appendedOnce (appendAssistantOnce text s) = true
      /\ history (appendAssistantOnce text s)
         = history s ++ [mkEntry Assistant text]).
Proof.
  unfold appendAssistantOnce.
  destruct (truthy text); simpl; [|now left].
  destruct (appendedOnce s) eqn:E; simpl; [now left|].
  right. repeat split.
Qed.

Lemma appendAssistantOnce_keeps (h0 : list Entry) (text : jsstring)
    (s s1 : State) :
  atMostOneAnswer h0 s ->
  history s1 = history s -> appendedOnce s1 = appendedOnce s ->
  atMostOneAnswer h0 (appendAssistantOnce text s1).
Proof.
  intros Hinv Hh Ha.
  destruct (appendAssistantOnce_cases text s1) as [E|[Hf [Ht Happ]]].
  - rewrite E. unfold atMostOneAnswer. rewrite Hh, Ha. exact Hinv.
  - right. split; [exact Ht|]. exists text. rewrite Happ, Hh.
    destruct Hinv as [->|[Hflag _]]; [reflexivity|]. congruence.
Qed.

Lemma showRateLimited_keeps (h0 : list Entry) (status : LimitStatus)
    (s : State) :
  atMostOneAnswer h0 s -> atMostOneAnswer h0 (showRateLimited status s).
Proof.
  intros [H|[Hf Ht]]; unfold showRateLimited, atMostOneAnswer; simpl.
  - left. destruct (negb (appendedOnce s)); exact H.
  - right. rewrite Hf. simpl. split; [exact Hf | exact Ht].
Qed.

Lemma atMostOneAnswer_ext (h0 : list Entry) (s s' : State) :
  history s' = history s -> appendedOnce s' = appendedOnce s ->
  atMostOneAnswer h0 s -> atMostOneAnswer h0 s'.
Proof. unfold atMostOneAnswer. intros -> ->. exact (fun H => H). Qed.

Lemma request_event_keeps (h0 : list Entry) (op : Op) (s : State) :
  isRequestEvent op = true ->
  atMostOneAnswer h0 s -> atMostOneAnswer h0 (step op s).
Proof.
  intros Hop Hinv. destruct op; simpl in Hop; try discriminate; simpl.
  - (* Token *) revert Hinv. apply atMostOneAnswer_ext; reflexivity.
  - (* Done *) unfold onDone.
    apply atMostOneAnswer_ext
      with (s := appendAssistantOnce
                   (trim (responseRef (set_loading false s)))
                   (set_loading false s)); try reflexivity.
    apply (appendAssistantOnce_keeps h0 _ s _ Hinv); reflexivity.
  - (* StreamError *) unfold onError.
    destruct (is429 message).
    + apply atMostOneAnswer_ext with (s := showRateLimited status s);
        try reflexivity.
      now apply showRateLimited_keeps.
    + destruct fb as [out|message2].
      * set (normalized := normalize (if truthy out then out
                                      else js "(No response)")).
        apply atMostOneAnswer_ext
          with (s := appendAssistantOnce (trim normalized)
                       (set_response normalized s)); try reflexivity.
        apply (appendAssistantOnce_keeps h0 _ s _ Hinv); reflexivity.
      * destruct (is429 message2).
        -- apply atMostOneAnswer_ext with (s := showRateLimited status s);
             try reflexivity.
           now apply showRateLimited_keeps.
        -- revert Hinv. apply atMostOneAnswer_ext; reflexivity.
  - (* Caught *) unfold onCatch. destruct (is429 message).
    + apply atMostOneAnswer_ext with (s := showRateLimited status s);
        try reflexivity.
      now apply showRateLimited_keeps.
    + revert Hinv. apply atMostOneAnswer_ext; reflexivity.
  - (* LimitTick *) unfold limitTick.
    destruct (0 <? limitReached s); [|exact Hinv].
    revert Hinv. apply atMostOneAnswer_ext; reflexivity.
  - (* CaptureSelection *) unfold captureSelectionRange.
    destruct (truthy (trim selectionText)); [|exact Hinv].
    revert Hinv. apply atMostOneAnswer_ext; reflexivity.
  - (* OpenStatus *) revert Hinv. apply atMostOneAnswer_ext; reflexivity.
  - (* LimitAction *) revert Hinv. apply atMostOneAnswer_ext; reflexivity.
  - (* TtsError *) revert Hinv. apply atMostOneAnswer_ext; reflexivity.
  - (* Render *) unfold render.
    destruct (JS.eqb (response s) (renderedResponse s)); [exact Hinv|].
    revert Hinv. apply atMostOneAnswer_ext; reflexivity.
Qed.

Lemma request_events_keep (h0 : list Entry) (ops : list Op) :
  forall s,
    Forall (fun op => isRequestEvent op = true) ops ->
    atMostOneAnswer h0 s -> atMostOneAnswer h0 (run ops s).
Proof.
  induction ops as [|op ops IH]; intros s Hall Hinv; [exact Hinv|].
  inversion Hall as [|? ? Hop Hrest]; subst.
  change (run (op :: ops) s) with (run ops (step op s)).
  apply IH; [exact Hrest|]. now apply request_event_keeps.
Qed.

(** Nothing but a reset removes or rewrites a history entry. *)
Lemma step_appends (op : Op) (s : State) :
  op <> Reset ->
  exists suffix,
    history (step op s) = history s ++ suffix
    /\ (List.length suffix <= 1)%nat.
Proof.
  intros Hop.
  assert (Hnone : forall s', history s' = history s ->
                             exists suffix,
                               history s' = history s ++ suffix
                               /\ (List.length suffix <= 1)%nat).
  { intros s' E. exists []. rewrite app_nil_r. split; [exact E|simpl; lia]. }
  assert (Hone : forall s' e, history s' = history s ++ [e] ->
                              exists suffix,
                                history s' = history s ++ suffix
                                /\ (List.length suffix <= 1)%nat).
  { intros s' e E. exists [e]. split; [exact E|simpl; lia]. }
  assert (Happ : forall text s1, history s1 = history s ->
                   exists suffix,
                     history (appendAssistantOnce text s1)
                     = history s ++ suffix
                     /\ (List.length suffix <= 1)%nat).
  { intros text s1 E.
    destruct (appendAssistantOnce_cases text s1) as [->|[_ [_ Ha]]].
    - now apply Hnone.
    - apply (Hone _ (mkEntry Assistant text)). now rewrite Ha, E. }
  assert (Hlim : forall status s1, history s1 = history s ->
                   history (showRateLimited status s1) = history s).
  { intros status s1 E. unfold showRateLimited. simpl.
    destruct (negb (appendedOnce s1)); exact E. }
  destruct op; simpl.
  - unfold handleExplainClick.
    destruct (negb (truthy (explainText pg))); [now apply Hnone|].
    destruct (rateGate now (requestTimes s)); [now apply Hnone|].
    eapply Hone. reflexivity.
  - unfold handleTopSearchSubmit.
    destruct (negb (truthy (trim value))); [now apply Hnone|].
    destruct (rateGate now (requestTimes s)); [now apply Hnone|].
    eapply Hone. reflexivity.
  - unfold handleDeeperSubmit.
    destruct (negb (truthy (trim query))); [now apply Hnone|].
    destruct (rateGate now (requestTimes s)); [now apply Hnone|].
    eapply Hone. reflexivity.
  - now apply Hnone.
  - unfold onDone, refreshLimit. simpl. now apply Happ.
  - unfold onError. destruct (is429 message).
    + apply Hnone. simpl. now apply Hlim.
    + destruct fb as [out|message2].
      * unfold refreshLimit. simpl. now apply Happ.
      * destruct (is429 message2); apply Hnone; simpl;
          [now apply Hlim | reflexivity].
  - unfold onCatch. destruct (is429 message); apply Hnone; simpl;
      [now apply Hlim | reflexivity].
  - unfold limitTick. destruct (0 <? limitReached s); now apply Hnone.
  - unfold captureSelectionRange.
    destruct (truthy (trim selectionText)); now apply Hnone.
  - now elim Hop.
  - now apply Hnone.
  - now apply Hnone.
  - now apply Hnone.
  - unfold render.
    destruct (JS.eqb (response s) (renderedResponse s)); now apply Hnone.
Qed.

Lemma run_keeps_first_entry (ops : list Op) :
  forall s e rest,
    Forall (fun op => op <> Reset) ops ->
    history s = e :: rest ->
    exists rest', history (run ops s) = e :: rest'.
Proof.
  induction ops as [|op ops IH]; intros s e rest Hall Hh.
  - exists rest. exact Hh.
  - inversion Hall as [|? ? Hop Hrest]; subst.
    change (run (op :: ops) s) with (run ops (step op s)).
    destruct (step_appends op s Hop) as [suffix [Hs _]].
    apply (IH (step op s) e (rest ++ suffix) Hrest).
    rewrite Hs, Hh. reflexivity.
Qed.

Lemma handleExplainClick_passed (now : Z) (pg : Page) (s : State) :
  truthy (explainText pg) = true ->
  (List.length (recentOf now (requestTimes s)) < RATE_LIMIT)%nat ->
  let prompt :=
    Prompt (explainText pg) (pageUrl pg) (pageHeading pg) (pageContext pg) in
  history (handleExplainClick now pg s) = history s ++ [mkEntry User prompt]
  /\ requests (handleExplainClick now pg s) = requests s ++ [Text prompt].
Proof.
  intros Ht Hlen. unfold handleExplainClick.
  rewrite Ht, (rateGate_passes now (requestTimes s) Hlen). simpl.
  split; reflexivity.
Qed.

Lemma handleTopSearchSubmit_passed (now : Z) (value : jsstring) (pg : Page)
    (s : State) :
  truthy (trim value) = true ->
  (List.length (recentOf now (requestTimes s)) < RATE_LIMIT)%nat ->
  let prompt :=
    SearchPrompt (originalSelection s) (trim value) (pageUrl pg)
                 (pageHeading pg) (pageContext pg) in
  history (handleTopSearchSubmit now value pg s)
  = history s ++ [mkEntry User prompt]
  /\ requests (handleTopSearchSubmit now value pg s)
     = requests s ++ [Text prompt].
Proof.
  intros Ht Hlen. unfold handleTopSearchSubmit.
  rewrite Ht, (rateGate_passes now (requestTimes s) Hlen). simpl.
  split; reflexivity.
Qed.

Lemma handleDeeperSubmit_passed (now : Z) (query : jsstring) (s : State) :
  truthy (trim query) = true ->
  (List.length (recentOf now (requestTimes s)) < RATE_LIMIT)%nat ->
  history (handleDeeperSubmit now query s)
  = history s ++ [mkEntry User (trim query)]
  /\ requests (handleDeeperSubmit now query s)
     = requests s ++ [DeeperPrompt (history s) (trim query) (contexts s)].
Proof.
  intros Ht Hlen. unfold handleDeeperSubmit.
  rewrite Ht, (rateGate_passes now (requestTimes s) Hlen). simpl.
  split; reflexivity.
Qed.

(** C6 (as the code has it): an accepted Explain or top-search submission
    appends the full constructed prompt as a user entry and sends that
    prompt; an accepted deeper submission appends the raw follow-up text and
    sends the deeper prompt built from the history as it was before.  When
    the submission that meets an empty history is an Explain or top-search
    submission, its prompt is the first entry and stays the first entry
    through every later operation short of a reset, and the transcript shows
    exactly the entries behind it.  Between the start of a request and the
    next submission or reset, whatever tokens, completions, errors and
    fallbacks arrive, the history gains nothing or one assistant entry. *)
Theorem history_shape :
  (forall now pg s,
      truthy (explainText pg) = true ->
      (List.length (recentOf now (requestTimes s)) < RATE_LIMIT)%nat ->
      let prompt :=
        Prompt (explainText pg) (pageUrl pg) (pageHeading pg)
               (pageContext pg) in
      history (handleExplainClick now pg s)
      = history s ++ [mkEntry User prompt]
      /\ requests (handleExplainClick now pg s)
         = requests s ++ [Text prompt])
  /\ (forall now value pg s,
        truthy (trim value) = true ->
        (List.length (recentOf now (requestTimes s)) < RATE_LIMIT)%nat ->
        let prompt :=
          SearchPrompt (originalSelection s) (trim value) (pageUrl pg)
                       (pageHeading pg) (pageContext pg) in
        history (handleTopSearchSubmit now value pg s)
        = history s ++ [mkEntry User prompt]
        /\ requests (handleTopSearchSubmit now value pg s)
           = requests s ++ [Text prompt])
  /\ (forall now query s,
        truthy (trim query) = true ->
        (List.length (recentOf now (requestTimes s)) < RATE_LIMIT)%nat ->
        history (handleDeeperSubmit now query s)
        = history s ++ [mkEntry User (trim query)]
        /\ requests (handleDeeperSubmit now query s)
           = requests s
             ++ [DeeperPrompt (history s) (trim query) (contexts s)])
  /\ (forall op ops s,
        history s = [] ->
        (exists now pg, op = ExplainClick now pg)
        \/ (exists now value pg, op = TopSearchSubmit now value pg) ->
        isSubmission op = true ->
        (List.length (recentOf (submissionTime op) (requestTimes s))
         < RATE_LIMIT)%nat ->
        Forall (fun o => o <> Reset) ops ->
        exists prompt rest,
          isConstructedPrompt prompt
          /\ requests (step op s) = requests s ++ [Text prompt]
          /\ history (run (op :: ops) s) = mkEntry User prompt :: rest
          /\ firstEntryIsPrompt (history (run (op :: ops) s))
          /\ visibleHistory (history (run (op :: ops) s)) = rest)
  /\ (forall prompt events s,
        Forall (fun op => isRequestEvent op = true) events ->
        let after := run events (callGemini prompt s) in
        history after = history s
        \/ exists text, history after = history s ++ [mkEntry Assistant text]).
Proof.
  split; [exact handleExplainClick_passed|].
  split; [exact handleTopSearchSubmit_passed|].
  split; [exact handleDeeperSubmit_passed|]. split.
  - intros op ops s Hempty Hkind Hsub Hlen Hops.
    assert (Hfirst : exists prompt,
               isConstructedPrompt prompt
               /\ requests (step op s) = requests s ++ [Text prompt]
               /\ history (step op s) = [mkEntry User prompt]).
    { destruct Hkind as [[now [pg ->]]|[now [value [pg ->]]]];
        simpl in Hsub, Hlen |- *.
      - destruct (handleExplainClick_passed now pg s Hsub Hlen) as [Hh Hr].
        eexists. split; [left; do 4 eexists; reflexivity|].
        split; [exact Hr|]. now rewrite Hh, Hempty.
      - destruct (handleTopSearchSubmit_passed now value pg s Hsub Hlen)
          as [Hh Hr].
        eexists. split; [right; do 5 eexists; reflexivity|].
        split; [exact Hr|]. now rewrite Hh, Hempty. }
    destruct Hfirst as [prompt [Hp [Hr Hh]]].
    change (run (op :: ops) s) with (run ops (step op s)).
    destruct (run_keeps_first_entry ops (step op s) _ _ Hops Hh)
      as [rest Hrest].
    exists prompt, rest. rewrite Hrest. simpl. repeat split; assumption.
  - intros prompt events s Hev after.
    assert (Hinv : atMostOneAnswer (history s) after).
    { apply request_events_keep; [exact Hev|]. now left. }
    destruct Hinv as [H|[_ H]]; [now left | now right].
Qed.


Lemma history_shape_witness :
  let answered := mkLimitStatus false 0 60000 in
  let ops := [ExplainClick 0 relativityPage; Token (js "Mass is energy.");
              Done answered; Done answered; DeeperSubmit 5000 (js "why")] in
  (history (handleExplainClick 0 relativityPage initial)
   = [mkEntry User (Prompt (js "E=mc2") (js "https://example.com")
                           (js "Relativity")
                           (js "Einstein wrote E=mc2 in 1905."))])
  /\ (history (handleTopSearchSubmit 0 (js " what is c? ") relativityPage
                                     initial)
      = [mkEntry User (SearchPrompt [] (js "what is c?")
                                    (js "https://example.com")
                                    (js "Relativity")
                                    (js "Einstein wrote E=mc2 in 1905."))])
  /\ (history (handleDeeperSubmit 5000 (js " why ")
                  (run [ExplainClick 0 relativityPage] initial))
      = history (run [ExplainClick 0 relativityPage] initial)
        ++ [mkEntry User (js "why")])
  /\ (exists prompt rest,
        isConstructedPrompt prompt
        /\ requests (step (ExplainClick 0 relativityPage) initial)
           = requests initial ++ [Text prompt]
        /\ history (run ops initial) = mkEntry User prompt :: rest
        /\ firstEntryIsPrompt (history (run ops initial))
        /\ visibleHistory (history (run ops initial)) = rest)
  /\ (let after :=
        run [Token (js "Mass is energy."); Done answered;
             StreamError (js "network error") (FallbackText (js "again"))
                         answered;
             Done answered]
            (callGemini (Text (js "prompt")) initial) in
      history after = history initial
      \/ exists text,
           history after = history initial ++ [mkEntry Assistant text]).
Proof.
  intros answered ops.
  destruct history_shape as [Hexplain [Htop [Hdeeper [Hfirst Honce]]]].
  split; [|split; [|split; [|split]]].
  - exact (proj1 (Hexplain 0 relativityPage initial eq_refl
                    ltac:(vm_compute; lia))).
  - exact (proj1 (Htop 0 (js " what is c? ") relativityPage initial eq_refl
                    ltac:(vm_compute; lia))).
  - exact (proj1 (Hdeeper 5000 (js " why ")
                    (run [ExplainClick 0 relativityPage] initial) eq_refl
                    ltac:(vm_compute; lia))).
  - apply (Hfirst (ExplainClick 0 relativityPage)); try reflexivity.
    + left. exists 0, relativityPage. reflexivity.
    + vm_compute. lia.
    + repeat constructor; discriminate.
  - apply Honce. repeat constructor.
Defined.

(** C6 as stated fails: Explain on a blank selection only sets the error,
    which opens the response section; a follow-up typed there is a deeper
    submission on an empty history, and its raw text becomes the first
    entry. *)
Lemma deeper_first_counterexample :
  let opened := step (ExplainClick 0 blankSelectionPage) initial in
  let ops := [ExplainClick 0 blankSelectionPage; DeeperSubmit 1000 (js "why")] in
  error opened = js "Please select some text to explain."
  /\ history opened = []
  /\ (forall limitShown hasShownLimit,
        deeperEnter (js "why") limitShown hasShownLimit opened
        = CallDeeperSubmit (js "why"))
  /\ history (run ops initial) = [mkEntry User (js "why")]
  /\ ~ firstEntryIsPrompt (history (run ops initial)).
Proof.
  repeat split.
  change (~ firstEntryIsPrompt [mkEntry User (js "why")]).
  intros [_ [H|H]].
  - destruct H as [selection [url [heading [context E]]]].
    unfold Prompt in E. simpl in E. discriminate E.
  - destruct H as [selection [question [url [heading [context E]]]]].
    unfold SearchPrompt in E. simpl in E. discriminate E.
Qed.

End ConversationHistory.

(* ------------------------------------------------------------------ *)
(** ** Further properties of the controller: placement and signals *)

Section Numbers.
Import JS.

Lemma two_nonzero : ~ (2 == 0)%Q.
Proof. discriminate. Qed.

Lemma pow2_pos (e : Z) : (0 < 2 ^ e)%Q.
Proof. apply Qpower_0_lt. reflexivity. Qed.

Lemma pow2_Z (n : Z) : 0 <= n -> (inject_Z (2 ^ n) == 2 ^ n)%Q.
Proof. intros H. exact (Zpower_Qpower 2 n H). Qed.

Lemma log2_unique (q : Q) (e e' : Z) :
  (2 ^ e <= q)%Q -> (q < 2 ^ (e + 1))%Q ->
  (2 ^ e' <= q)%Q -> (q < 2 ^ (e' + 1))%Q -> e = e'.
Proof.
  intros A B A' B'.
  assert (H1 : e < e' + 1).
  { apply (Qpower_lt_compat_l_inv 2); [|reflexivity].
    eapply Qle_lt_trans; eassumption. }
  assert (H2 : e' < e + 1).
  { apply (Qpower_lt_compat_l_inv 2); [|reflexivity].
    eapply Qle_lt_trans; eassumption. }
  lia.
Qed.

Lemma floorLog2_spec (q : Q) :
  (0 < q)%Q -> (2 ^ floorLog2 q <= q)%Q /\ (q < 2 ^ (floorLog2 q + 1))%Q.
Proof.
  intros Hq. destruct q as [n d]. unfold floorLog2. cbn [Qnum Qden].
  assert (Hn : 0 < n).
  { unfold Qlt in Hq. simpl in Hq. lia. }
  set (a := Z.log2 n). set (b := Z.log2 (Z.pos d)).
  destruct (Z.log2_spec n Hn) as [Ha1 Ha2]. fold a in Ha1, Ha2.
  destruct (Z.log2_spec (Z.pos d) ltac:(lia)) as [Hb1 Hb2].
  fold b in Hb1, Hb2.
  assert (Ha0 : 0 <= a) by apply Z.log2_nonneg.
  assert (Hb0 : 0 <= b) by apply Z.log2_nonneg.
  assert (Na : (2 ^ a <= inject_Z n)%Q).
  { rewrite <- pow2_Z by lia. now rewrite <- Zle_Qle. }
  assert (Na' : (inject_Z n < 2 ^ (a + 1))%Q).
  { rewrite <- pow2_Z by lia. rewrite <- Zlt_Qlt.
    now replace (a + 1) with (Z.succ a) by lia. }
  assert (Db : (2 ^ b <= inject_Z (Z.pos d))%Q).
  { rewrite <- pow2_Z by lia. now rewrite <- Zle_Qle. }
  assert (Db' : (inject_Z (Z.pos d) < 2 ^ (b + 1))%Q).
  { rewrite <- pow2_Z by lia. rewrite <- Zlt_Qlt.
    now replace (b + 1) with (Z.succ b) by lia. }
  assert (Mul : ((n # d) * inject_Z (Z.pos d) == inject_Z n)%Q).
  { rewrite (Qmake_Qdiv n d). field. discriminate. }
  assert (Up : (n # d < 2 ^ (a - b + 1))%Q).
  { apply Qmult_lt_r with (z := (2 ^ b)%Q); [apply pow2_pos|].
    rewrite <- Qpower_plus by apply two_nonzero.
    replace (a - b + 1 + b) with (a + 1) by lia.
    eapply Qle_lt_trans; [|exact Na'].
    rewrite <- Mul. apply Qmult_le_l; [exact Hq | exact Db]. }
  assert (Lo : (2 ^ (a - b - 1) < n # d)%Q).
  { apply Qmult_lt_r with (z := (2 ^ (b + 1))%Q); [apply pow2_pos|].
    rewrite <- Qpower_plus by apply two_nonzero.
    replace (a - b - 1 + (b + 1)) with a by lia.
    eapply Qle_lt_trans; [exact Na|].
    rewrite <- Mul. apply Qmult_lt_l; [exact Hq | exact Db']. }
  destruct (Qle_bool (2 ^ (a - b)) (n # d)) eqn:E.
  - apply Qle_bool_iff in E. split; [exact E | exact Up].
  - split; [apply Qlt_le_weak; exact Lo|].
    replace (a - b - 1 + 1) with (a - b) by lia.
    apply Qnot_le_lt. intros H. apply Qle_bool_iff in H. congruence.
Qed.

Lemma floorLog2_unique (q : Q) (e : Z) :
  (2 ^ e <= q)%Q -> (q < 2 ^ (e + 1))%Q -> floorLog2 q = e.
Proof.
  intros A B.
  assert (Hq : (0 < q)%Q) by (eapply Qlt_le_trans; [apply pow2_pos | exact A]).
  destruct (floorLog2_spec q Hq) as [A' B'].
  exact (log2_unique q _ _ A' B' A B).
Qed.

Lemma roundTiesToEven_integer (q : Q) (k : Z) :
  (q == inject_Z k)%Q -> roundTiesToEven q = k.
Proof.
  intros H. unfold roundTiesToEven.
  assert (F : Qfloor q = k) by (rewrite H; apply Qfloor_Z).
  rewrite F.
  assert (C : (q - inject_Z k ?= 1 # 2)%Q = Lt).
  { rewrite <- Qlt_alt. rewrite H. lra. }
  now rewrite C.
Qed.

(** Rounding leaves a double as it is: an operation whose exact result is
    a double is exact. *)
Lemma toDouble_exact (q : Q) : isDouble q -> (toDouble q == q)%Q.
Proof.
  intros [m [k [Hm [Hk Hq]]]]. unfold toDouble.
  destruct (Qeq_bool q 0) eqn:E0.
  - apply Qeq_bool_iff in E0. now rewrite E0.
  - assert (Hm0 : m <> 0).
    { intros ->. apply Qeq_bool_neq in E0. apply E0. rewrite Hq. ring. }
    set (a := Z.log2 (Z.abs m)).
    destruct (Z.log2_spec (Z.abs m) ltac:(lia)) as [Ha1 Ha2].
    fold a in Ha1, Ha2.
    assert (Ha0 : 0 <= a) by apply Z.log2_nonneg.
    assert (Ha52 : a <= 52).
    { assert (H : 2 ^ a < 2 ^ 53) by lia.
      apply Z.pow_lt_mono_r_iff in H; lia. }
    assert (Habs : (Qabs q == inject_Z (Z.abs m) * 2 ^ k)%Q).
    { rewrite Hq, Qabs_Qmult.
      rewrite (Qabs_pos (2 ^ k)) by (apply Qlt_le_weak, pow2_pos).
      apply Qmult_comp; [|reflexivity]. unfold Qabs, inject_Z. reflexivity. }
    assert (EL : floorLog2 (Qabs q) = a + k).
    { apply floorLog2_unique; rewrite Habs.
      - rewrite Qpower_plus by apply two_nonzero.
        apply Qmult_le_r; [apply pow2_pos|].
        rewrite <- pow2_Z by lia. now rewrite <- Zle_Qle.
      - replace (a + k + 1) with (a + 1 + k) by lia.
        rewrite Qpower_plus by apply two_nonzero.
        apply Qmult_lt_r; [apply pow2_pos|].
        rewrite <- pow2_Z by lia. rewrite <- Zlt_Qlt.
        now replace (a + 1) with (Z.succ a) by lia. }
    rewrite EL.
    set (t := Z.max (a + k) (-1022) - 52).
    assert (Ht : 0 <= k - t) by (unfold t; lia).
    assert (Hdiv : (q / 2 ^ t == inject_Z (m * 2 ^ (k - t)))%Q).
    { rewrite inject_Z_mult, pow2_Z by exact Ht.
      rewrite Qpower_minus by apply two_nonzero. rewrite Hq. field.
      repeat split; apply Qpower_not_0, two_nonzero. }
    rewrite (roundTiesToEven_integer _ _ Hdiv).
    rewrite inject_Z_mult, pow2_Z by exact Ht.
    rewrite Qpower_minus by apply two_nonzero. rewrite Hq. field.
    repeat split; apply Qpower_not_0, two_nonzero.
Qed.

Lemma isDouble_Qeq (q q' : Q) : (q == q')%Q -> isDouble q' -> isDouble q.
Proof.
  intros E [m [k [Hm [Hk Hq]]]]. exists m, k.
  split; [exact Hm|]. split; [exact Hk|]. now rewrite E.
Qed.

(** [toDouble (toDouble (a - b) - c)] when both differences are doubles. *)
Lemma toDouble_sub_sub (a b c : Q) :
  isDouble (a - b) -> isDouble (a - b - c) ->
  (toDouble (toDouble (a - b) - c) == a - b - c)%Q.
Proof.
  intros H1 H2. pose proof (toDouble_exact _ H1) as E1.
  assert (E : (toDouble (a - b) - c == a - b - c)%Q) by (rewrite E1; reflexivity).
  rewrite (toDouble_exact _ (isDouble_Qeq _ _ E H2)). exact E.
Qed.

End Numbers.

Section Placement.
Import JS Content Scenario MoreScenario.

Ltac case_ifs :=
  repeat match goal with
         | |- context [if ?c then _ else _] => destruct c; simpl
         end.

Lemma clamp_between (value lo hi : Q) :
  (lo <= hi)%Q -> (lo <= clamp value lo hi <= hi)%Q.
Proof.
  intros H. unfold clamp. split.
  - apply Q.le_max_l.
  - apply Q.max_lub; [exact H | apply Q.le_min_l].
Qed.

Lemma clamp_inside (value lo hi : Q) :
  (lo <= value <= hi)%Q -> (clamp value lo hi == value)%Q.
Proof.
  intros [Hlo Hhi]. unfold clamp.
  rewrite Q.max_r.
  - apply Q.min_r. exact Hhi.
  - apply Q.min_glb; [eapply Qle_trans; eassumption | exact Hlo].
Qed.

Lemma positionBox_boxPos (d : Dom) (r : Rect) (s : State) :
  boxPos (positionBox d (Some r) s)
  = Some (clamp (left r) (inject_Z MARGIN)
                (Qmax (inject_Z MARGIN)
                      (toDouble
                         (toDouble (inject_Z (innerWidth d) - boxWidth d)
                          - inject_Z MARGIN))),
          clamp (toDouble (bottom r + inject_Z MARGIN)) (inject_Z MARGIN)
                (Qmax (inject_Z MARGIN)
                      (toDouble
                         (toDouble (inject_Z (innerHeight d) - boxHeight d)
                          - inject_Z MARGIN)))).
Proof. reflexivity. Qed.

Lemma positionBox_margins (d : Dom) (r : Rect) (s : State) :
  exists l t,
    boxPos (positionBox d (Some r) s) = Some (l, t)
    /\ (inject_Z MARGIN <= l)%Q /\ (inject_Z MARGIN <= t)%Q.
Proof.
  rewrite positionBox_boxPos. eexists. eexists. split; [reflexivity|].
  split; apply clamp_between, Q.le_max_l.
Qed.

(** X1: [positionBox] never places the box closer than MARGIN to the left
    or top edge, and never beyond the limits [maxLeft] and [maxTop] it
    computes (or MARGIN, if they are smaller); a spot just below the rect
    that lies within these limits is taken as it is.  The limits are
    computed in doubles: when the differences involved are themselves
    doubles (integer coordinates, say), a box that leaves room for both
    margins ends at least MARGIN before the right and bottom edges and the
    spot [bottom + MARGIN] is used exactly; in general the rounding can
    leave the box short of that, as for a viewport 800 wide and a box of
    width 200.3, where the right margin is 2^-44 px too small. *)
Theorem positionBox_keeps_box_on_screen :
  (forall (d : Dom) (r : Rect) (s : State),
      let M := inject_Z MARGIN in
      let W := inject_Z (innerWidth d) in
      let H := inject_Z (innerHeight d) in
      let maxLeft := toDouble (toDouble (W - boxWidth d) - M) in
      let maxTop := toDouble (toDouble (H - boxHeight d) - M) in
      let desiredTop := toDouble (bottom r + M) in
      exists l t,
        boxPos (positionBox d (Some r) s) = Some (l, t)
        /\ (M <= l <= Qmax M maxLeft)%Q
        /\ (M <= t <= Qmax M maxTop)%Q
        /\ ((M <= left r <= maxLeft)%Q -> (l == left r)%Q)
        /\ ((M <= desiredTop <= maxTop)%Q -> (t == desiredTop)%Q)
        /\ (isDouble (W - boxWidth d) -> isDouble (W - boxWidth d - M) ->
            (boxWidth d + 2 * M <= W)%Q ->
            (l + boxWidth d + M <= W)%Q)
        /\ (isDouble (H - boxHeight d) -> isDouble (H - boxHeight d - M) ->
            (boxHeight d + 2 * M <= H)%Q ->
            (t + boxHeight d + M <= H)%Q)
        /\ (isDouble (H - boxHeight d) -> isDouble (H - boxHeight d - M) ->
            isDouble (bottom r + M) ->
            (0 <= bottom r)%Q ->
            (bottom r + M + boxHeight d + M <= H)%Q ->
            (t == bottom r + M)%Q))
  /\ (exists (d : Dom) (r : Rect) (s : State) (l t : Q),
        boxPos (positionBox d (Some r) s) = Some (l, t)
        /\ innerWidth d = 800
        /\ isDouble (boxWidth d)
        /\ (boxWidth d + 2 * inject_Z MARGIN <= 800)%Q
        /\ (l + boxWidth d + inject_Z MARGIN - 800 == 1 # 2 ^ 44)%Q).
Proof.
  split.
  - intros d r s M W H maxLeft maxTop desiredTop.
    rewrite positionBox_boxPos. eexists. eexists. split; [reflexivity|].
    fold M W H. fold maxLeft maxTop desiredTop.
    assert (HL : (M <= Qmax M maxLeft)%Q) by apply Q.le_max_l.
    assert (HT : (M <= Qmax M maxTop)%Q) by apply Q.le_max_l.
    pose proof (clamp_between (left r) M _ HL) as Hl.
    pose proof (clamp_between desiredTop M _ HT) as Ht.
    split; [exact Hl|]. split; [exact Ht|].
    split; [|split; [|split; [|split]]].
    + intros [Hlo Hhi]. apply clamp_inside. split; [exact Hlo|].
      eapply Qle_trans; [exact Hhi | apply Q.le_max_r].
    + intros [Hlo Hhi]. apply clamp_inside. split; [exact Hlo|].
      eapply Qle_trans; [exact Hhi | apply Q.le_max_r].
    + intros D1 D2 Hfit.
      pose proof (toDouble_sub_sub W (boxWidth d) M D1 D2) as E.
      fold maxLeft in E. clear D1 D2.
      clearbody maxLeft maxTop desiredTop. clearbody W H M.
      assert (Hm : (Qmax M maxLeft <= maxLeft)%Q).
      { apply Q.max_lub; [lra | apply Qle_refl]. }
      lra.
    + intros D1 D2 Hfit.
      pose proof (toDouble_sub_sub H (boxHeight d) M D1 D2) as E.
      fold maxTop in E. clear D1 D2.
      clearbody maxLeft maxTop desiredTop. clearbody W H M.
      assert (Hm : (Qmax M maxTop <= maxTop)%Q).
      { apply Q.max_lub; [lra | apply Qle_refl]. }
      lra.
    + intros D1 D2 D3 Hlo Hfit.
      pose proof (toDouble_sub_sub H (boxHeight d) M D1 D2) as E.
      fold maxTop in E.
      pose proof (toDouble_exact _ D3) as Ed. fold desiredTop in Ed.
      clear D1 D2 D3. clearbody maxLeft maxTop desiredTop. clearbody W H M.
      rewrite <- Ed. apply clamp_inside. split; [lra|].
      eapply Qle_trans; [|apply Q.le_max_r]. lra.
  - exists fractionalBoxDom, rightEdgeRect, Content.initial.
    eexists. eexists. split; [apply positionBox_boxPos|].
    split; [reflexivity|]. split.
    + exists 3523714864696525, (-44). split; [reflexivity|].
      split; [lia|]. vm_compute. reflexivity.
    + split; vm_compute; [discriminate | reflexivity].
Qed.

Lemma positionBox_keeps_box_on_screen_witness :
  exists l t,
    boxPos (positionBox (selectedDom "abc")
              (Some (mkRect 10 10 200 30 190 20)) initial) = Some (l, t)
    /\ (l + 200 + 8 <= 800)%Q /\ (t + 40 + 8 <= 600)%Q
    /\ (l == 10)%Q /\ (t == 38)%Q
    /\ (t == toDouble (30 + inject_Z 8))%Q.
Proof.
  destruct (proj1 positionBox_keeps_box_on_screen (selectedDom "abc")
              (mkRect 10 10 200 30 190 20) initial)
    as [l [t [Hp [_ [_ [Hl [Hd [Hw [Hh Ht]]]]]]]]].
  assert (D1 : isDouble (inject_Z 800 - 200)).
  { exists 600, 0. split; [reflexivity|]. split; [lia|].
    vm_compute. reflexivity. }
  assert (D2 : isDouble (inject_Z 800 - 200 - inject_Z 8)).
  { exists 592, 0. split; [reflexivity|]. split; [lia|].
    vm_compute. reflexivity. }
  assert (D3 : isDouble (inject_Z 600 - 40)).
  { exists 560, 0. split; [reflexivity|]. split; [lia|].
    vm_compute. reflexivity. }
  assert (D4 : isDouble (inject_Z 600 - 40 - inject_Z 8)).
  { exists 552, 0. split; [reflexivity|]. split; [lia|].
    vm_compute. reflexivity. }
  assert (D5 : isDouble (30 + inject_Z 8)).
  { exists 38, 0. split; [reflexivity|]. split; [lia|].
    vm_compute. reflexivity. }
  exists l, t. split; [exact Hp|].
  split; [apply (Hw D1 D2); vm_compute; discriminate|].
  split; [apply (Hh D3 D4); vm_compute; discriminate|].
  split; [apply Hl; split; vm_compute; discriminate|].
  split; [apply (Ht D3 D4 D5); vm_compute; discriminate|].
  apply Hd; split; vm_compute; discriminate.
Defined.

Lemma resolveAnchor_rect (d : Dom) (s : State) :
  snd (resolveAnchor d s) = true ->
  exists r, fst (resolveAnchor d s) = Some r.
Proof.
  unfold resolveAnchor. destruct (rectVisible d) eqn:Hv; simpl.
  - intros _. unfold rectVisible in Hv.
    destruct (getSelectionRect d) as [r|]; [|discriminate]. now exists r.
  - destruct (anySelectionOrPinned d s); simpl; [|discriminate].
    intros _. now eexists.
Qed.

Lemma update_boxPos (d : Dom) (s : State) :
  boxPos (update d s)
  = if snd (resolveAnchor d s)
    then boxPos (positionBox d (fst (resolveAnchor d s)) s)
    else boxPos s.
Proof.
  unfold update. destruct (resolveAnchor d s) as [rect selVisible]. simpl.
  destruct (negb (JS.eqb (currentSelText d s) (lastSelectionText s)));
    destruct selVisible; destruct rect; simpl; case_ifs; auto.
Qed.

(** X2: a popup that a tick leaves displayed while the pointer is not inside
    it has been placed by that very tick, at least MARGIN away from the left
    and top edges; a pinned popup is placed on every tick. *)
Theorem shown_popup_is_placed (d : Dom) (s : State) :
  (display (update d s) = true -> insidePopup s = false ->
   exists l t,
     boxPos (update d s) = Some (l, t)
     /\ (inject_Z MARGIN <= l)%Q /\ (inject_Z MARGIN <= t)%Q)
  /\ (pinned s = true ->
      exists r, fst (resolveAnchor d s) = Some r
                /\ boxPos (update d s) = boxPos (positionBox d (Some r) s)).
Proof.
  assert (Hplaced : snd (resolveAnchor d s) = true ->
                    exists r, fst (resolveAnchor d s) = Some r
                              /\ boxPos (update d s)
                                 = boxPos (positionBox d (Some r) s)).
  { intros Hv. destruct (resolveAnchor_rect d s Hv) as [r Hr].
    exists r. split; [exact Hr|]. now rewrite update_boxPos, Hv, Hr. }
  split.
  - intros Hshow Hin.
    pose proof (update_display d s) as Hd.
    destruct (update_keeps_inputs d s) as [Hp [Hm Hi]].
    assert (Hv : snd (resolveAnchor d s) = true).
    { rewrite Hd in Hshow. unfold shouldShowOf in Hshow.
      rewrite Hp, Hm, Hi, Hin in Hshow.
      destruct (snd (resolveAnchor d s)) eqn:E; [reflexivity|].
      destruct (pinned s) eqn:Ep.
      - unfold resolveAnchor, anySelectionOrPinned in E. rewrite Ep in E.
        destruct (rectVisible d); simpl in E;
          [discriminate | rewrite orb_true_r in E; discriminate].
      - rewrite andb_false_r in Hshow. simpl in Hshow.
        rewrite andb_false_r in Hshow. discriminate. }
    destruct (Hplaced Hv) as [r [_ Hb]].
    destruct (positionBox_margins d r s) as [l [t [Hpos [Hl Ht]]]].
    exists l, t. rewrite Hb. repeat split; assumption.
  - intros Hp. apply Hplaced.
    unfold resolveAnchor, anySelectionOrPinned. rewrite Hp.
    destruct (rectVisible d); simpl; [reflexivity|].
    now rewrite orb_true_r.
Qed.

Lemma shown_popup_is_placed_witness :
  (exists l t,
      boxPos (update (selectedDom "abc") initial) = Some (l, t)
      /\ (inject_Z MARGIN <= l)%Q /\ (inject_Z MARGIN <= t)%Q)
  /\ (exists r,
        fst (resolveAnchor emptyDom pinnedState) = Some r
        /\ boxPos (update emptyDom pinnedState)
           = boxPos (positionBox emptyDom (Some r) pinnedState)).
Proof.
  split.
  - apply (proj1 (shown_popup_is_placed (selectedDom "abc") initial));
      reflexivity.
  - apply (proj2 (shown_popup_is_placed emptyDom pinnedState)). reflexivity.
Defined.

End Placement.

(* ------------------------------------------------------------------ *)
(** ** Further properties of the controller: signals and scheduling *)

Section Signals.
Import JS Content Scenario Lifecycle.

Lemma Qgtb_inject_Z (a b : Z) :
  Qgtb (inject_Z a) (inject_Z b) = true <-> b < a.
Proof.
  rewrite Qgtb_true. now rewrite <- Zlt_Qlt.
Qed.

(** X3: the synthetic corner rect that the fallback declares visible does
    intersect the viewport exactly when the viewport is more than MARGIN
    pixels wide and high. *)
Theorem cornerRect_on_screen (d : Dom) :
  rectIntersectsViewport d (cornerRect d) = true
  <-> MARGIN < innerWidth d /\ MARGIN < innerHeight d.
Proof.
  unfold rectIntersectsViewport, cornerRect, Qltb. simpl.
  change 0%Q with (inject_Z 0).
  rewrite !andb_true_iff, !Qgtb_inject_Z. unfold MARGIN. lia.
Qed.

(** X4: with a selection object present, a rect from the resolver implies
    that [hasSelection] holds, so the tick treats the anchor as visible (on
    screen or in the corner); without a selection object [hasSelection] is
    false whatever the overlay holds. *)
Theorem resolved_rect_is_anchored (d : Dom) :
  (forall r s,
      getSelection d <> None -> getSelectionRect d = Some r ->
      hasSelection d = true /\ snd (resolveAnchor d s) = true)
  /\ (getSelection d = None -> hasSelection d = false).
Proof.
  split.
  - intros r s Hsel Hr.
    assert (Hh : hasSelection d = true).
    { unfold hasSelection. unfold getSelectionRect, liveRange in Hr.
      destruct (getSelection d) as [sel|]; [|congruence].
      destruct ((0 <? List.length (trim (selToString sel)))%nat);
        [reflexivity|].
      unfold rangeCount.
      destruct (selRanges sel) as [|r0 rest], (isCollapsed sel); simpl in *;
        try reflexivity;
        unfold overlayRect in Hr;
        destruct (overlayBlocks d) as [[|b0 bs]|]; congruence. }
    split; [exact Hh|].
    unfold resolveAnchor, anySelectionOrPinned. rewrite Hh.
    destruct (rectVisible d); reflexivity.
  - intros H. unfold hasSelection. now rewrite H.
Qed.

Lemma resolved_rect_is_anchored_witness :
  (hasSelection overlayDom = true
   /\ snd (resolveAnchor overlayDom initial) = true)
  /\ hasSelection (mkDom None (Some [mkRect 10 20 110 40 100 20])
                         800 600 200 40) = false.
Proof.
  split.
  - apply (proj1 (resolved_rect_is_anchored overlayDom)
             (mkRect 10 40 60 60 50 20) initial);
      [discriminate | reflexivity].
  - apply (proj2 (resolved_rect_is_anchored _)). reflexivity.
Defined.

Lemma update_signals (d : Dom) (s : State) :
  let show := display (update d s) in
  lastVisible (update d s) = show
  /\ dispatched (update d s)
     = dispatched s
       ++ (if Bool.eqb show (lastVisible s) then []
           else [if show then PopupOpen else PopupClose]).
Proof.
  unfold update. destruct (resolveAnchor d s) as [rect selVisible].
  destruct (negb (JS.eqb (currentSelText d s) (lastSelectionText s)));
    destruct selVisible; destruct rect; simpl;
    match goal with
    | |- context [Bool.eqb ?a (lastVisible s)] =>
        destruct a eqn:Ea; destruct (lastVisible s) eqn:El; simpl;
        rewrite ?El, ?app_nil_r; split; reflexivity
    end.
Qed.

Lemma step_keeps_signals (e : Event) (s : State) :
  (forall d, e <> Tick d) -> isForceClose e = false ->
  dispatched (step e s) = dispatched s
  /\ lastVisible (step e s) = lastVisible s.
Proof.
  intros Ht Hf. destruct e; simpl in *; try discriminate;
    try (split; reflexivity).
  now elim (Ht d).
Qed.

Lemma step_alternating (e : Event) (s : State) :
  isForceClose e = false ->
  Alternating (dispatched s) (lastVisible s) ->
  Alternating (dispatched (step e s)) (lastVisible (step e s)).
Proof.
  intros Hf Halt. destruct e; simpl in Hf; try discriminate;
    try exact Halt.
  simpl. destruct (update_signals d s) as [Hl Hd]. rewrite Hl, Hd.
  destruct (display (update d s)), (lastVisible s); simpl;
    rewrite ?app_nil_r; try exact Halt; now constructor.
Qed.

(** X5: as long as no force-close occurs, [popup:open] and [popup:close]
    are sent strictly in turn, beginning with [popup:open], and the last
    signal sent tells whether the popup is shown: every tick leaves
    [lastVisible] equal to the display state and sends a signal only when
    that state has changed. *)
Theorem signals_alternate :
  (forall es s,
      Forall (fun e => isForceClose e = false) es ->
      Alternating (dispatched s) (lastVisible s) ->
      Alternating (dispatched (run es s)) (lastVisible (run es s)))
  /\ Alternating (dispatched initial) (lastVisible initial)
  /\ (forall d s,
        lastVisible (update d s) = display (update d s)
        /\ (display (update d s) = lastVisible s ->
            dispatched (update d s) = dispatched s)).
Proof.
  split; [|split].
  - induction es as [|e es IH]; intros s Hall Halt; [exact Halt|].
    inversion Hall as [|? ? He Hrest]; subst.
    change (run (e :: es) s) with (run es (step e s)).
    apply IH; [exact Hrest|]. now apply step_alternating.
  - constructor.
  - intros d s. destruct (update_signals d s) as [Hl Hd].
    split; [exact Hl|]. intros E. rewrite Hd, E.
    rewrite Bool.eqb_reflx. apply app_nil_r.
Qed.

Lemma signals_alternate_witness :
  Alternating
    (dispatched (run [Tick (selectedDom "abc"); MouseDown;
                      Tick (selectedDom "abc"); MouseUp;
                      Tick (selectedDom "abc"); Tick emptyDom] initial))
    (lastVisible (run [Tick (selectedDom "abc"); MouseDown;
                       Tick (selectedDom "abc"); MouseUp;
                       Tick (selectedDom "abc"); Tick emptyDom] initial))
  /\ dispatched (update (selectedDom "abc") observedAbc)
     = dispatched observedAbc.
Proof.
  destruct signals_alternate as [Hrun [Hinit Htick]]. split.
  - apply Hrun; [repeat constructor | exact Hinit].
  - apply (proj2 (Htick (selectedDom "abc") observedAbc)). reflexivity.
Defined.

(** X6: a force-close sends no signal and marks the popup as not shown, so
    the tick that follows sends [popup:open] if it shows the popup again
    and nothing otherwise: a force-closed popup is never followed by
    [popup:close]. *)
Theorem forceClose_sends_no_close (d : Dom) (s : State) :
  dispatched (step PopupForceClose s) = dispatched s
  /\ display (step PopupForceClose s) = false
  /\ dispatched (run [PopupForceClose; Tick d] s)
     = dispatched s
       ++ (if display (run [PopupForceClose; Tick d] s)
           then [PopupOpen] else []).
Proof.
  split; [reflexivity|]. split; [reflexivity|].
  unfold run. simpl.
  destruct (update_signals d (onForceClose s)) as [_ Hd]. rewrite Hd.
  simpl. destruct (display (update d (onForceClose s))); reflexivity.
Qed.

End Signals.

Section Debounce.
Import JS Content Scenario Scheduler.

Lemma scheduleUpdate_queue (id : positive) (s : Sched) :
  queueMatchesRafId s ->
  queueMatchesRafId (scheduleUpdate id s)
  /\ rafId (scheduleUpdate id s) <> 0
  /\ ctl (scheduleUpdate id s) = ctl s.
Proof.
  unfold queueMatchesRafId, scheduleUpdate. intros H.
  destruct (rafId s =? 0) eqn:E; simpl.
  - rewrite H. repeat split. discriminate.
  - rewrite E. repeat split; [exact H|]. now apply Z.eqb_neq.
Qed.

Lemma input_queue (i : Input) (s : Sched) :
  queueMatchesRafId s -> queueMatchesRafId (input i s).
Proof.
  intros H. destruct i; simpl; unfold handle;
    try (apply scheduleUpdate_queue; exact H); try exact H.
  unfold queueMatchesRafId in *. simpl.
  destruct (rafId s =? 0) eqn:E; rewrite H; simpl; [now rewrite E|].
  reflexivity.
Qed.

Lemma inputs_app (l1 l2 : list Input) (s : Sched) :
  inputs (l1 ++ l2) s = inputs l2 (inputs l1 s).
Proof. unfold inputs. apply fold_left_app. Qed.

Lemma inputs_between_frames (l : list Input) :
  forall s,
    queueMatchesRafId s ->
    Forall (fun i => isFrame i = false) l ->
    queueMatchesRafId (inputs l s)
    /\ ctl (inputs l s) = run (flat_map eventOf l) (ctl s)
    /\ (rafId (inputs l s) = 0
        <-> rafId s = 0 /\ existsb schedules l = false).
Proof.
  induction l as [|i l IH]; intros s Hq Hall.
  - simpl. repeat split; try assumption; tauto.
  - inversion Hall as [|? ? Hi Hrest]; subst.
    change (inputs (i :: l) s) with (inputs l (input i s)).
    destruct (IH (input i s) (input_queue i s Hq) Hrest) as [Hq' [Hc Hr]].
    split; [exact Hq'|]. split.
    + rewrite Hc. simpl. unfold run. rewrite fold_left_app.
      f_equal. destruct i; simpl in *; try discriminate; unfold handle;
        try (now rewrite (proj2 (proj2 (scheduleUpdate_queue _ _ Hq))));
        try reflexivity.
      * now destruct (scheduleUpdate_queue id
                        (mkSched (step MouseDown (ctl s)) (rafId s)
                                 (frameQueue s)) Hq) as [_ [_ ->]].
      * now destruct (scheduleUpdate_queue id
                        (mkSched (step MouseUp (ctl s)) (rafId s)
                                 (frameQueue s)) Hq) as [_ [_ ->]].
      * now destruct (scheduleUpdate_queue id
                        (mkSched (step (PopupPin detailPinned) (ctl s))
                                 (rafId s) (frameQueue s)) Hq) as [_ [_ ->]].
      * now destruct (scheduleUpdate_queue id
                        (mkSched (step PopupForceClose (ctl s)) (rafId s)
                                 (frameQueue s)) Hq) as [_ [_ ->]].
    + rewrite Hr. simpl.
      destruct i; simpl in *; try discriminate; unfold handle;
        try (split; [intros [H _]; exfalso; revert H;
                     apply scheduleUpdate_queue; exact Hq
                    | intros [_ H]; discriminate H]);
        tauto.
Qed.

(** X7: however many listeners fire between two animation frames, at most
    one callback is queued; if at least one of them schedules, the next
    frame runs [update] exactly once, on the state the handlers have left,
    and leaves nothing scheduled; if none schedules, the frame runs
    nothing. *)
Theorem updates_are_debounced (l : list Input) (d : Dom) (s : Sched) :
  idle s ->
  Forall (fun i => isFrame i = false) l ->
  (frameQueue (inputs l s) <= 1)%nat
  /\ idle (inputs (l ++ [Frame d]) s)
  /\ ctl (inputs (l ++ [Frame d]) s)
     = if existsb schedules l
       then update d (run (flat_map eventOf l) (ctl s))
       else run (flat_map eventOf l) (ctl s).
Proof.
  intros [Hr Hq] Hall.
  assert (Hm : queueMatchesRafId s)
    by (unfold queueMatchesRafId; now rewrite Hr, Hq).
  destruct (inputs_between_frames l s Hm Hall) as [Hq' [Hc Hz]].
  rewrite inputs_app. set (s1 := inputs l s) in *.
  change (inputs [Frame d] s1) with (input (Frame d) s1).
  unfold queueMatchesRafId in Hq'. unfold idle, input.
  destruct (existsb schedules l) eqn:E.
  - assert (Hnz : (rafId s1 =? 0) = false).
    { apply Z.eqb_neq. intros H0. apply Hz in H0. destruct H0. discriminate. }
    rewrite Hnz in Hq'. rewrite Hq'. simpl.
    split; [lia|]. split; [split; reflexivity|]. now rewrite Hc.
  - assert (Hz0 : rafId s1 = 0) by (apply Hz; now split).
    rewrite Hz0 in Hq'. simpl in Hq'. rewrite Hq'. simpl.
    split; [lia|]. split; [split; [exact Hz0 | reflexivity]|]. exact Hc.
Qed.

Lemma updates_are_debounced_witness :
  let burst := [Notify 7; InMouseDown 8; Notify 9; InMouseUp 10; Notify 11] in
  let s := mkSched observedAbc 0 0 in
  (frameQueue (inputs burst s) <= 1)%nat
  /\ idle (inputs (burst ++ [Frame (selectedDom "xyz")]) s)
  /\ ctl (inputs (burst ++ [Frame (selectedDom "xyz")]) s)
     = update (selectedDom "xyz") observedAbc.
Proof.
  intros burst s.
  destruct (updates_are_debounced burst (selectedDom "xyz") s)
    as [Hq [Hi Hc]].
  - split; reflexivity.
  - repeat constructor.
  - split; [exact Hq|]. split; [exact Hi|]. rewrite Hc. reflexivity.
Defined.

End Debounce.

(* ------------------------------------------------------------------ *)
(** ** Further properties of the response controller *)

Section IncrementalNormalization.
Import JS Popup Scenario.

Lemma isWhiteSpace_period : isWhiteSpace 46 = false.
Proof. reflexivity. Qed.

Lemma replaceFrom_false_head (a : N) (s : jsstring) :
  exists rest, replaceFrom false (a :: s) = a :: rest.
Proof.
  simpl. destruct ((a =? 46)%N && startsWithTwoWhiteSpace s) eqn:E.
  - apply andb_true_iff in E as [Ea _]. apply N.eqb_eq in Ea. subst a.
    now eexists.
  - now eexists.
Qed.

Lemma startsWithTwoWhiteSpace_app (x t : jsstring) :
  startsWithTwoWhiteSpace x = true ->
  startsWithTwoWhiteSpace (x ++ t) = true.
Proof. destruct x as [|a [|b x]]; simpl; congruence. Qed.

Lemma startsWithTwoWhiteSpace_replaced (x t : jsstring) :
  startsWithTwoWhiteSpace x = false ->
  startsWithTwoWhiteSpace (replaceFrom false x ++ t)
  = startsWithTwoWhiteSpace (x ++ t).
Proof.
  intros H. destruct x as [|a [|b x]];
    [reflexivity | simpl; now rewrite andb_false_r |].
  simpl in H.
  destruct (replaceFrom_false_head a (b :: x)) as [rest Hr]. rewrite Hr.
  destruct (isWhiteSpace a) eqn:Ea.
  - simpl in H.
    assert (Ha : (a =? 46)%N = false).
    { destruct (a =? 46)%N eqn:E; [|reflexivity].
      apply N.eqb_eq in E. subst a. discriminate Ea. }
    simpl in Hr. rewrite Ha in Hr. simpl in Hr.
    destruct (replaceFrom_false_head b x) as [rest' Hr'].
    simpl in Hr'. rewrite Hr' in Hr. injection Hr as <-.
    simpl. now rewrite Ea, H.
  - simpl. rewrite Ea. destruct (rest ++ t); reflexivity.
Qed.

Lemma replaceFrom_short (x t : jsstring) :
  startsWithTwoWhiteSpace x = false ->
  startsWithTwoWhiteSpace (x ++ t) = true ->
  replaceFrom false x = x.
Proof.
  intros H Ht. destruct x as [|a [|b x]]; [reflexivity| |].
  - simpl. now rewrite andb_false_r.
  - simpl in H, Ht. congruence.
Qed.

Lemma replaceFrom_true_nonspace (c : N) (s : jsstring) :
  isWhiteSpace c = false ->
  replaceFrom true (c :: s) = replaceFrom false (c :: s).
Proof. intros H. simpl. now rewrite H. Qed.

Lemma replaceFrom_incremental (x : jsstring) :
  (forall t, replaceFrom false (replaceFrom false x ++ t)
             = replaceFrom false (x ++ t))
  /\ (forall t, replaceFrom true (replaceFrom true x ++ t)
                = replaceFrom true (x ++ t)).
Proof.
  induction x as [|c x [IHf IHt]]; [split; reflexivity|].
  assert (A : forall t, replaceFrom false (replaceFrom false (c :: x) ++ t)
                        = replaceFrom false ((c :: x) ++ t)).
  { intros t. cbn [replaceFrom app andb].
    destruct ((c =? 46)%N && startsWithTwoWhiteSpace x) eqn:E.
    - apply andb_true_iff in E as [Ec Ex].
      rewrite Ec, (startsWithTwoWhiteSpace_app x t Ex).
      cbn [replaceFrom app andb]. simpl. now rewrite IHt.
    - cbn [replaceFrom app andb].
      destruct (c =? 46)%N eqn:Ec; simpl in E |- *.
      + rewrite (startsWithTwoWhiteSpace_replaced x t E).
        destruct (startsWithTwoWhiteSpace (x ++ t)) eqn:Et.
        * now rewrite (replaceFrom_short x t E Et).
        * now rewrite IHf.
      + now rewrite IHf. }
  split; [exact A|].
  intros t. destruct (isWhiteSpace c) eqn:Ec.
  - simpl. rewrite Ec. apply IHt.
  - rewrite (replaceFrom_true_nonspace c x Ec).
    destruct (replaceFrom_false_head c x) as [rest Hr].
    change ((c :: x) ++ t) with (c :: (x ++ t)).
    rewrite (replaceFrom_true_nonspace c (x ++ t) Ec).
    change (c :: x ++ t) with ((c :: x) ++ t).
    rewrite <- (A t). rewrite Hr.
    change ((c :: rest) ++ t) with (c :: (rest ++ t)).
    apply (replaceFrom_true_nonspace c (rest ++ t) Ec).
Qed.

Lemma tokens_response (tokens : list jsstring) :
  forall s buffer,
    response s = normalize buffer ->
    response (run (map Token tokens) s)
    = normalize (buffer ++ List.concat tokens).
Proof.
  induction tokens as [|t tokens IH]; intros s buffer H.
  - simpl. now rewrite app_nil_r.
  - change (run (map Token (t :: tokens)) s)
      with (run (map Token tokens) (onToken t s)).
    rewrite (IH (onToken t s) (buffer ++ t)).
    + simpl. now rewrite app_assoc.
    + unfold onToken. simpl.
      assert (E : (if truthy (response s) then response s ++ t else t)
                  = response s ++ t) by (destruct (response s); reflexivity).
      rewrite E, H. apply (proj1 (replaceFrom_incremental buffer)).
Qed.

(** X8: normalising a buffer that was normalised before each earlier token
    gives what normalising the whole text gives: the rule is idempotent,
    appending to a normalised buffer and normalising again equals
    normalising the concatenation, and after any token sequence the
    response is the normalisation of all tokens joined. *)
Theorem incremental_normalization_is_whole_text :
  (forall x t, normalize (normalize x ++ t) = normalize (x ++ t))
  /\ (forall x, normalize (normalize x) = normalize x)
  /\ (forall tokens s,
        response s = [] ->
        response (run (map Token tokens) s)
        = normalize (List.concat tokens)).
Proof.
  split; [|split].
  - intros x. apply (proj1 (replaceFrom_incremental x)).
  - intros x.
    pose proof (proj1 (replaceFrom_incremental x) []) as H.
    now rewrite !app_nil_r in H.
  - intros tokens s H. apply (tokens_response tokens s []). exact H.
Qed.

Lemma incremental_normalization_is_whole_text_witness :
  response (run (map Token [js "One.  "; js "  Two. "; js " Three"])
                (callGemini (Text (js "prompt")) initial))
  = normalize (js "One.    Two.  Three").
Proof.
  apply (proj2 (proj2 incremental_normalization_is_whole_text)
           [js "One.  "; js "  Two. "; js " Three"]).
  reflexivity.
Defined.

End IncrementalNormalization.

(* ------------------------------------------------------------------ *)
(** ** Further properties of the response controller: one request *)

Section RequestLifecycle.
Import JS Popup Scenario PopupFacts.

Lemma truthy_nonempty (x : jsstring) : truthy x = true <-> x <> [].
Proof. destruct x; simpl; split; congruence. Qed.

Lemma render_keeps (s : State) :
  history (render s) = history s /\ appendedOnce (render s) = appendedOnce s
  /\ requests (render s) = requests s
  /\ requestTimes (render s) = requestTimes s
  /\ error (render s) = error s /\ loading (render s) = loading s
  /\ response (render s) = response s
  /\ limitReached (render s) = limitReached s
  /\ originalSelection (render s) = originalSelection s.
Proof.
  unfold render. destruct (JS.eqb (response s) (renderedResponse s));
    repeat split.
Qed.

(** After a render the ref holds the response, provided it held the
    previously rendered response before (which only [resetState] undoes). *)
Lemma render_responseRef (s : State) :
  responseRef s = renderedResponse s ->
  responseRef (render s) = response s
  /\ renderedResponse (render s) = response s.
Proof.
  intros H. unfold render.
  destruct (JS.eqb (response s) (renderedResponse s)) eqn:E.
  - apply jsstring_eqb_eq in E. rewrite H, E. now split.
  - now split.
Qed.

Lemma onDone_history (status : LimitStatus) (s : State) :
  history (onDone status s)
  = history s
    ++ (if truthy (trim (responseRef s)) && negb (appendedOnce s)
        then [mkEntry Assistant (trim (responseRef s))] else [])
  /\ appendedOnce (onDone status s)
     = appendedOnce s || truthy (trim (responseRef s))
  /\ responseRef (onDone status s) = responseRef s
  /\ response (onDone status s) = response s
  /\ renderedResponse (onDone status s) = renderedResponse s
  /\ loading (onDone status s) = false
  /\ error (onDone status s) = error s.
Proof.
  unfold onDone, refreshLimit, appendAssistantOnce. simpl.
  destruct (truthy (trim (responseRef s)));
    destruct (appendedOnce s) eqn:Ea;
    simpl; rewrite ?app_nil_r, ?Ea; repeat split.
Qed.

(** Once the flag of the request is set, no callback, render or timer
    touches the history or clears the flag. *)
Lemma answered_request_event (op : Op) (s : State) :
  isRequestEvent op = true -> appendedOnce s = true ->
  history (step op s) = history s /\ appendedOnce (step op s) = true.
Proof.
  intros Hop Ha. destruct op; simpl in Hop; try discriminate; cbn [step].
  - now split.
  - destruct (onDone_history status s) as [Hh [Hf _]].
    rewrite Hh, Hf, Ha, andb_false_r, app_nil_r. now split.
  - unfold onError. destruct (is429 message).
    + unfold showRateLimited. simpl. rewrite Ha. simpl. now split.
    + destruct fb as [out|message2].
      * unfold refreshLimit, appendAssistantOnce. simpl.
        rewrite Ha, andb_false_r. simpl. now split.
      * destruct (is429 message2); [|now split].
        unfold showRateLimited. simpl. rewrite Ha. simpl. now split.
  - unfold onCatch. destruct (is429 message); [|now split].
    unfold showRateLimited. simpl. rewrite Ha. simpl. now split.
  - unfold limitTick. destruct (0 <? limitReached s); now split.
  - unfold captureSelectionRange.
    destruct (truthy (trim selectionText)); now split.
  - now split.
  - now split.
  - now split.
  - destruct (render_keeps s) as [Hh [Hf _]]. now rewrite Hh, Hf.
Qed.

Lemma answered_request_events (ops : list Op) :
  forall s,
    Forall (fun op => isRequestEvent op = true) ops ->
    appendedOnce s = true ->
    history (run ops s) = history s /\ appendedOnce (run ops s) = true.
Proof.
  induction ops as [|op ops IH]; intros s Hall Ha; [now split|].
  inversion Hall as [|? ? Hop Hrest]; subst.
  change (run (op :: ops) s) with (run ops (step op s)).
  destruct (answered_request_event op s Hop Ha) as [Hh Hf].
  destruct (IH (step op s) Hrest Hf) as [Hh' Hf'].
  split; [now rewrite Hh', Hh | exact Hf'].
Qed.

(** X9: the stream client reports completion twice, at the [DONE] event and
    at the end of the body, with a read of the body in between.  [onDone]
    takes the answer from [responseRef], which only a render fills, and only
    when the response differs from the one rendered before.  If the first
    call appended the answer (or found the flag set), no later callback,
    render or second completion changes the history; without a render
    between them the second call never appends; but when the first call
    found the ref blank and a render then shows a non-blank response, it is
    the second call that appends the answer.  A reset empties the ref, so a
    completion that follows it directly records nothing. *)
Theorem onDone_twice (status1 status2 : LimitStatus) (s : State) :
  (forall between,
      Forall (fun op => isRequestEvent op = true) between ->
      appendedOnce (onDone status1 s) = true ->
      history (run (Done status1 :: between ++ [Done status2]) s)
      = history (onDone status1 s))
  /\ history (run [Done status1; Done status2] s)
     = history (onDone status1 s)
  /\ (appendedOnce s = false ->
      trim (responseRef s) = [] ->
      response s <> renderedResponse s ->
      trim (response s) <> [] ->
      history (onDone status1 s) = history s
      /\ history (run [Done status1; Render; Done status2] s)
         = history s ++ [mkEntry Assistant (trim (response s))])
  /\ (response s = renderedResponse s -> step Render s = s)
  /\ (response s <> renderedResponse s ->
      responseRef (step Render s) = response s
      /\ renderedResponse (step Render s) = response s
      /\ response (step Render s) = response s)
  /\ (responseRef (step Reset s) = []
      /\ history (run [Reset; Done status1] s) = []).
Proof.
  destruct (onDone_history status1 s) as [H1 [F1 [R1 [P1 [Q1 _]]]]].
  split; [|split; [|split; [|split; [|split]]]].
  - intros between Hall Ha.
    change (run (Done status1 :: between ++ [Done status2]) s)
      with (run (between ++ [Done status2]) (onDone status1 s)).
    apply (answered_request_events (between ++ [Done status2])
             (onDone status1 s)); [|exact Ha].
    apply Forall_app. split; [exact Hall | now repeat constructor].
  - change (run [Done status1; Done status2] s)
      with (onDone status2 (onDone status1 s)).
    destruct (onDone_history status2 (onDone status1 s)) as [H2 _].
    rewrite H2, R1, F1.
    destruct (truthy (trim (responseRef s))); destruct (appendedOnce s);
      simpl; now rewrite app_nil_r.
  - intros Ha Hblank Hfresh Htext.
    assert (E1 : history (onDone status1 s) = history s).
    { rewrite H1, Hblank. simpl. now rewrite app_nil_r. }
    split; [exact E1|].
    change (run [Done status1; Render; Done status2] s)
      with (onDone status2 (render (onDone status1 s))).
    set (s1 := onDone status1 s) in *.
    assert (Er : responseRef (render s1) = response s).
    { unfold render. rewrite P1, Q1.
      apply jsstring_eqb_neq in Hfresh. rewrite Hfresh. reflexivity. }
    destruct (render_keeps s1) as [Kh [Ka _]].
    destruct (onDone_history status2 (render s1)) as [H2 _].
    rewrite H2, Er, Ka, Kh, F1, Ha, Hblank, E1.
    apply truthy_nonempty in Htext. rewrite Htext. reflexivity.
  - intros E. simpl. unfold render.
    apply jsstring_eqb_eq in E. now rewrite E.
  - intros E. simpl. unfold render.
    apply jsstring_eqb_neq in E. rewrite E. repeat split.
  - split; reflexivity.
Qed.

Lemma onDone_twice_witness :
  let waiting := onToken (js "Mass is energy.")
                   (callGemini (Text (js "prompt")) initial) in
  let answered := mkLimitStatus false 0 60000 in
  history (run [Done answered; Done answered] waiting) = []
  /\ history (run [Done answered; Render; Done answered] waiting)
     = [mkEntry Assistant (js "Mass is energy.")]
  /\ history (run (Done answered :: [Token (js " More"); Render]
                   ++ [Done answered]) (render waiting))
     = [mkEntry Assistant (js "Mass is energy.")]
  /\ step Render initial = initial
  /\ responseRef (step Render waiting) = js "Mass is energy.".
Proof.
  intros waiting answered.
  destruct (onDone_twice answered answered waiting)
    as [_ [Hsame [Hlate [_ [Hcopy _]]]]].
  destruct (onDone_twice answered answered (render waiting))
    as [Hfirst _].
  destruct (onDone_twice answered answered initial)
    as [_ [_ [_ [Hidle _]]]].
  split; [|split; [|split; [|split]]].
  - rewrite Hsame. reflexivity.
  - apply Hlate; try reflexivity; vm_compute; discriminate.
  - rewrite (Hfirst [Token (js " More"); Render]);
      [| now repeat constructor | vm_compute; reflexivity].
    vm_compute. reflexivity.
  - apply Hidle. reflexivity.
  - apply Hcopy. vm_compute. discriminate.
Defined.

Lemma tokens_keep (tokens : list jsstring) :
  forall s,
    let s' := run (map Token tokens) s in
    history s' = history s /\ appendedOnce s' = appendedOnce s
    /\ requests s' = requests s /\ requestTimes s' = requestTimes s
    /\ error s' = error s /\ loading s' = loading s
    /\ responseRef s' = responseRef s
    /\ renderedResponse s' = renderedResponse s.
Proof.
  induction tokens as [|t tokens IH]; intros s; [repeat split|].
  change (run (map Token (t :: tokens)) s)
    with (run (map Token tokens) (onToken t s)).
  destruct (IH (onToken t s)) as [? [? [? [? [? [? [? ?]]]]]]].
  repeat split; assumption.
Qed.

Lemma run_app_ops (ops1 ops2 : list Op) (s : State) :
  run (ops1 ++ ops2) s = run ops2 (run ops1 s).
Proof. unfold run. apply fold_left_app. Qed.

Lemma callGemini_clears (p : PromptText) (s : State) :
  response (callGemini p s) = [] /\ appendedOnce (callGemini p s) = false
  /\ error (callGemini p s) = [] /\ loading (callGemini p s) = true
  /\ history (callGemini p s) = history s.
Proof. repeat split. Qed.

Lemma submission_starts_request (op : Op) (s : State) :
  isSubmission op = true ->
  (List.length (recentOf (submissionTime op) (requestTimes s))
   < RATE_LIMIT)%nat ->
  response (step op s) = [] /\ appendedOnce (step op s) = false
  /\ error (step op s) = []
  /\ responseRef (step op s) = responseRef s
  /\ renderedResponse (step op s) = renderedResponse s.
Proof.
  intros Hsub Hlen.
  pose proof (rateGate_passes _ _ Hlen) as Hg.
  destruct op; simpl in Hsub; try discriminate; simpl in Hg |- *.
  - unfold handleExplainClick. rewrite Hsub, Hg. repeat split.
  - unfold handleTopSearchSubmit. rewrite Hsub, Hg. repeat split.
  - unfold handleDeeperSubmit. rewrite Hsub, Hg. repeat split.
Qed.

Lemma stream_progress (before : list Op) :
  forall s buffer,
    Forall (fun op => isTokenOrRender op = true) before ->
    response s = normalize buffer ->
    responseRef s = renderedResponse s ->
    let s' := run before s in
    response s' = normalize (buffer ++ List.concat (tokensOf before))
    /\ responseRef s' = renderedResponse s'
    /\ history s' = history s /\ appendedOnce s' = appendedOnce s
    /\ error s' = error s /\ loading s' = loading s.
Proof.
  induction before as [|op before IH]; intros s buffer Hall Hr Hsync.
  - simpl. rewrite app_nil_r. repeat split; assumption.
  - inversion Hall as [|? ? Hop Hrest]; subst.
    change (run (op :: before) s) with (run before (step op s)).
    destruct op; simpl in Hop; try discriminate.
    + (* Token *)
      destruct (IH (step (Token t) s) (buffer ++ t) Hrest)
        as [A [B [C [D [E F]]]]].
      * pose proof (tokens_response [t] s buffer Hr) as K.
        simpl in K. now rewrite app_nil_r in K.
      * exact Hsync.
      * cbn [tokensOf List.concat]. rewrite app_assoc.
        repeat split; assumption.
    + (* Render *)
      destruct (render_keeps s) as [Kh [Ka [_ [_ [Ke [Kl [Kr _]]]]]]].
      destruct (render_responseRef s Hsync) as [R1 R2].
      destruct (IH (step Render s) buffer Hrest)
        as [A [B [C [D [E F]]]]].
      * simpl. now rewrite Kr.
      * simpl. now rewrite R1, R2.
      * cbn [tokensOf]. simpl in C, D, E, F.
        rewrite Kh in C. rewrite Ka in D. rewrite Ke in E. rewrite Kl in F.
        repeat split; assumption.
Qed.

(** X10: an accepted submission, the tokens of its stream with renders
    anywhere among them, a last render, further tokens, and completion:
    loading is off, there is no error, the response is the normalised text
    of all tokens, and the history is extended by the user entry of the
    submission and by the answer as the last render showed it, trimmed,
    when that is not blank.  So the full answer is recorded when the last
    render follows the last token, a cut-off answer when tokens arrive
    after the last render, and none when the last render came before the
    first token. *)
Theorem completed_request (op : Op) (before : list Op)
    (later : list jsstring) (status : LimitStatus) (s : State) :
  isSubmission op = true ->
  (List.length (recentOf (submissionTime op) (requestTimes s))
   < RATE_LIMIT)%nat ->
  responseRef s = renderedResponse s ->
  Forall (fun o => isTokenOrRender o = true) before ->
  let s' := run (op :: before ++ Render :: map Token later
                 ++ [Done status]) s in
  let text := normalize (List.concat (tokensOf before)) in
  loading s' = false
  /\ error s' = []
  /\ response s' = normalize (List.concat (tokensOf before ++ later))
  /\ exists userText,
      history (step op s) = history s ++ [mkEntry User userText]
      /\ history s'
         = history s ++ mkEntry User userText
             :: (if truthy (trim text) then [mkEntry Assistant (trim text)]
                 else []).
Proof.
  intros Hsub Hlen Hsync Hbefore s' text.
  destruct (submission_starts_request op s Hsub Hlen)
    as [Hr [Ha [He [Href Hren]]]].
  destruct (step_submission_passed op s _ Hsub (rateGate_passes _ _ Hlen))
    as [_ [_ [[userText Hh] _]]].
  set (s1 := step op s) in *.
  set (s2 := run before s1).
  set (s3 := render s2).
  set (s4 := run (map Token later) s3).
  assert (Es : s' = onDone status s4).
  { unfold s'.
    change (run (op :: before ++ Render :: map Token later
                 ++ [Done status]) s)
      with (run (before ++ Render :: map Token later ++ [Done status]) s1).
    rewrite run_app_ops. fold s2.
    change (run (Render :: map Token later ++ [Done status]) s2)
      with (run (map Token later ++ [Done status]) s3).
    now rewrite run_app_ops. }
  assert (Hsync1 : responseRef s1 = renderedResponse s1)
    by (rewrite Href, Hren; exact Hsync).
  destruct (stream_progress before s1 [] Hbefore Hr Hsync1)
    as [Kr [Hsync2 [Kh [Ka [Ke _]]]]].
  fold s2 in Kr, Hsync2, Kh, Ka, Ke. simpl in Kr. fold text in Kr.
  destruct (render_responseRef s2 Hsync2) as [Rref _]. fold s3 in Rref.
  destruct (render_keeps s2) as [Rh [Ra [_ [_ [Re [_ [Rr _]]]]]]].
  fold s3 in Rh, Ra, Re, Rr.
  destruct (tokens_keep later s3) as [Lh [La [_ [_ [Le [_ [Lref _]]]]]]].
  fold s4 in Lh, La, Le, Lref.
  assert (Lr : response s4
               = normalize (List.concat (tokensOf before ++ later))).
  { unfold s4.
    rewrite (tokens_response later s3 (List.concat (tokensOf before))).
    - now rewrite concat_app.
    - rewrite Rr. exact Kr. }
  destruct (onDone_history status s4) as [Dh [_ [_ [Dr [_ [Dl De]]]]]].
  rewrite Es. split; [exact Dl|].
  split; [now rewrite De, Le, Re, Ke|].
  split; [now rewrite Dr|].
  exists userText. split; [exact Hh|].
  rewrite Dh, Lref, Rref, Kr, La, Ra, Ka, Ha, Lh, Rh, Kh, Hh.
  rewrite andb_true_r, <- app_assoc. reflexivity.
Qed.

Lemma completed_request_witness :
  let s' := run (ExplainClick 0 relativityPage
                 :: [Render; Token (js "Mass "); Render;
                     Token (js "is energy.  ")]
                 ++ Render :: map Token [js "Really."]
                 ++ [Done (mkLimitStatus false 0 60000)]) initial in
  loading s' = false
  /\ error s' = []
  /\ response s' = js "Mass is energy." ++ [10%N; 10%N] ++ js "Really."
  /\ exists userText,
      history (step (ExplainClick 0 relativityPage) initial)
      = history initial ++ [mkEntry User userText]
      /\ history s'
         = [mkEntry User userText; mkEntry Assistant (js "Mass is energy.")].
Proof.
  exact (completed_request (ExplainClick 0 relativityPage)
           [Render; Token (js "Mass "); Render; Token (js "is energy.  ")]
           [js "Really."]
           (mkLimitStatus false 0 60000) initial eq_refl
           ltac:(vm_compute; lia) eq_refl
           ltac:(repeat constructor)).
Defined.

Lemma step_requestTimes (op : Op) (s : State) :
  requestTimes (step op s) = requestTimes s
  \/ (exists now,
         (List.length (recentOf now (requestTimes s)) < RATE_LIMIT)%nat
         /\ requestTimes (step op s) = recentOf now (requestTimes s) ++ [now]).
Proof.
  assert (Hgate : forall now,
             match rateGate now (requestTimes s) with
             | Rejected _ => True
             | Passed recent =>
                 (List.length (recentOf now (requestTimes s))
                  < RATE_LIMIT)%nat
                 /\ recent = recentOf now (requestTimes s) ++ [now]
             end).
  { intros now. unfold rateGate.
    destruct (RATE_LIMIT <=? List.length (recentOf now (requestTimes s)))%nat
      eqn:E; [exact I|]. apply Nat.leb_gt in E. now split. }
  destruct op; simpl;
    try (left; reflexivity).
  - unfold handleExplainClick.
    destruct (negb (truthy (explainText pg))); [now left|].
    specialize (Hgate now). destruct (rateGate now (requestTimes s));
      [now left|]. right. exists now. destruct Hgate as [Hl ->]. now split.
  - unfold handleTopSearchSubmit.
    destruct (negb (truthy (trim value))); [now left|].
    specialize (Hgate now). destruct (rateGate now (requestTimes s));
      [now left|]. right. exists now. destruct Hgate as [Hl ->]. now split.
  - unfold handleDeeperSubmit.
    destruct (negb (truthy (trim query))); [now left|].
    specialize (Hgate now). destruct (rateGate now (requestTimes s));
      [now left|]. right. exists now. destruct Hgate as [Hl ->]. now split.
  - unfold onDone, refreshLimit, appendAssistantOnce. simpl.
    destruct (truthy _ && negb _); now left.
  - unfold onError. destruct (is429 message).
    + unfold showRateLimited. simpl.
      destruct (negb (appendedOnce s)); now left.
    + destruct fb.
      * unfold refreshLimit, appendAssistantOnce. simpl.
        destruct (truthy _ && negb _); now left.
      * destruct (is429 message0); [|now left].
        unfold showRateLimited. simpl.
        destruct (negb (appendedOnce s)); now left.
  - unfold onCatch. destruct (is429 message); [|now left].
    unfold showRateLimited. simpl. destruct (negb (appendedOnce s)); now left.
  - unfold limitTick. destruct (0 <? limitReached s); now left.
  - unfold captureSelectionRange.
    destruct (truthy (trim selectionText)); now left.
  - left. apply render_keeps.
Qed.

Lemma windowKept_pass (now : Z) (times : list Z) :
  (List.length (recentOf now times) < RATE_LIMIT)%nat ->
  windowKept (recentOf now times ++ [now]).
Proof.
  intros Hlen. unfold windowKept. rewrite last_last, length_app. simpl.
  split; [lia|]. intros t Ht. apply in_app_or in Ht.
  destruct Ht as [Ht|[<-|[]]].
  - now apply recentOf_In in Ht.
  - unfold RATE_WINDOW_MS. lia.
Qed.

(** X11: whatever happens, the stored window holds at most RATE_LIMIT
    request times, and each of them was less than 60 s old when the newest
    one was recorded. *)
Theorem request_window_is_bounded (ops : list Op) (s : State) :
  windowKept (requestTimes s) ->
  windowKept (requestTimes (run ops s)).
Proof.
  revert s. induction ops as [|op ops IH]; intros s H; [exact H|].
  change (run (op :: ops) s) with (run ops (step op s)). apply IH.
  destruct (step_requestTimes op s) as [->|[now [Hlen ->]]];
    [exact H | now apply windowKept_pass].
Qed.

Lemma request_window_is_bounded_witness :
  windowKept
    (requestTimes
       (run [DeeperSubmit 0 (js "a"); DeeperSubmit 10 (js "b");
             DeeperSubmit 20 (js "c"); DeeperSubmit 30 (js "d");
             DeeperSubmit 40 (js "e"); DeeperSubmit 50 (js "f");
             Reset; DeeperSubmit 60010 (js "g")] initial)).
Proof.
  apply request_window_is_bounded. split; [simpl; lia | intros t []].
Defined.

(** X12: a submit handler called with blank input stops before the gate: no
    request is sent, the history and the stored request times stay as they
    are, so no slot of the rate limit is used; the two search handlers
    leave the whole state untouched and Explain only shows its hint. *)
Theorem blank_submission_is_ignored (op : Op) (s : State) :
  isSubmitHandler op = true -> isSubmission op = false ->
  requests (step op s) = requests s
  /\ history (step op s) = history s
  /\ requestTimes (step op s) = requestTimes s
  /\ loading (step op s) = loading s
  /\ match op with
     | ExplainClick _ _ =>
         error (step op s) = js "Please select some text to explain."
         /\ response (step op s) = []
     | _ => step op s = s
     end.
Proof.
  intros Hh Hs. destruct op; simpl in Hh, Hs; try discriminate; simpl.
  - unfold handleExplainClick. rewrite Hs. simpl. repeat split.
  - unfold handleTopSearchSubmit. rewrite Hs. simpl. repeat split.
  - unfold handleDeeperSubmit. rewrite Hs. simpl. repeat split.
Qed.

Lemma blank_submission_is_ignored_witness :
  requestTimes (step (ExplainClick 5 blankSelectionPage) fiveRecorded)
  = requestTimes fiveRecorded
  /\ step (DeeperSubmit 5 (js "   ")) fiveRecorded = fiveRecorded.
Proof.
  split.
  - apply (blank_submission_is_ignored (ExplainClick 5 blankSelectionPage)
             fiveRecorded eq_refl eq_refl).
  - apply (blank_submission_is_ignored (DeeperSubmit 5 (js "   "))
             fiveRecorded eq_refl eq_refl).
Defined.

Lemma step_originalSelection (op : Op) (s : State) :
  op <> Reset ->
  originalSelection (step op s) = originalSelection s
  \/ (exists t, op = CaptureSelection t /\ truthy (trim t) = true
                /\ originalSelection (step op s) = trim t).
Proof.
  intros Hop. destruct op; simpl; try (left; reflexivity).
  - unfold handleExplainClick.
    destruct (negb (truthy (explainText pg))); [now left|].
    destruct (rateGate now (requestTimes s)); now left.
  - unfold handleTopSearchSubmit.
    destruct (negb (truthy (trim value))); [now left|].
    destruct (rateGate now (requestTimes s)); now left.
  - unfold handleDeeperSubmit.
    destruct (negb (truthy (trim query))); [now left|].
    destruct (rateGate now (requestTimes s)); now left.
  - unfold onDone, refreshLimit, appendAssistantOnce. simpl.
    destruct (truthy _ && negb _); now left.
  - unfold onError. destruct (is429 message).
    + unfold showRateLimited. simpl.
      destruct (negb (appendedOnce s)); now left.
    + destruct fb.
      * unfold refreshLimit, appendAssistantOnce. simpl.
        destruct (truthy _ && negb _); now left.
      * destruct (is429 message0); [|now left].
        unfold showRateLimited. simpl.
        destruct (negb (appendedOnce s)); now left.
  - unfold onCatch. destruct (is429 message); [|now left].
    unfold showRateLimited. simpl. destruct (negb (appendedOnce s)); now left.
  - unfold limitTick. destruct (0 <? limitReached s); now left.
  - unfold captureSelectionRange.
    destruct (truthy (trim selectionText)) eqn:E; [|now left].
    right. exists selectionText. repeat split. exact E.
  - now elim Hop.
  - left. apply render_keeps.
Qed.

(** X13: the stored original selection is replaced only by a capture with
    non-blank text: short of a reset it never becomes empty again once it
    is set, and a capture of a blank selection changes nothing. *)
Theorem original_selection_is_kept :
  (forall ops s,
      Forall (fun op => op <> Reset) ops ->
      originalSelection s <> [] ->
      originalSelection (run ops s) <> [])
  /\ (forall t s, trim t = [] -> captureSelectionRange t s = s)
  /\ (forall t s, trim t <> [] ->
                  originalSelection (captureSelectionRange t s) = trim t).
Proof.
  split; [|split].
  - induction ops as [|op ops IH]; intros s Hall H; [exact H|].
    inversion Hall as [|? ? Hop Hrest]; subst.
    change (run (op :: ops) s) with (run ops (step op s)).
    apply IH; [exact Hrest|].
    destruct (step_originalSelection op s Hop) as [->|[t [_ [Ht ->]]]];
      [exact H | now apply truthy_nonempty].
  - intros t s H. unfold captureSelectionRange. now rewrite H.
  - intros t s H. unfold captureSelectionRange.
    apply truthy_nonempty in H. now rewrite H.
Qed.

Lemma original_selection_is_kept_witness :
  originalSelection
    (run [CaptureSelection (js "  "); ExplainClick 0 relativityPage;
          CaptureSelection []]
         (captureSelectionRange (js " E=mc2 ") initial)) <> []
  /\ captureSelectionRange (js "  ")
       (captureSelectionRange (js " E=mc2 ") initial)
     = captureSelectionRange (js " E=mc2 ") initial
  /\ originalSelection (captureSelectionRange (js " E=mc2 ") initial)
     = js "E=mc2".
Proof.
  destruct original_selection_is_kept as [Hrun [Hblank Hset]].
  split; [|split].
  - apply Hrun; [repeat constructor; discriminate|].
    vm_compute. discriminate.
  - apply Hblank. reflexivity.
  - apply (Hset (js " E=mc2 ") initial). vm_compute. discriminate.
Defined.

End RequestLifecycle.

(* ------------------------------------------------------------------ *)
(** ** The stream client *)

Section RateLimitDetection.
Import JS JSString Popup GeminiClient.

Lemma testFrom_here (prev : option N) (s : jsstring) :
  match429 prev s = true \/ matchTooManyRequests s = true ->
  testFrom prev s = true.
Proof.
  intros H.
  assert (E : testFrom prev s
              = match429 prev s || matchTooManyRequests s
                || match s with
                   | [] => false
                   | c :: s' => testFrom (Some c) s'
                   end) by (destruct s; reflexivity).
  rewrite E. destruct H as [H|H]; rewrite H; simpl;
    rewrite ?orb_true_r; reflexivity.
Qed.

Lemma testFrom_later (prefix : jsstring) :
  forall prev s,
    (forall p, testFrom p s = true) ->
    testFrom prev (prefix ++ s) = true.
Proof.
  induction prefix as [|c prefix IH]; intros prev s H; [apply H|].
  simpl. rewrite (IH (Some c) s H). now rewrite orb_true_r.
Qed.

(** X14: every failure message the client builds for an HTTP 429 response,
    of the streaming and of the full-response endpoint alike, passes the
    rate-limit test of the popup, whatever status text and detail the
    server sent; so does any message that contains "Too Many Requests";
    the empty message does not. *)
Theorem http_429_is_detected :
  (forall statusText, is429 (streamFailedMessage 429 statusText) = true)
  /\ (forall statusText detail,
        is429 (requestFailedMessage 429 statusText detail) = true)
  /\ (forall before after,
        is429 (before ++ js "Too Many Requests" ++ after) = true)
  /\ (forall status,
        is429 (streamFailedMessage status (js "Too Many Requests")) = true)
  /\ is429 [] = false.
Proof.
  assert (Hany : forall before after,
             is429 (before ++ js "Too Many Requests" ++ after) = true).
  { intros before after. unfold is429. apply testFrom_later.
    intros p. apply testFrom_here. right. reflexivity. }
  split; [|split; [|split; [|split]]].
  - intros statusText. reflexivity.
  - intros statusText detail. reflexivity.
  - exact Hany.
  - intros status. unfold streamFailedMessage.
    replace (js "Gemini stream failed: " ++ numberToString status
             ++ js " " ++ js "Too Many Requests")
      with ((js "Gemini stream failed: " ++ numberToString status ++ js " ")
            ++ js "Too Many Requests" ++ [])
      by (rewrite app_nil_r, <- !app_assoc; reflexivity).
    apply Hany.
  - reflexivity.
Qed.

End RateLimitDetection.

Section StreamReader.
Import JS JSString GeminiClient MoreScenario.

Variable parse : jsstring -> option jsstring.

Lemma drain_unfold (b : jsstring) :
  drain parse b
  = match indexOf eventSeparator b with
    | Some idx =>
        let '(callbacks, rest) := drain parse (skipn (idx + 2) b) in
        (processEvent parse (slice b 0 idx) ++ callbacks, rest)
    | None => ([], b)
    end.
Proof.
  funelim (drain parse b);
    match goal with
    | E : indexOf eventSeparator ?x = _ |- _ => now rewrite E
    end.
Qed.

Lemma startsWith_app_long (pattern : jsstring) :
  forall s t,
    (List.length pattern <= List.length s)%nat ->
    startsWith pattern (s ++ t) = startsWith pattern s.
Proof.
  induction pattern as [|p pattern IH]; intros s t H; [reflexivity|].
  destruct s as [|c s]; simpl in H; [lia|].
  simpl. rewrite IH by lia. reflexivity.
Qed.

Lemma indexOf_app (pattern s t : jsstring) :
  forall idx, indexOf pattern s = Some idx ->
              indexOf pattern (s ++ t) = Some idx.
Proof.
  induction s as [|c s IH]; intros idx H.
  - pose proof (indexOf_bound _ _ _ H) as Hb. simpl in Hb.
    assert (pattern = []) by (destruct pattern; [reflexivity|simpl in Hb; lia]).
    subst pattern. simpl in H. injection H as <-. now destruct t.
  - pose proof (indexOf_bound _ _ _ H) as Hb.
    cbn [indexOf] in H. change ((c :: s) ++ t) with (c :: (s ++ t)).
    cbn [indexOf].
    change (c :: (s ++ t)) with ((c :: s) ++ t).
    rewrite startsWith_app_long by lia.
    destruct (startsWith pattern (c :: s)); [exact H|].
    destruct (indexOf pattern s) as [i|]; simpl in H; [|discriminate].
    now rewrite (IH i eq_refl).
Qed.

Lemma drain_app (n : nat) :
  forall b c,
    (List.length b <= n)%nat ->
    drain parse (b ++ c)
    = let '(e1, r1) := drain parse b in
      let '(e2, r2) := drain parse (r1 ++ c) in
      (e1 ++ e2, r2).
Proof.
  induction n as [|n IH]; intros b c Hn.
  - destruct b; simpl in Hn; [|lia]. rewrite (drain_unfold []). simpl.
    now destruct (drain parse c).
  - rewrite (drain_unfold b). destruct (indexOf eventSeparator b) eqn:E.
    + pose proof (indexOf_bound _ _ _ E) as Hb. simpl in Hb.
      rewrite (drain_unfold (b ++ c)), (indexOf_app _ _ c _ E).
      assert (Hs : skipn (n0 + 2) (b ++ c) = skipn (n0 + 2) b ++ c).
      { rewrite skipn_app.
        replace (n0 + 2 - List.length b)%nat with 0%nat by lia.
        reflexivity. }
      assert (Hf : slice (b ++ c) 0 n0 = slice b 0 n0).
      { unfold slice. simpl. rewrite firstn_app.
        replace (n0 - 0 - List.length b)%nat with 0%nat by lia.
        simpl. apply app_nil_r. }
      rewrite Hs, Hf.
      rewrite (IH (skipn (n0 + 2) b) c) by (rewrite length_skipn; lia).
      destruct (drain parse (skipn (n0 + 2) b)) as [e1 r1].
      destruct (drain parse (r1 ++ c)) as [e2 r2].
      now rewrite app_assoc.
    + simpl. now destruct (drain parse (b ++ c)).
Qed.

Lemma drain_rest (n : nat) :
  forall b, (List.length b <= n)%nat ->
            drain parse (snd (drain parse b)) = ([], snd (drain parse b)).
Proof.
  induction n as [|n IH]; intros b Hn.
  - destruct b; simpl in Hn; [|lia]. reflexivity.
  - rewrite (drain_unfold b). destruct (indexOf eventSeparator b) eqn:E.
    + pose proof (indexOf_bound _ _ _ E) as Hb. simpl in Hb.
      specialize (IH (skipn (n0 + 2) b)
                     ltac:(rewrite length_skipn; lia)).
      destruct (drain parse (skipn (n0 + 2) b)) as [e1 r1]. exact IH.
    + simpl. rewrite (drain_unfold b), E. reflexivity.
Qed.

Lemma read_chunks (chunks : list jsstring) :
  forall callbacks rest,
    drain parse rest = ([], rest) ->
    fold_left (readChunk parse) chunks (callbacks, rest)
    = let '(e, r) := drain parse (rest ++ List.concat chunks) in
      (callbacks ++ e, r).
Proof.
  induction chunks as [|chunk chunks IH]; intros callbacks rest Hrest.
  - simpl. rewrite app_nil_r, Hrest. now rewrite app_nil_r.
  - simpl. unfold readChunk at 2. simpl.
    rewrite app_assoc.
    rewrite (drain_app (List.length (rest ++ chunk)) (rest ++ chunk)
               (List.concat chunks)) by lia.
    pose proof (drain_rest (List.length (rest ++ chunk)) (rest ++ chunk)
                  ltac:(lia)) as Hr.
    destruct (drain parse (rest ++ chunk)) as [e1 r1]. simpl in Hr.
    rewrite (IH (callbacks ++ e1) r1 Hr).
    destruct (drain parse (r1 ++ List.concat chunks)) as [e2 r2].
    now rewrite app_assoc.
Qed.

(** X15: the callbacks of the stream reader do not depend on how the body
    is cut into chunks: reading any sequence of chunks gives the tokens and
    completions that reading the whole body at once gives. *)
Theorem stream_chunking_is_irrelevant (chunks : list jsstring) :
  callGeminiStream parse chunks
  = callGeminiStream parse [List.concat chunks].
Proof.
  pose proof (read_chunks chunks [] [] eq_refl) as H1.
  pose proof (read_chunks [List.concat chunks] [] [] eq_refl) as H2.
  unfold callGeminiStream. unfold jsstring in *. rewrite H1, H2.
  simpl. now rewrite app_nil_r.
Qed.

(** X16: when the body is a run of complete events closed by the [DONE]
    event, the reader delivers the callbacks of those events and then
    reports completion twice, once for the event and once for the end of
    the body. *)
Theorem done_event_completes_twice (events : jsstring) :
  snd (drain parse events) = [] ->
  callGeminiStream parse [events ++ js "data: [DONE]" ++ eventSeparator]
  = fst (drain parse events) ++ [OnDone; OnDone].
Proof.
  intros H. unfold callGeminiStream. simpl. unfold readChunk. simpl.
  rewrite (drain_app (List.length events) events) by lia.
  destruct (drain parse events) as [e1 r1]. simpl in H. subst r1. simpl.
  rewrite drain_unfold. simpl. rewrite (drain_unfold []). simpl.
  now rewrite <- app_assoc.
Qed.

End StreamReader.

Section StreamReaderExamples.
Import JS JSString GeminiClient MoreScenario.

Lemma done_event_completes_twice_witness :
  callGeminiStream parseQuoted
    [dataEvent "The " ++ dataEvent "theory."
     ++ js "data: [DONE]" ++ eventSeparator]
  = [OnToken (js "The "); OnToken (js "theory."); OnDone; OnDone].
Proof.
  rewrite app_assoc.
  rewrite (done_event_completes_twice parseQuoted
             (dataEvent "The " ++ dataEvent "theory.")).
  - reflexivity.
  - reflexivity.
Defined.

End StreamReaderExamples.

(* ------------------------------------------------------------------ *)
(** ** The context slice *)

Section ContextSliceBounds.
Import JS JSString ContextSlice MoreScenario.

Variable toLowerCase : jsstring -> jsstring.

Lemma slice_length (s : jsstring) (from to : nat) :
  (List.length (slice s from to) <= to - from)%nat.
Proof. unfold slice. rewrite length_firstn. lia. Qed.

Lemma clampParagraph_length (p : jsstring) (radius : nat) :
  (List.length (clampParagraph p radius) <= 2 * radius + 1)%nat.
Proof.
  unfold clampParagraph. destruct (radius * 2 <? List.length p)%nat eqn:E.
  - rewrite length_app. pose proof (slice_length p 0 (radius * 2)).
    simpl. lia.
  - apply Nat.ltb_ge in E. lia.
Qed.

(** X17: the context slice is never longer than the trimmed selection plus
    twice the radius plus the two ellipsis marks, whatever the paragraph;
    and a paragraph no longer than the radius (also in lower case) comes
    back unchanged. *)
Theorem context_slice_is_bounded (paragraph selection : jsstring)
    (radius : nat) :
  (List.length (sliceAroundSelection toLowerCase paragraph selection radius)
   <= List.length (trim selection) + 2 * radius + 2)%nat
  /\ ((List.length paragraph <= radius)%nat ->
      (List.length (toLowerCase paragraph) <= radius)%nat ->
      sliceAroundSelection toLowerCase paragraph selection radius
      = paragraph).
Proof.
  unfold sliceAroundSelection. split.
  - destruct (negb (truthy paragraph)); [simpl; lia|].
    pose proof (clampParagraph_length paragraph radius) as Hc.
    destruct (negb (truthy (trim selection))); [lia|].
    destruct (indexOf _ _) as [idx|]; [|lia].
    set (start := (idx - radius)%nat).
    set (stop := Nat.min (List.length paragraph)
                         (idx + List.length (trim selection) + radius)).
    pose proof (slice_length paragraph start stop) as Hs.
    destruct (0 <? start)%nat, (stop <? List.length paragraph)%nat;
      rewrite ?length_app; simpl; subst start stop; lia.
  - intros Hp Hl.
    assert (Hclamp : clampParagraph paragraph radius = paragraph).
    { unfold clampParagraph.
      destruct (radius * 2 <? List.length paragraph)%nat eqn:E;
        [apply Nat.ltb_lt in E; lia | reflexivity]. }
    destruct paragraph as [|c0 p0] eqn:Ep; [reflexivity|]. rewrite <- Ep in *.
    assert (Ht : negb (truthy paragraph) = false) by (now rewrite Ep).
    rewrite Ht.
    destruct (negb (truthy (trim selection))); [exact Hclamp|].
    destruct (indexOf _ _) as [idx|] eqn:E; [|exact Hclamp].
    pose proof (GeminiClient.indexOf_bound _ _ _ E) as Hb.
    replace (idx - radius)%nat with 0%nat by lia.
    replace (Nat.min (List.length paragraph)
               (idx + List.length (trim selection) + radius))
      with (List.length paragraph) by lia.
    rewrite Nat.ltb_irrefl. simpl.
    unfold slice. simpl. rewrite Nat.sub_0_r. apply firstn_all.
Qed.

End ContextSliceBounds.

Section ContextSliceExamples.
Import JS JSString ContextSlice MoreScenario.

Lemma context_slice_is_bounded_witness :
  sliceAroundSelection lowerAscii (js "Einstein: E=mc2") (js "e=MC2") 50
  = js "Einstein: E=mc2".
Proof.
  apply (proj2 (context_slice_is_bounded lowerAscii
                  (js "Einstein: E=mc2") (js "e=MC2") 50));
    simpl; lia.
Defined.

End ContextSliceExamples.

(* ------------------------------------------------------------------ *)
(** ** The server limit counter *)

Section LimitCounter.
Import JS Popup Scenario PopupFacts.

Lemma secondsOr60_nonneg (status : LimitStatus) :
  0 <= secondsRemaining status -> 0 <= secondsOr60 status.
Proof.
  unfold secondsOr60. destruct (secondsRemaining status =? 0); lia.
Qed.

Lemma secs_nonneg (status : LimitStatus) :
  0 <= secondsRemaining status -> 0 <= windowMs status -> 0 <= secs status.
Proof.
  intros Hs Hw. unfold secs.
  destruct (secondsRemaining status =? 0); [|exact Hs].
  destruct (windowMs status =? 0); [discriminate|].
  pose proof (ceilDiv1000_spec (windowMs status)). lia.
Qed.

Lemma step_limit_nonneg (op : Op) (s : State) :
  statusNonNegative op -> 0 <= limitReached s ->
  0 <= limitReached (step op s).
Proof.
  unfold statusNonNegative. intros Hst H. destruct op; simpl in *.
  - unfold handleExplainClick.
    destruct (negb (truthy (explainText pg))); [exact H|].
    destruct (rateGate now (requestTimes s)); exact H.
  - unfold handleTopSearchSubmit.
    destruct (negb (truthy (trim value))); [exact H|].
    destruct (rateGate now (requestTimes s)); exact H.
  - unfold handleDeeperSubmit.
    destruct (negb (truthy (trim query))); [exact H|].
    destruct (rateGate now (requestTimes s)); exact H.
  - exact H.
  - unfold onDone, refreshLimit. simpl.
    destruct (limit status); [|lia].
    destruct (secondsRemaining status =? 0); lia.
  - unfold onError. destruct (is429 message); simpl.
    + now apply secondsOr60_nonneg.
    + destruct fb; simpl.
      * destruct (limit status); [|lia].
        destruct (secondsRemaining status =? 0); lia.
      * destruct (is429 message0); simpl;
          [now apply secondsOr60_nonneg | exact H].
  - unfold onCatch. destruct (is429 message); simpl;
      [now apply secondsOr60_nonneg | exact H].
  - unfold limitTick. destruct (0 <? limitReached s); [|exact H].
    simpl. destruct (0 <? limitReached s - 1) eqn:E; [|lia].
    apply Z.ltb_lt in E. lia.
  - unfold captureSelectionRange.
    destruct (truthy (trim selectionText)); exact H.
  - lia.
  - destruct (limit status); [|lia].
    destruct (secondsRemaining status =? 0); lia.
  - pose proof (secs_nonneg status (proj1 Hst) (proj2 Hst)).
    destruct (secs status =? 0); lia.
  - exact H.
  - unfold render.
    destruct (JS.eqb (response s) (renderedResponse s)); exact H.
Qed.

(** X18: as long as the limit service reports no negative seconds and no
    negative window, the limit counter is never negative, whatever the
    component does; a negative window can make it negative, through the
    message shown for a blocked Enter.  A limit status that arrives after a
    request or after the popup opened and reports a limit always leaves the
    deeper bar blocked (for at least one second when the service reports 0
    seconds), and one that reports none (which includes every failure to
    reach the service) always leaves it open. *)
Theorem limit_counter_follows_service :
  (forall ops s,
      Forall statusNonNegative ops -> 0 <= limitReached s ->
      0 <= limitReached (run ops s))
  /\ (forall status s,
        secondsRemaining status = 0 -> windowMs status <= -1000 ->
        limitReached (step (LimitAction status) s) < 0)
  /\ (forall op status value limitShown hasShownLimit s,
        op = Done status \/ op = OpenStatus status ->
        limit status = true -> 0 <= secondsRemaining status ->
        1 <= limitReached (step op s)
        /\ limitReached (step op s)
           = Z.max 1 (secondsRemaining status)
        /\ deeperEnter value limitShown hasShownLimit (step op s)
           = LimitBlocked (negb limitShown && negb hasShownLimit))
  /\ (forall op status value limitShown hasShownLimit s,
        op = Done status \/ op = OpenStatus status ->
        limit status = false ->
        limitReached (step op s) = 0
        /\ (truthy (trim value) = true ->
            deeperEnter value limitShown hasShownLimit (step op s)
            = CallDeeperSubmit (trim value))).
Proof.
  assert (Hrefresh : forall op status s,
             op = Done status \/ op = OpenStatus status ->
             limitReached (step op s)
             = if limit status
               then (if secondsRemaining status =? 0 then 1
                     else secondsRemaining status)
               else 0).
  { intros op status s [->| ->]; reflexivity. }
  split; [|split; [|split]].
  - induction ops as [|op ops IH]; intros s Hall H; [exact H|].
    inversion Hall as [|? ? Hop Hrest]; subst.
    change (run (op :: ops) s) with (run ops (step op s)).
    apply IH; [exact Hrest|]. now apply step_limit_nonneg.
  - intros status s Hs Hw. simpl.
    assert (E : secs status < 0).
    { unfold secs. rewrite Hs. change (0 =? 0) with true. cbv iota.
      assert (E0 : (windowMs status =? 0) = false) by (apply Z.eqb_neq; lia).
      rewrite E0. pose proof (ceilDiv1000_spec (windowMs status)). lia. }
    assert (E0 : (secs status =? 0) = false) by (apply Z.eqb_neq; lia).
    rewrite E0. exact E.
  - intros op status value limitShown hasShownLimit s Hop Hl Hs.
    pose proof (Hrefresh op status s Hop) as E. rewrite Hl in E.
    assert (E1 : limitReached (step op s) = Z.max 1 (secondsRemaining status)).
    { rewrite E. destruct (secondsRemaining status =? 0) eqn:E0.
      - apply Z.eqb_eq in E0. rewrite E0. reflexivity.
      - apply Z.eqb_neq in E0. lia. }
    split; [lia|]. split; [exact E1|]. unfold deeperEnter.
    assert (Hb : (1 <=? limitReached (step op s)) = true)
      by (apply Z.leb_le; lia).
    now rewrite Hb.
  - intros op status value limitShown hasShownLimit s Hop Hl.
    pose proof (Hrefresh op status s Hop) as E. rewrite Hl in E.
    split; [exact E|]. intros Ht. unfold deeperEnter. now rewrite E, Ht.
Qed.

Lemma limit_counter_follows_service_witness :
  0 <= limitReached
         (run [ExplainClick 0 relativityPage;
               Caught (js "429") (mkLimitStatus true 2 60000);
               LimitTick; LimitAction (mkLimitStatus true 0 2500);
               LimitTick; LimitTick; LimitTick; Render;
               Done (mkLimitStatus true 0 60000)] initial)
  /\ deeperEnter (js "why") false false
       (step (Done (mkLimitStatus true 0 60000)) initial)
     = LimitBlocked true
  /\ deeperEnter (js "why") true false
       (step (OpenStatus (mkLimitStatus false 0 60000)) initial)
     = CallDeeperSubmit (js "why")
  /\ limitReached (step (LimitAction (mkLimitStatus true 0 (-5000))) initial)
     < 0.
Proof.
  destruct limit_counter_follows_service
    as [Hnonneg [Hneg [Hlimited Hopen]]].
  split; [|split; [|split]].
  - apply Hnonneg; [|simpl; lia].
    repeat constructor; unfold statusNonNegative; simpl; lia.
  - apply (Hlimited (Done (mkLimitStatus true 0 60000))
             (mkLimitStatus true 0 60000) (js "why") false false initial);
      simpl; [now left | reflexivity | lia].
  - apply (Hopen (OpenStatus (mkLimitStatus false 0 60000))
             (mkLimitStatus false 0 60000) (js "why") true false initial);
      [now right | reflexivity | reflexivity].
  - apply Hneg; simpl; [reflexivity | lia].
Defined.

End LimitCounter.

(* ------------------------------------------------------------------ *)
(** ** The selection overlay *)

Section OverlayBlocks.
Import JS Content Overlay MoreScenario.

Lemma Math_round_half (q : Q) : (1 # 2 <= q)%Q -> 1 <= Math_round q.
Proof.
  intros H. unfold Math_round.
  change (Qfloor 1 <= Qfloor (q + (1 # 2))). apply Qfloor_resp_le. lra.
Qed.

Lemma not_noise (r : Rect) :
  isNoise r = false <-> (1 # 2 <= width r)%Q /\ (1 # 2 <= height r)%Q.
Proof.
  unfold isNoise, Qltb. rewrite orb_false_iff, !Qgtb_false. tauto.
Qed.

Lemma rendered_block (rects : list Rect) (b : Block) :
  In b (map blockOf (filter (fun r => negb (isNoise r)) rects)) ->
  exists r, In r rects /\ b = blockOf r
            /\ 1 <= blockWidth b /\ 1 <= blockHeight b.
Proof.
  intros H. apply in_map_iff in H as [r [Hb Hr]].
  apply filter_In in Hr as [Hin Hn]. apply negb_true_iff in Hn.
  apply not_noise in Hn as [Hw Hh].
  exists r. subst b. simpl. repeat split; try assumption;
    now apply Math_round_half.
Qed.

(** X19: rendering a range replaces whatever overlay there was by one
    block per client rect that is at least half a pixel wide and high, in
    the order of the rects, so by exactly one block per rect when no rect
    is smaller; every block is at least one pixel wide and high; and a
    missing range leaves the overlay as it is. *)
Theorem overlay_blocks_are_visible (rects : list Rect) (responseOpen : bool)
    (overlay : option Container) :
  (exists c,
      renderFromRange (Some rects) responseOpen overlay = Some c
      /\ locked c = responseOpen
      /\ (List.length (blocks c) <= List.length rects)%nat
      /\ (forall b, In b (blocks c) ->
                    exists r, In r rects /\ b = blockOf r
                              /\ 1 <= blockWidth b /\ 1 <= blockHeight b)
      /\ (forall r, In r rects ->
                    (1 # 2 <= width r)%Q -> (1 # 2 <= height r)%Q ->
                    In (blockOf r) (blocks c))
      /\ ((forall r, In r rects ->
                     (1 # 2 <= width r)%Q /\ (1 # 2 <= height r)%Q) ->
          blocks c = map blockOf rects))
  /\ renderFromRange None responseOpen overlay = overlay.
Proof.
  split; [|reflexivity].
  eexists. split; [reflexivity|]. simpl. split; [reflexivity|].
  split; [|split; [|split]].
  - rewrite length_map. apply filter_length_le.
  - apply rendered_block.
  - intros r Hin Hw Hh. apply in_map. apply filter_In. split; [exact Hin|].
    apply negb_true_iff, not_noise. now split.
  - intros Hall. f_equal. apply forallb_filter_id. apply forallb_forall.
    intros r Hin. apply negb_true_iff, not_noise. now apply Hall.
Qed.

Lemma overlay_blocks_are_visible_witness :
  exists c,
    renderFromRange
      (Some [mkRect 10 10 200 30 190 20; mkRect 10 30 10 50 0 20;
             mkRect (21 # 2) 30 120 50 (219 # 2) (39 # 2)])
      true None = Some c
    /\ In (mkBlock 11 30 110 20) (blocks c)
    /\ List.length (blocks c) = 2%nat.
Proof.
  destruct (overlay_blocks_are_visible
              [mkRect 10 10 200 30 190 20; mkRect 10 30 10 50 0 20;
               mkRect (21 # 2) 30 120 50 (219 # 2) (39 # 2)] true None)
    as [[c [Hc [_ [_ [_ [Hin _]]]]]] _].
  exists c. split; [exact Hc|]. split.
  - apply (Hin (mkRect (21 # 2) 30 120 50 (219 # 2) (39 # 2)));
      [simpl; tauto | vm_compute; discriminate | vm_compute; discriminate].
  - injection Hc as <-. reflexivity.
Defined.

Lemma bottomMostFrom_In (r0 : Rect) (rs : list Rect) :
  In (bottomMostFrom r0 (r0 :: rs)) (r0 :: rs).
Proof.
  destruct (bottomMostFrom_first r0 rs) as [pre [post [E _]]].
  set (bm := bottomMostFrom r0 (r0 :: rs)) in *.
  rewrite E. apply in_or_app. right. now left.
Qed.

(** X20: an overlay rendered with at least one block always anchors the
    popup when the live selection is collapsed or gone: the resolver
    returns the rect of one of the blocks (its emptiness guard never
    rejects a rendered block), and with a selection object present
    [hasSelection] holds. *)
Theorem rendered_overlay_anchors_popup (rects : list Rect)
    (responseOpen : bool) (overlay : option Container) (c : Container)
    (d : Dom) :
  renderFromRange (Some rects) responseOpen overlay = Some c ->
  blocks c <> [] ->
  overlayBlocks d = Some (map blockRect (blocks c)) ->
  liveRange d = None ->
  (exists b, In b (blocks c) /\ getSelectionRect d = Some (blockRect b))
  /\ (getSelection d <> None -> hasSelection d = true).
Proof.
  intros Hc Hne Hov Hlive. simpl in Hc. injection Hc as <-. simpl in *.
  set (bs := map blockOf (filter (fun r => negb (isNoise r)) rects)) in *.
  destruct bs as [|b0 bs'] eqn:Ebs; [congruence|]. split.
  - unfold getSelectionRect, overlayRect. rewrite Hlive, Hov. simpl map.
    pose proof (bottomMostFrom_In (blockRect b0) (map blockRect bs')) as Hin.
    change (blockRect b0 :: map blockRect bs')
      with (map blockRect (b0 :: bs')) in Hin.
    apply in_map_iff in Hin as [b [Hb Hbin]].
    change (map blockRect (b0 :: bs'))
      with (blockRect b0 :: map blockRect bs') in Hb.
    rewrite <- Hb.
    assert (Hw : 1 <= blockWidth b).
    { assert (Hin' : In b (map blockOf
                             (filter (fun r => negb (isNoise r)) rects)))
        by (fold bs; rewrite Ebs; exact Hbin).
      destruct (rendered_block rects b Hin') as [_ [_ [_ [Hw _]]]].
      exact Hw. }
    assert (Hq : Qgtb (width (blockRect b)) 0 = true).
    { simpl. change 0%Q with (inject_Z 0). apply Qgtb_inject_Z. lia. }
    rewrite Hq. simpl. exists b. split; [exact Hbin | reflexivity].
  - intros Hsel. unfold hasSelection.
    destruct (getSelection d) as [sel|]; [|congruence].
    destruct ((0 <? List.length (trim (selToString sel)))%nat);
      [reflexivity|].
    destruct (negb (isCollapsed sel) && (0 <? rangeCount sel)%nat);
      [reflexivity|].
    now rewrite Hov.
Qed.

Lemma rendered_overlay_anchors_popup_witness :
  exists b,
    In b [mkBlock 10 10 190 20; mkBlock 11 30 110 20]
    /\ getSelectionRect
         (mkDom (Some (mkSelection [] true []))
                (Some (map blockRect
                         [mkBlock 10 10 190 20; mkBlock 11 30 110 20]))
                800 600 200 40)
       = Some (blockRect b).
Proof.
  refine (proj1 (rendered_overlay_anchors_popup
                   [mkRect 10 10 200 30 190 20;
                    mkRect (21 # 2) 30 120 50 (219 # 2) (39 # 2)]
                   true None
                   (mkContainer true
                      [mkBlock 10 10 190 20; mkBlock 11 30 110 20])
                   (mkDom (Some (mkSelection [] true []))
                          (Some (map blockRect
                                   [mkBlock 10 10 190 20;
                                    mkBlock 11 30 110 20]))
                          800 600 200 40)
                   eq_refl _ eq_refl eq_refl)).
  discriminate.
Defined.

End OverlayBlocks.

(* ------------------------------------------------------------------ *)
(** ** Reset and the rate-limit window *)

Section ResetKeepsWindow.
Import JS Popup Scenario PopupFacts.

(** X21: [resetState] (run when the popup opens, closes or is dismissed)
    empties the conversation and the display state but keeps the stored
    request times, so it frees no slot of the client rate limit: a
    submission meets the same gate decision after a reset as before, and
    one that would be rejected is still rejected with the same wait. *)
Theorem reset_keeps_rate_window (s : State) :
  history (resetState s) = []
  /\ response (resetState s) = [] /\ error (resetState s) = []
  /\ loading (resetState s) = false /\ limitReached (resetState s) = 0
  /\ requestTimes (resetState s) = requestTimes s
  /\ (forall op n,
        isSubmission op = true ->
        rateGate (submissionTime op) (requestTimes s) = Rejected n ->
        response (step op (resetState s)) = rateLimitMessage n
        /\ requests (step op (resetState s)) = requests s
        /\ history (step op (resetState s)) = []).
Proof.
  do 6 (split; [reflexivity|]).
  intros op n Hsub Hgate.
  rewrite (step_submission_rejected op (resetState s) n Hsub Hgate).
  repeat split.
Qed.

Lemma reset_keeps_rate_window_witness :
  response (step (ExplainClick 59000 relativityPage) (resetState fiveRecorded))
  = js "Rate limit reached. Try again in 1s"
  /\ requests (step (ExplainClick 59000 relativityPage)
                    (resetState fiveRecorded)) = []
  /\ history (step (ExplainClick 59000 relativityPage)
                   (resetState fiveRecorded)) = [].
Proof.
  destruct (reset_keeps_rate_window fiveRecorded)
    as [_ [_ [_ [_ [_ [_ H]]]]]].
  apply (H (ExplainClick 59000 relativityPage) 1 eq_refl eq_refl).
Defined.

End ResetKeepsWindow.
